(** * PSA import: bone-space conversion and keyframe reduction

    A shallow embedding of [import_psa] (io_scene_psk_psa/psa/importer.py)
    and of the host data it reads and writes, with the properties of the
    bone-space converter, the keyframe reducer and the import loop; and of
    the import panel of the same file (the filter of the sequence list,
    the operators that select sequences, the loading of a file and the
    import operator), with the properties of these.

    Scalars.  The sequence data matrix is a numpy array of floats; it is
    modelled over the rationals [Q], so sums, differences and comparisons
    are exact.  The decisions the importer takes only compare values, and
    every concrete value used below is exactly representable. *)

From Stdlib Require Import QArith Qabs Lqa Lia.
From stdpp Require Import base option list gmap strings pretty stringmap sorting.

Set Warnings "-register-all,-clear-no-such-hyp".

(** ** Python exceptions and the error monad *)

Inductive exn : Type :=
  | KeyError (key : string)
  | IndexError
  | ValueError
  | AttributeError
  | RuntimeError
  | OverflowError.

Inductive result (A : Type) : Type :=
  | Ok (a : A)
  | Raise (e : exn).
Arguments Ok {A} a.
Arguments Raise {A} e.

Definition rbind {A B} (m : result A) (k : A → result B) : result B :=
  match m with
  | Ok a => k a
  | Raise e => Raise e
  end.

Notation "x <- m ;; k" := (rbind m (fun x => k))
  (at level 100, m at next level, right associativity).

(** ** mathutils: quaternions and vectors *)

Record Quaternion : Type := mkQuat { qw : Q; qx : Q; qy : Q; qz : Q }.
Record Vector : Type := mkVec { vx : Q; vy : Q; vz : Q }.

(** [Quaternion()] and [Vector()] without arguments. *)
Definition quat_identity : Quaternion := mkQuat 1 0 0 0.
Definition vec_zero : Vector := mkVec 0 0 0.

Local Open Scope Q_scope.

(** [q.conjugated()]: the vector part is negated. *)
Definition conjugated (q : Quaternion) : Quaternion :=
  mkQuat (qw q) (- qx q) (- qy q) (- qz q).

(** [a - b] on vectors. *)
Definition vec_sub (a b : Vector) : Vector :=
  mkVec (vx a - vx b) (vy a - vy b) (vz a - vz b).

(** [self.rotate(other)] of mathutils is library code outside the
    repository (it goes through rotation matrices and a square root); the
    importer is modelled over any implementation of it.  [quat_rotate self
    other] is the value [self] holds after [self.rotate(other)]. *)
Class Rotate : Type := {
  quat_rotate : Quaternion → Quaternion → Quaternion;
  vec_rotate : Vector → Quaternion → Vector
}.

(** The algebraic reading of [rotate]: on unit quaternions mathutils
    computes the Hamilton product [other * self] (up to the sign its matrix
    round trip picks), and on vectors the sandwich [q v q*]. *)
Definition quat_mul (a b : Quaternion) : Quaternion :=
  mkQuat
    (qw a * qw b - qx a * qx b - qy a * qy b - qz a * qz b)
    (qw a * qx b + qx a * qw b + qy a * qz b - qz a * qy b)
    (qw a * qy b - qx a * qz b + qy a * qw b + qz a * qx b)
    (qw a * qz b + qx a * qy b - qy a * qx b + qz a * qw b).

Definition hamilton_vec_rotate (v : Vector) (q : Quaternion) : Vector :=
  let p := quat_mul (quat_mul q (mkQuat 0 (vx v) (vy v) (vz v))) (conjugated q) in
  mkVec (qx p) (qy p) (qz p).

Definition hamilton : Rotate :=
  {| quat_rotate self other := quat_mul other self;
     vec_rotate := hamilton_vec_rotate |}.

(** Equality of quaternions and vectors as values (component-wise, up to
    the representation of a rational). *)
Definition quat_eqb (a b : Quaternion) : bool :=
  Qeq_bool (qw a) (qw b) && Qeq_bool (qx a) (qx b)
  && Qeq_bool (qy a) (qy b) && Qeq_bool (qz a) (qz b).

Definition vec_eqb (a b : Vector) : bool :=
  Qeq_bool (vx a) (vx b) && Qeq_bool (vy a) (vy b) && Qeq_bool (vz a) (vz b).

Local Close Scope Q_scope.

(** ** The target armature *)

(** A bone of the armature: its name, its parent bone, the translation and
    the rotation of its rest matrix ([matrix_local.translation] and
    [matrix_local.to_quaternion()]), and the three custom properties the
    importer looks for. *)
Inductive Bone : Type :=
  mkBone {
    bone_name : string;
    bone_parent : option Bone;
    matrix_local_translation : Vector;
    matrix_local_quaternion : Quaternion;
    prop_orig_quat : option Quaternion;
    prop_orig_loc : option Vector;
    prop_post_quat : option Quaternion
  }.

(** Modelled from the spec: a bone of the PSA file (data.py is not among
    the sources at hand); the importer reads only its name.  The file has
    the name in bytes and the importer decodes it wherever it reads it
    ([name.decode('windows-1252')]); the name is kept here as the text
    that the decoding gives.  The model is thus of files whose names
    decode: a name that holds one of the five bytes that windows-1252
    leaves without a character (0x81, 0x8D, 0x8F, 0x90, 0x9D) makes the
    importer raise UnicodeDecodeError at line 66, before anything else,
    and is outside the model. *)
Record PsaBone : Type := mkPsaBone { psa_bone_name : string }.

(** ** ImportBone *)

(** [parent] refers to another ImportBone; it is kept as the index of that
    bone in [import_bones].  [fcurves] are references to f-curves of the
    action being filled, kept as their positions in [action.fcurves]. *)
Record ImportBone : Type := mkImportBone {
  psa_bone : PsaBone;
  parent : option nat;
  armature_bone : Bone;
  pose_bone : string;
  orig_loc : Vector;
  orig_quat : Quaternion;
  post_quat : Quaternion;
  fcurves : list nat
}.

Section Converter.
Context {R : Rotate}.

(** [calculate_fcurve_data(import_bone, key_data)].  [key_data] is a row
    of the data matrix; [Quaternion(key_data[0:4])] and
    [Vector(key_data[4:])] need four and three values. *)
Definition calculate_fcurve_data (import_bone : ImportBone) (key_data : list Q)
  : result (list Q) :=
  match key_data with
  | [k0; k1; k2; k3; k4; k5; k6] =>
    let key_rotation := mkQuat k0 k1 k2 k3 in
    let key_location := mkVec k4 k5 k6 in
    let q := post_quat import_bone in
    let q := quat_rotate q (orig_quat import_bone) in
    let quat := q in
    let q := post_quat import_bone in
    let q :=
      match parent import_bone with
      | None => quat_rotate q (conjugated key_rotation)
      | Some _ => quat_rotate q key_rotation
      end in
    let quat := quat_rotate quat (conjugated q) in
    let loc := vec_sub key_location (orig_loc import_bone) in
    let loc := vec_rotate loc (conjugated (post_quat import_bone)) in
    Ok [qw quat; qx quat; qy quat; qz quat; vx loc; vy loc; vz loc]
  | _ => Raise ValueError
  end.

(** Lines 101-118: the rest-pose reference transforms of one import bone
    whose [parent] is already set. *)
Definition calculate_orig (import_bone : ImportBone) : result ImportBone :=
  let armature_bone := armature_bone import_bone in
  match prop_orig_quat armature_bone with
  | Some aux_orig_quat =>
    match prop_orig_loc armature_bone, prop_post_quat armature_bone with
    | Some aux_orig_loc, Some aux_post_quat =>
      Ok (mkImportBone (psa_bone import_bone) (parent import_bone)
            armature_bone (pose_bone import_bone)
            aux_orig_loc aux_orig_quat aux_post_quat (fcurves import_bone))
    | None, _ => Raise (KeyError "orig_loc")
    | _, None => Raise (KeyError "post_quat")
    end
  | None =>
    match parent import_bone with
    | Some _ =>
      match bone_parent armature_bone with
      | Some armature_parent =>
        let loc := vec_sub (matrix_local_translation armature_bone)
                           (matrix_local_translation armature_parent) in
        let loc := vec_rotate loc (conjugated (matrix_local_quaternion armature_parent)) in
        let quat := matrix_local_quaternion armature_bone in
        let quat := quat_rotate quat (conjugated (matrix_local_quaternion armature_parent)) in
        let quat := conjugated quat in
        Ok (mkImportBone (psa_bone import_bone) (parent import_bone)
              armature_bone (pose_bone import_bone)
              loc quat (conjugated quat) (fcurves import_bone))
      | None => Raise AttributeError
      end
    | None =>
      let loc := matrix_local_translation armature_bone in
      let quat := matrix_local_quaternion armature_bone in
      Ok (mkImportBone (psa_bone import_bone) (parent import_bone)
            armature_bone (pose_bone import_bone)
            loc quat (conjugated quat) (fcurves import_bone))
    end
  end.

End Converter.

(** ** numpy arrays of shape (frames, bones, channels)

    An array is its shape and its items; an index outside the shape raises
    IndexError.  The sequence data matrix holds scalars, the keyframe write
    matrix holds the marks 1 and 0 as [true] and [false]. *)

Record ndarray (A : Type) : Type := mkArray {
  nframes : nat;
  nbones : nat;
  nchannels : nat;
  item : nat → nat → nat → A
}.
Arguments mkArray {A} _ _ _ _.
Arguments nframes {A} _.
Arguments nbones {A} _.
Arguments nchannels {A} _.
Arguments item {A} _ _ _ _.

Definition same_shape {A B} (a : ndarray A) (b : ndarray B) : Prop :=
  nframes a = nframes b ∧ nbones a = nbones b ∧ nchannels a = nchannels b.

(** [a[f, b, c]] *)
Definition nd_get {A} (a : ndarray A) (f b c : nat) : result A :=
  if (f <? nframes a) && (b <? nbones a) && (c <? nchannels a)
  then Ok (item a f b c) else Raise IndexError.

(** [a[f, b, c] = v] *)
Definition nd_set {A} (a : ndarray A) (f b c : nat) (v : A) : result (ndarray A) :=
  if (f <? nframes a) && (b <? nbones a) && (c <? nchannels a)
  then Ok (mkArray (nframes a) (nbones a) (nchannels a)
             (λ f' b' c', if (f' =? f) && (b' =? b) && (c' =? c) then v
                          else item a f' b' c'))
  else Raise IndexError.

(** [a[f, b]]: the row of channel values of one bone at one frame. *)
Definition nd_row {A} (a : ndarray A) (f b : nat) : result (list A) :=
  if (f <? nframes a) && (b <? nbones a)
  then Ok (map (item a f b) (seq 0 (nchannels a))) else Raise IndexError.

(** [a[f, b] = row]: the row must have the array's channel count. *)
Definition nd_set_row {A} (a : ndarray A) (f b : nat) (row : list A)
  : result (ndarray A) :=
  if (f <? nframes a) && (b <? nbones a) then
    if length row =? nchannels a then
      Ok (mkArray (nframes a) (nbones a) (nchannels a)
            (λ f' b' c', if (f' =? f) && (b' =? b)
                         then default (item a f' b' c') (row !! c')
                         else item a f' b' c'))
    else Raise ValueError
  else Raise IndexError.

(** [a[:, b, c]]: one channel of one bone over all frames. *)
Definition nd_column {A} (a : ndarray A) (b c : nat) : result (list A) :=
  if (b <? nbones a) && (c <? nchannels a)
  then Ok (map (λ f, item a f b c) (seq 0 (nframes a))) else Raise IndexError.

(** [np.ones(a.shape, dtype=np.int8)] *)
Definition nd_ones {A} (a : ndarray A) : ndarray bool :=
  mkArray (nframes a) (nbones a) (nchannels a) (λ _ _ _, true).

(** An array from nested lists [frame][bone][channel] (for concrete data). *)
Definition nd_of_lists (frames : list (list (list Q))) (bones channels : nat)
  : ndarray Q :=
  mkArray (length frames) bones channels
    (λ f b c, nth c (nth b (nth f frames []) []) 0%Q).

(** ** Loops *)

(** [enumerate(l)] *)
Definition enumerate {A} (l : list A) : list (nat * A) := zip (seq 0 (length l)) l.

(** A [for] loop whose body may raise, over an accumulated state. *)
Fixpoint for_loop {X S} (xs : list X) (body : S → X → result S) (s : S) : result S :=
  match xs with
  | [] => Ok s
  | x :: xs => s' <- body s x ;; for_loop xs body s'
  end.

(** A list comprehension whose element expression may raise. *)
Fixpoint map_result {X Y} (f : X → result Y) (xs : list X) : result (list Y) :=
  match xs with
  | [] => Ok []
  | x :: xs => y <- f x ;; ys <- map_result f xs ;; Ok (y :: ys)
  end.

(** ** The PSA reader *)

(** Modelled from the spec: the sequence records and the reader (data.py
    and reader.py are not among the sources at hand).  A sequence has a
    name (kept as the text it decodes to, like the name of a bone), a
    frame count and a frame rate; the reader exposes the bone table in
    file order, the mapping from sequence names to sequences, and
    [read_sequence_data_matrix], which decodes the matrix of a named
    sequence or fails. *)
Record Sequence : Type := mkSequence {
  sequence_name : string;
  frame_count : nat;
  fps : Q
}.

Record PsaReader : Type := mkPsaReader {
  bones : list PsaBone;
  sequences : gmap string Sequence;
  read_sequence_data_matrix : string → result (ndarray Q)
}.

(** ** Blender data *)

Inductive PoseProperty : Type := rotation_quaternion | location.

#[global] Instance PoseProperty_eq_dec : EqDecision PoseProperty.
Proof. solve_decision. Defined.

(** [pose_bone.path_from_id(property)] names the pose bone and the
    property; the path is kept as that pair. *)
Definition path_from_id (pose_bone : string) (p : PoseProperty)
  : string * PoseProperty := (pose_bone, p).

Record FCurve : Type := mkFCurve {
  data_path : string * PoseProperty;
  array_index : nat;
  group : string;
  keyframe_points : list (nat * Q)
}.

Inductive PropValue : Type :=
  | PString (s : string)
  | PFloat (x : Q).

Record Action : Type := mkAction {
  action_fcurves : list FCurve;
  id_properties : gmap string PropValue;
  use_fake_user : bool
}.

Record NlaStrip : Type := mkNlaStrip {
  strip_name : string;
  strip_start : nat;
  strip_action : string
}.

Record NlaTrack : Type := mkNlaTrack {
  track_name : string;
  track_mute : bool;
  track_strips : list NlaStrip
}.

(** What [print] wrote. *)
Inductive Printed : Type :=
  | MissingBonesHeader (armature_object_name : string)
  | MissingBonesList (names : list string).

(** The mutable host state: [bpy.data.actions] (keyed by action name), the
    armature object's [animation_data] and the standard output. *)
Record World : Type := mkWorld {
  bpy_data_actions : gmap string Action;
  animation_data : option (list NlaTrack);
  stdout : list Printed
}.

(** The armature object handed to the importer. *)
Record ArmatureObject : Type := mkArmatureObject {
  armature_object_name : string;
  armature_bones : list Bone
}.

Record PsaImportOptions : Type := mkPsaImportOptions {
  should_clean_keys : bool;
  should_use_fake_user : bool;
  should_stash : bool;
  sequence_names : list string;
  should_overwrite : bool;
  should_write_keyframes : bool;
  should_write_metadata : bool;
  action_name_prefix : string
}.

(** [PsaImportOptions()] *)
Definition default_options : PsaImportOptions :=
  mkPsaImportOptions true false false [] false true true "".

(** ** Statements that change state

    A statement runs in a state (the host's data, or one action) and leaves
    a state behind, also when it raises. *)

Definition St (S A : Type) : Type := S → result A * S.

Definition st_ret {S A} (a : A) : St S A := λ s, (Ok a, s).

Definition st_bind {S A B} (m : St S A) (k : A → St S B) : St S B :=
  λ s, match m s with
       | (Ok a, s') => k a s'
       | (Raise e, s') => (Raise e, s')
       end.

Definition st_lift {S A} (r : result A) : St S A := λ s, (r, s).

Notation "x <~ m ;; k" := (st_bind m (fun x => k))
  (at level 100, m at next level, right associativity).

Fixpoint st_for {S X T} (xs : list X) (body : T → X → St S T) (t : T) : St S T :=
  match xs with
  | [] => st_ret t
  | x :: xs => t' <~ body t x ;; st_for xs body t'
  end.

(** [print(...)] *)
Definition print (p : Printed) : St World unit :=
  λ w, (Ok tt, mkWorld (bpy_data_actions w) (animation_data w) (stdout w ++ [p])).

(** *** Actions *)

Definition set_fcurves (a : Action) (fcs : list FCurve) : Action :=
  mkAction fcs (id_properties a) (use_fake_user a).

(** [action.fcurves.remove(action.fcurves[-1])], repeated while the
    collection is not empty; [fuel] bounds the iterations and the length of
    the collection is enough. *)
Fixpoint remove_fcurves (fuel : nat) (fcs : list FCurve) : list FCurve :=
  match fuel with
  | O => fcs
  | S fuel =>
    match fcs with
    | [] => []
    | _ :: _ => remove_fcurves fuel (removelast fcs)
    end
  end.

Definition clear_fcurves : St Action unit :=
  λ a, (Ok tt, set_fcurves a (remove_fcurves (length (action_fcurves a)) (action_fcurves a))).

Definition fcurve_is (path : string * PoseProperty) (index : nat) (fc : FCurve) : bool :=
  bool_decide (data_path fc = path) && (array_index fc =? index).

(** [action.fcurves.new(data_path, index=index, action_group=group)].
    Blender refuses (RuntimeError) when the action already has an f-curve
    for that path and index.  The result refers to the new f-curve by its
    position in the collection.  The new f-curve is put last; Blender
    files it with the f-curves of its group, so in an action that has
    kept groups from before (an action that is reused) the order of the
    collection can be another.  What is said below of the f-curves of an
    action that may be a reused one is said of its f-curves as a
    collection (by membership, or up to a permutation). *)
Definition fcurves_new (path : string * PoseProperty) (index : nat) (action_group : string)
  : St Action nat :=
  λ a, if existsb (fcurve_is path index) (action_fcurves a)
       then (Raise RuntimeError, a)
       else (Ok (length (action_fcurves a)),
             set_fcurves a (action_fcurves a ++ [mkFCurve path index action_group []])).

Definition add_keyframe (frame : nat) (value : Q) (fc : FCurve) : FCurve :=
  mkFCurve (data_path fc) (array_index fc) (group fc)
    (keyframe_points fc ++ [(frame, value)]).

(** [fcurve.keyframe_points.insert(frame, value, options={'FAST'})].  The
    importer inserts into a curve by increasing frame, so the point goes
    last. *)
Definition keyframe_points_insert (fcurve : nat) (frame : nat) (value : Q)
  : St Action unit :=
  λ a, (Ok tt, set_fcurves a (alter (add_keyframe frame value) fcurve (action_fcurves a))).

(** [action[key] = value] *)
Definition set_id_property (key : string) (value : PropValue) : St Action unit :=
  λ a, (Ok tt, mkAction (action_fcurves a) (<[key := value]> (id_properties a))
                 (use_fake_user a)).

(** [action.use_fake_user = flag] *)
Definition set_use_fake_user (flag : bool) : St Action unit :=
  λ a, (Ok tt, mkAction (action_fcurves a) (id_properties a) flag).

(** *** bpy.data.actions *)

Definition pad3 (k : nat) : string :=
  (if k <? 10 then "00" else if k <? 100 then "0" else "") +:+ pretty k.

(** The name Blender gives a new datablock: the requested name when it is
    free, else the first free one of name.001, name.002, ...; past .999
    Blender rewrites the name, which is kept here as any free name.  (For a
    requested name that itself ends in a number Blender counts on from
    that number; the facts below only use that the name given is free and
    is the requested one when that is free.)  This is the naming of
    requested names that Blender keeps as they are, which are the names
    that are not empty and have at most 63 bytes; Blender cuts a longer
    name and names an action of an empty name "Action". *)
Fixpoint numbered_name (fuel k : nat) (name : string) (m : gmap string Action)
  : string :=
  match fuel with
  | O => fresh_string name m
  | S fuel =>
    let candidate := name +:+ "." +:+ pad3 k in
    match m !! candidate with
    | None => candidate
    | Some _ => numbered_name fuel (S k) name m
    end
  end.

Definition unique_name (name : string) (m : gmap string Action) : string :=
  match m !! name with
  | None => name
  | Some _ => numbered_name 999 1 name m
  end.

Definition new_action : Action := mkAction [] ∅ false.

(** [bpy.data.actions.new(name=name)]; the result refers to the action by
    the name it got. *)
Definition actions_new (name : string) : St World string :=
  λ w, let name' := unique_name name (bpy_data_actions w) in
       (Ok name', mkWorld (<[name' := new_action]> (bpy_data_actions w))
                    (animation_data w) (stdout w)).

(** Statements on the action that [name] refers to. *)
Definition with_action {A} (name : string) (body : St Action A) : St World A :=
  λ w, match bpy_data_actions w !! name with
       | Some a =>
         let '(r, a') := body a in
         (r, mkWorld (<[name := a']> (bpy_data_actions w)) (animation_data w) (stdout w))
       | None => (Raise (KeyError name), w)
       end.

(** ** import_psa *)

Definition set_import_fcurves (b : ImportBone) (fcs : list nat) : ImportBone :=
  mkImportBone (psa_bone b) (parent b) (armature_bone b) (pose_bone b)
    (orig_loc b) (orig_quat b) (post_quat b) fcs.

Definition set_parent (b : ImportBone) (p : option nat) : ImportBone :=
  mkImportBone (psa_bone b) p (armature_bone b) (pose_bone b)
    (orig_loc b) (orig_quat b) (post_quat b) (fcurves b).

(** [l.index(x)] *)
Fixpoint index_of (x : string) (l : list string) : option nat :=
  match l with
  | [] => None
  | y :: l => if bool_decide (y = x) then Some 0 else S <$> index_of x l
  end.

(** [armature_data.bones[name]] *)
Definition find_bone (name : string) (l : list Bone) : option Bone :=
  snd <$> list_find (λ b, bone_name b = name) l.

(** The order of [sorted] on strings. *)
Definition string_le (a b : string) : Prop := String.leb a b = true.

#[global] Instance string_le_dec : RelDecision string_le.
Proof. intros a b. unfold string_le. apply _. Defined.

(** The keyframe cleaning threshold (line 170). *)
Definition threshold_default : Q := 1 # 1000.

Definition Qltb (x y : Q) : bool := negb (Qle_bool y x).

Section ImportPsa.
Context {R : Rotate}.

(** Lines 62-71: the index from PSA bones to armature bones, in the order
    of the PSA bones (a PSA bone whose name the armature lacks gets no
    entry). *)
Definition build_bone_indices (armature_bone_names : list string)
    (psa_bones : list PsaBone) : list (nat * nat) :=
  omap (λ '(psa_bone_index, psa_bone),
          (λ i, (psa_bone_index, i)) <$>
            index_of (psa_bone_name psa_bone) armature_bone_names)
       (enumerate psa_bones).

(** Lines 73-78: the names the armature lacks, as [sorted] lists them. *)
Definition missing_bone_names (psa_bone_names armature_bone_names : list string)
  : list string :=
  merge_sort string_le
    (filter (λ n, n ∉ armature_bone_names) (remove_dups psa_bone_names)).

Definition report_missing_bones (armature_object : ArmatureObject)
    (psa_bone_names armature_bone_names : list string) : St World unit :=
  let missing := missing_bone_names psa_bone_names armature_bone_names in
  if 0 <? length missing then
    _ <~ print (MissingBonesHeader (armature_object_name armature_object)) ;;
    print (MissingBonesList missing)
  else st_ret tt.

(** Lines 85-95: one entry per PSA bone, [None] for a bone the armature
    lacks. *)
Definition make_import_bone (armature_object : ArmatureObject)
    (psa_to_armature_bone_indices : list (nat * nat))
    (entry : nat * PsaBone) : result (option ImportBone) :=
  let '(psa_bone_index, psa_bone) := entry in
  let bone_name := psa_bone_name psa_bone in
  if bool_decide (psa_bone_index ∈ psa_to_armature_bone_indices.*1) then
    match find_bone bone_name (armature_bones armature_object) with
    | Some armature_bone =>
      Ok (Some (mkImportBone psa_bone None armature_bone bone_name
                  vec_zero quat_identity quat_identity []))
    | None => Raise (KeyError bone_name)
    end
  else Ok None.

(** [import_bones_dict]: from a bone name to the position of its import
    bone (the last one of that name). *)
Definition make_import_bones_dict (import_bones : list (option ImportBone))
  : gmap string nat :=
  foldl (λ d entry,
           match entry with
           | (i, Some import_bone) => <[psa_bone_name (psa_bone import_bone) := i]> d
           | (_, None) => d
           end)
        ∅ (enumerate import_bones).

(** Lines 98-118 for one import bone. *)
Definition link_import_bone (psa_bone_names : list string)
    (import_bones_dict : gmap string nat) (import_bone : ImportBone)
  : result ImportBone :=
  linked <-
    match bone_parent (armature_bone import_bone) with
    | Some armature_parent =>
      if bool_decide (bone_name armature_parent ∈ psa_bone_names) then
        match import_bones_dict !! bone_name armature_parent with
        | Some i => Ok (set_parent import_bone (Some i))
        | None => Raise (KeyError (bone_name armature_parent))
        end
      else Ok import_bone
    | None => Ok import_bone
    end ;;
  calculate_orig linked.

Definition link_import_bones (psa_bone_names : list string)
    (import_bones : list (option ImportBone)) : result (list (option ImportBone)) :=
  let import_bones_dict := make_import_bones_dict import_bones in
  map_result
    (λ entry,
       match entry with
       | Some import_bone =>
         b <- link_import_bone psa_bone_names import_bones_dict import_bone ;;
         Ok (Some b)
       | None => Ok None
       end)
    import_bones.

(** Lines 81-118: the import bones of a reader and an armature. *)
Definition prepare_import_bones (psa_reader : PsaReader)
    (armature_object : ArmatureObject) : result (list (option ImportBone)) :=
  let armature_bone_names := map bone_name (armature_bones armature_object) in
  let psa_bone_names := map psa_bone_name (bones psa_reader) in
  let psa_to_armature_bone_indices :=
    build_bone_indices armature_bone_names (bones psa_reader) in
  import_bones <-
    map_result (make_import_bone armature_object psa_to_armature_bone_indices)
      (enumerate (bones psa_reader)) ;;
  link_import_bones psa_bone_names import_bones.

(** Lines 137-151: seven f-curves for every mapped bone. *)
Definition create_fcurves (psa_to_armature_bone_indices : list (nat * nat))
    (import_bones : list (option ImportBone))
  : St Action (list (option ImportBone)) :=
  st_for psa_to_armature_bone_indices
    (λ import_bones entry,
       match import_bones !! entry.1 with
       | Some (Some import_bone) =>
         let pose_bone := pose_bone import_bone in
         let rotation_data_path := path_from_id pose_bone rotation_quaternion in
         let location_data_path := path_from_id pose_bone location in
         new_fcurves <~
           (f0 <~ fcurves_new rotation_data_path 0 pose_bone ;;
            f1 <~ fcurves_new rotation_data_path 1 pose_bone ;;
            f2 <~ fcurves_new rotation_data_path 2 pose_bone ;;
            f3 <~ fcurves_new rotation_data_path 3 pose_bone ;;
            f4 <~ fcurves_new location_data_path 0 pose_bone ;;
            f5 <~ fcurves_new location_data_path 1 pose_bone ;;
            f6 <~ fcurves_new location_data_path 2 pose_bone ;;
            st_ret [f0; f1; f2; f3; f4; f5; f6]) ;;
         st_ret (<[entry.1 := Some (set_import_fcurves import_bone new_fcurves)]>
                   import_bones)
       | Some None => st_lift (Raise AttributeError)
       | None => st_lift (Raise IndexError)
       end)
    import_bones.

(** Lines 157-165: world space to local space, in place. *)
Definition convert_matrix (import_bones : list (option ImportBone)) (frame_count : nat)
    (sequence_data_matrix : ndarray Q) : result (ndarray Q) :=
  for_loop (enumerate import_bones)
    (λ m entry,
       match entry with
       | (bone_index, Some import_bone) =>
         for_loop (seq 0 frame_count)
           (λ m frame_index,
              key_data <- nd_row m frame_index bone_index ;;
              local <- calculate_fcurve_data import_bone key_data ;;
              nd_set_row m frame_index bone_index local)
           m
       | (_, None) => Ok m
       end)
    sequence_data_matrix.

(** Lines 177-183: the pass over the frames of one channel of one bone. *)
Fixpoint clean_frames (threshold : Q) (bone_index fcurve_index : nat)
    (fcurve_frame_data : list Q) (frame_index : nat) (last_written_datum : Q)
    (keyframe_write_matrix : ndarray bool) : result (ndarray bool) :=
  match fcurve_frame_data with
  | [] => Ok keyframe_write_matrix
  | datum :: rest =>
    if (0 <? frame_index) && Qltb (Qabs (datum - last_written_datum)) threshold then
      w <- nd_set keyframe_write_matrix frame_index bone_index fcurve_index false ;;
      clean_frames threshold bone_index fcurve_index rest (S frame_index)
        last_written_datum w
    else
      clean_frames threshold bone_index fcurve_index rest (S frame_index)
        datum keyframe_write_matrix
  end.

(** Lines 171-183. *)
Definition clean_keys (threshold : Q) (import_bones : list (option ImportBone))
    (sequence_data_matrix : ndarray Q) (keyframe_write_matrix : ndarray bool)
  : result (ndarray bool) :=
  for_loop (enumerate import_bones)
    (λ w entry,
       match entry with
       | (bone_index, Some import_bone) =>
         for_loop (seq 0 (length (fcurves import_bone)))
           (λ w fcurve_index,
              fcurve_frame_data <- nd_column sequence_data_matrix bone_index fcurve_index ;;
              clean_frames threshold bone_index fcurve_index fcurve_frame_data 0 0%Q w)
           w
       | (_, None) => Ok w
       end)
    keyframe_write_matrix.

(** Lines 155 and 169-183: the keyframe write matrix of a local-space data
    matrix. *)
Definition make_write_matrix (clean : bool) (threshold : Q)
    (import_bones : list (option ImportBone)) (sequence_data_matrix : ndarray Q)
  : result (ndarray bool) :=
  let keyframe_write_matrix := nd_ones sequence_data_matrix in
  if clean then clean_keys threshold import_bones sequence_data_matrix keyframe_write_matrix
  else Ok keyframe_write_matrix.

(** [zip(a, b, c)] *)
Definition zip3 {A B C} (a : list A) (b : list B) (c : list C) : list (A * B * C) :=
  zip (zip a b) c.

(** Lines 186-198. *)
Definition write_keyframes (import_bones : list (option ImportBone)) (frame_count : nat)
    (sequence_data_matrix : ndarray Q) (keyframe_write_matrix : ndarray bool)
  : St Action unit :=
  st_for (seq 0 frame_count)
    (λ _ frame_index,
       st_for (enumerate import_bones)
         (λ _ entry,
            match entry with
            | (bone_index, Some import_bone) =>
              marks <~ st_lift (nd_row keyframe_write_matrix frame_index bone_index) ;;
              let bone_has_writeable_keyframes := existsb id marks in
              if bone_has_writeable_keyframes then
                key_data <~ st_lift (nd_row sequence_data_matrix frame_index bone_index) ;;
                st_for (zip3 (fcurves import_bone) marks key_data)
                  (λ _ '(fcurve, should_write, datum),
                     if should_write : bool
                     then keyframe_points_insert fcurve frame_index datum
                     else st_ret tt)
                  tt
              else st_ret tt
            | (_, None) => st_ret tt
            end)
         tt)
    tt.

(** Lines 132-198: the body of [if options.should_write_keyframes]. *)
Definition import_keyframes (psa_reader : PsaReader) (options : PsaImportOptions)
    (psa_to_armature_bone_indices : list (nat * nat)) (sequence : Sequence)
    (import_bones : list (option ImportBone))
  : St Action (list (option ImportBone)) :=
  _ <~ clear_fcurves ;;
  import_bones <~ create_fcurves psa_to_armature_bone_indices import_bones ;;
  sequence_data_matrix <~
    st_lift (read_sequence_data_matrix psa_reader (sequence_name sequence)) ;;
  sequence_data_matrix <~
    st_lift (convert_matrix import_bones (frame_count sequence) sequence_data_matrix) ;;
  keyframe_write_matrix <~
    st_lift (make_write_matrix (should_clean_keys options) threshold_default
               import_bones sequence_data_matrix) ;;
  _ <~ write_keyframes import_bones (frame_count sequence)
         sequence_data_matrix keyframe_write_matrix ;;
  st_ret import_bones.

(** Lines 132-205 on the chosen action. *)
Definition fill_action (psa_reader : PsaReader) (options : PsaImportOptions)
    (psa_to_armature_bone_indices : list (nat * nat)) (sequence : Sequence)
    (import_bones : list (option ImportBone))
  : St Action (list (option ImportBone)) :=
  import_bones <~
    (if should_write_keyframes options
     then import_keyframes psa_reader options psa_to_armature_bone_indices
            sequence import_bones
     else st_ret import_bones) ;;
  _ <~ (if should_write_metadata options then
          _ <~ set_id_property "psa_sequence_name" (PString (sequence_name sequence)) ;;
          set_id_property "psa_sequence_fps" (PFloat (fps sequence))
        else st_ret tt) ;;
  _ <~ set_use_fake_user (should_use_fake_user options) ;;
  st_ret import_bones.

(** Lines 123-207: one turn of the loop over the sequences.  The state of
    the loop is the import bones and the list [actions]. *)
Definition import_sequence (psa_reader : PsaReader) (options : PsaImportOptions)
    (psa_to_armature_bone_indices : list (nat * nat))
    (state : list (option ImportBone) * list string) (sequence : Sequence)
  : St World (list (option ImportBone) * list string) :=
  let '(import_bones, actions) := state in
  let action_name := action_name_prefix options +:+ sequence_name sequence in
  action <~
    (λ w, if should_overwrite options
               && bool_decide (is_Some (bpy_data_actions w !! action_name))
          then st_ret action_name w
          else actions_new action_name w) ;;
  import_bones <~
    with_action action
      (fill_action psa_reader options psa_to_armature_bone_indices sequence import_bones) ;;
  st_ret (import_bones, actions ++ [action]).

(** The names of the strips of the tracks of an object's animation data. *)
Definition strip_names (tracks : list NlaTrack) : list string :=
  flat_map (λ track, map strip_name (track_strips track)) tracks.

(** The name Blender gives a new strip.  Strip names are unique within
    the animation data: the strip gets the requested name when no strip
    has it, else the first free one of name.001, name.002, ...; past .999
    the name is kept here as any free name.  (For a requested name that
    itself ends in a number Blender counts on from that number; the facts
    below only use that the name given is one no strip has and is the
    requested one when no strip has that.) *)
Fixpoint numbered_strip_name (fuel k : nat) (name : string) (used : list string)
  : string :=
  match fuel with
  | O => fresh_string_of_set name (list_to_set used)
  | S fuel =>
    let candidate := name +:+ "." +:+ pad3 k in
    if bool_decide (candidate ∈ used)
    then numbered_strip_name fuel (S k) name used
    else candidate
  end.

Definition unique_strip_name (name : string) (used : list string) : string :=
  if bool_decide (name ∈ used) then numbered_strip_name 999 1 name used else name.

(** Lines 214-217 for one action: a new track at the end of the tracks,
    named as the action and muted, with one strip that starts at frame 0
    and holds the action.  The strip is asked to be named as the action;
    the action is referred to by its name, which is the name of the
    datablock ([action.name]). *)
Definition stash_action (tracks : list NlaTrack) (action : string) : list NlaTrack :=
  let strip := mkNlaStrip (unique_strip_name action (strip_names tracks)) 0 action in
  tracks ++ [mkNlaTrack action true [strip]].

(** Lines 210-217. *)
Definition stash_actions (actions : list string) : St World unit :=
  λ w,
    let tracks := default [] (animation_data w) in
    (Ok tt, mkWorld (bpy_data_actions w) (Some (foldl stash_action tracks actions))
              (stdout w)).

(** [import_psa(psa_reader, armature_object, options)].  The sequences are
    looked up lazily (line 30 builds a [map] object), one at each turn of
    the loop of line 122.  The Python function returns nothing; the result
    here is its local list [actions], the actions of the turns by name. *)
Definition import_psa (psa_reader : PsaReader) (armature_object : ArmatureObject)
    (options : PsaImportOptions) : St World (list string) :=
  let armature_bone_names := map bone_name (armature_bones armature_object) in
  let psa_bone_names := map psa_bone_name (bones psa_reader) in
  let psa_to_armature_bone_indices :=
    build_bone_indices armature_bone_names (bones psa_reader) in
  _ <~ report_missing_bones armature_object psa_bone_names armature_bone_names ;;
  import_bones <~ st_lift (prepare_import_bones psa_reader armature_object) ;;
  state <~
    st_for (sequence_names options)
      (λ state x,
         match sequences psa_reader !! x with
         | Some sequence =>
           import_sequence psa_reader options psa_to_armature_bone_indices state sequence
         | None => st_lift (Raise (KeyError x))
         end)
      (import_bones, []) ;;
  _ <~ (if should_stash options then stash_actions state.2 else st_ret tt) ;;
  st_ret state.2.

End ImportPsa.

(** * Specifications

    The closed forms, predicates and concrete data that the facts below
    are stated with. *)

Section Specification.
Context {R : Rotate}.

(** ** The keyframe reducer *)

(** The marks a pass over one channel leaves, as a list: the pass of
    [clean_frames] without the matrix. *)
Fixpoint marks_from (threshold : Q) (frame_index : nat) (last_written_datum : Q)
    (fcurve_frame_data : list Q) : list bool :=
  match fcurve_frame_data with
  | [] => []
  | datum :: rest =>
    if (0 <? frame_index) && Qltb (Qabs (datum - last_written_datum)) threshold
    then false :: marks_from threshold (S frame_index) last_written_datum rest
    else true :: marks_from threshold (S frame_index) datum rest
  end.

(** One channel of one bone over the frames, and the marks its pass
    leaves. *)
Definition channel_data (M : ndarray Q) (b c : nat) : list Q :=
  map (λ f, item M f b c) (seq 0 (nframes M)).

Definition channel_marks (threshold : Q) (M : ndarray Q) (b c : nat) : list bool :=
  marks_from threshold 0 0%Q (channel_data M b c).

Definition clean_item (threshold : Q) (import_bones : list (option ImportBone))
    (M : ndarray Q) (f b c : nat) : bool :=
  match import_bones !! b with
  | Some (Some import_bone) =>
    if c <? length (fcurves import_bone)
    then default true (channel_marks threshold M b c !! f) else true
  | _ => true
  end.

(** The import bones fit a matrix: one bone slot per entry and a channel per
    f-curve. *)
Definition fits (import_bones : list (option ImportBone)) {A} (M : ndarray A) : Prop :=
  length import_bones ≤ nbones M
  ∧ ∀ b import_bone, import_bones !! b = Some (Some import_bone) →
      length (fcurves import_bone) ≤ nchannels M.

(** Concrete data: one mapped bone and three frames. *)
Definition sample_bone : Bone :=
  mkBone "pelvis" None (mkVec 0 0 0) (mkQuat 1 0 0 0) None None None.

Definition sample_import_bone : ImportBone :=
  mkImportBone (mkPsaBone "pelvis") None sample_bone "pelvis"
    vec_zero quat_identity quat_identity [0; 1; 2; 3; 4; 5; 6].

Definition sample_matrix : ndarray Q :=
  nd_of_lists
    [ [[1; 0; 0; 0; 0; 0; 0]];
      [[1; 0; 0; 0; 0; 0; 0]];
      [[1; 0; 0; 0; 1; 2; 3]] ]%Q 1 7.

(** ** Counting written keyframes *)

Definition count_true (l : list bool) : nat :=
  sum_list (map (λ m : bool, if m then 1 else 0) l).

(** The entries of a write matrix that are marked written. *)
Definition written_in_channel (W : ndarray bool) (b c : nat) : nat :=
  count_true (map (λ f, item W f b c) (seq 0 (nframes W))).

Definition written_count (W : ndarray bool) : nat :=
  sum_list (map (λ b, sum_list (map (written_in_channel W b) (seq 0 (nchannels W))))
              (seq 0 (nbones W))).

(** A channel whose values never decrease, or never increase, over the
    frames. *)
Definition monotone_channel (M : ndarray Q) (b c : nat) : Prop :=
  (∀ f, S f < nframes M → (item M f b c <= item M (S f) b c)%Q)
  ∨ (∀ f, S f < nframes M → (item M (S f) b c <= item M f b c)%Q).

Fixpoint ascending_from (last : Q) (data : list Q) : Prop :=
  match data with
  | [] => True
  | d :: rest => (last <= d)%Q ∧ ascending_from d rest
  end.

(** A channel that rises and falls: the written keyframes of a result. *)
Definition written_of (r : result (ndarray bool)) : option nat :=
  match r with
  | Ok W => Some (written_count W)
  | Raise _ => None
  end.

Definition zigzag_matrix : ndarray Q :=
  nd_of_lists
    [ [[1; 0; 0; 0; 0; 0; 0]];
      [[1; 0; 0; 0; 1 # 1000; 0; 0]];
      [[1; 0; 0; 0; 1 # 600; 0; 0]];
      [[1; 0; 0; 0; 1 # 3000; 0; 0]];
      [[1; 0; 0; 0; 1 # 600; 0; 0]];
      [[1; 0; 0; 0; 1 # 3000; 0; 0]] ]%Q 1 7.

(** ** The bone-space converter *)







(** The parent of an armature bone that has a counterpart in the PSA. *)
Definition mapped_parent (psa_bone_names : list string) (armature_bone : Bone)
  : option Bone :=
  match bone_parent armature_bone with
  | Some armature_parent =>
    if bool_decide (bone_name armature_parent ∈ psa_bone_names)
    then Some armature_parent else None
  | None => None
  end.

(** What Blender guarantees of an armature: the parent of a bone is a bone
    of the armature; and what the importer expects of the custom properties:
    a bone that has [orig_quat] has the other two. *)
Definition wf_armature (armature_object : ArmatureObject) : Prop :=
  ∀ b, b ∈ armature_bones armature_object →
    (∀ p, bone_parent b = Some p →
       bone_name p ∈ map bone_name (armature_bones armature_object))
    ∧ (is_Some (prop_orig_quat b) →
       is_Some (prop_orig_loc b) ∧ is_Some (prop_post_quat b)).

(** A concrete armature: a root with the custom properties and a child
    without them. *)
Definition aux_pelvis : Bone :=
  mkBone "pelvis" None (mkVec 0 0 0) (mkQuat 1 0 0 0)
    (Some (mkQuat (3 # 5) (4 # 5) 0 0)) (Some (mkVec 0 0 2))
    (Some (mkQuat (3 # 5) (4 # 5) 0 0)).

Definition plain_spine : Bone :=
  mkBone "spine" (Some aux_pelvis) (mkVec 0 0 1) (mkQuat (3 # 5) (4 # 5) 0 0)
    None None None.

Definition two_bone_armature : ArmatureObject :=
  mkArmatureObject "Armature" [aux_pelvis; plain_spine].

Definition two_bone_reader (matrix : ndarray Q) : PsaReader :=
  mkPsaReader [mkPsaBone "pelvis"; mkPsaBone "spine"]
    {[ "Walk" := mkSequence "Walk" (nframes matrix) 30 ]}
    (λ name, if String.eqb name "Walk" then Ok matrix else Raise (KeyError name)).

Definition import_bone_at (r : result (list (option ImportBone))) (i : nat)
  : option ImportBone :=
  match r with
  | Ok l => mjoin (l !! i)
  | Raise _ => None
  end.

(** ** The f-curves of an imported action *)

Definition channel_property (c : nat) : PoseProperty :=
  if c <? 4 then rotation_quaternion else location.

Definition channel_index (c : nat) : nat := if c <? 4 then c else c - 4.

(** The f-curve of channel [c] of the pose bone [name], with its keyframe
    points. *)
Definition channel_fcurve (name : string) (points : nat → list (nat * Q)) (c : nat)
  : FCurve :=
  mkFCurve (path_from_id name (channel_property c)) (channel_index c) name (points c).

Definition bone_fcurves (name : string) (points : nat → list (nat * Q)) : list FCurve :=
  map (channel_fcurve name points) (seq 0 7).

(** The pose bones of the entries of the bone index, in order. *)
Definition entry_pose_bones (import_bones : list (option ImportBone))
    (entries : list (nat * nat)) : list string :=
  omap (λ i, pose_bone <$> mjoin (import_bones !! i)) entries.*1.

(** The local-space row of a bone at a frame of the matrix the reader
    returned. *)
Definition local_row (import_bone : ImportBone) (M : ndarray Q) (f b : nat) : list Q :=
  match calculate_fcurve_data import_bone (map (item M f b) (seq 0 (nchannels M))) with
  | Ok row => row
  | Raise _ => []
  end.

Definition converted_item (import_bones : list (option ImportBone)) (frame_count : nat)
    (M : ndarray Q) (f b c : nat) : Q :=
  match import_bones !! b with
  | Some (Some import_bone) =>
    if f <? frame_count
    then default (item M f b c) (local_row import_bone M f b !! c)
    else item M f b c
  | _ => item M f b c
  end.

(** ** Writing the keyframes *)

(** A keyframe insertion: the f-curve (by position) and the point. *)
Definition apply_event (l : list FCurve) (e : nat * (nat * Q)) : list FCurve :=
  alter (add_keyframe e.2.1 e.2.2) e.1 l.

(** The insertions of one bone at one frame (line 194), of one frame, and
    of the whole loop, in the order the loop makes them. *)
Definition row_events (f : nat) (z : list (nat * bool * Q)) : list (nat * (nat * Q)) :=
  flat_map (λ '(h, m, d), if m : bool then [(h, (f, d))] else []) z.

Definition bone_events (D : ndarray Q) (W : ndarray bool) (f : nat)
    (entry : nat * option ImportBone) : list (nat * (nat * Q)) :=
  match entry with
  | (i, Some b) =>
    let marks := map (item W f i) (seq 0 (nchannels W)) in
    if existsb id marks
    then row_events f (zip3 (fcurves b) marks (map (item D f i) (seq 0 (nchannels D))))
    else []
  | (_, None) => []
  end.

Definition all_events (import_bones : list (option ImportBone)) (frame_count : nat)
    (D : ndarray Q) (W : ndarray bool) : list (nat * (nat * Q)) :=
  flat_map (λ f, flat_map (bone_events D W f) (enumerate import_bones))
    (seq 0 frame_count).

(** The points inserted into the f-curve at position [h]. *)
Definition events_at (h : nat) (events : list (nat * (nat * Q))) : list (nat * Q) :=
  flat_map (λ e, if decide (e.1 = h) then [e.2] else []) events.

Definition add_keyframes (points : list (nat * Q)) (fc : FCurve) : FCurve :=
  mkFCurve (data_path fc) (array_index fc) (group fc) (keyframe_points fc ++ points).

(** The keyframes of a channel: the frames the write matrix marks. *)
Definition keyframes_of (D : ndarray Q) (W : ndarray bool) (frame_count : nat)
    (b c : nat) : list (nat * Q) :=
  flat_map (λ f, if item W f b c then [(f, item D f b c)] else []) (seq 0 frame_count).

Definition same_meta (a a' : Action) : Prop :=
  id_properties a' = id_properties a ∧ use_fake_user a' = use_fake_user a.

(** The f-curve references of the import bones: seven per bone, no two
    alike, none shared between two bones. *)
Definition handles_ok (import_bones : list (option ImportBone)) : Prop :=
  (∀ i b, import_bones !! i = Some (Some b) →
     length (fcurves b) = 7 ∧ NoDup (fcurves b))
  ∧ (∀ i i' b b' h, import_bones !! i = Some (Some b) →
       import_bones !! i' = Some (Some b') →
       h ∈ fcurves b → h ∈ fcurves b' → i = i').

(** Import bones up to their f-curve references. *)
Definition strip (b : ImportBone) : ImportBone := set_import_fcurves b [].

Definition strip_bones (import_bones : list (option ImportBone))
  : list (option ImportBone) :=
  map (option_map strip) import_bones.

(** The keyframes of a channel of a sequence: the local-space values of
    the frames the reducer marks. *)
Definition channel_values (import_bones : list (option ImportBone)) (frame_count : nat)
    (M : ndarray Q) (i c : nat) : list Q :=
  map (λ f, converted_item import_bones frame_count M f i c) (seq 0 (nframes M)).

Definition channel_mark (import_bones : list (option ImportBone)) (clean : bool)
    (threshold : Q) (frame_count : nat) (M : ndarray Q) (i c f : nat) : bool :=
  if clean
  then default true
         (marks_from threshold 0 0%Q (channel_values import_bones frame_count M i c) !! f)
  else true.

Definition channel_keyframes (import_bones : list (option ImportBone)) (clean : bool)
    (threshold : Q) (frame_count : nat) (M : ndarray Q) (i c : nat) : list (nat * Q) :=
  flat_map (λ f, if channel_mark import_bones clean threshold frame_count M i c f
                 then [(f, converted_item import_bones frame_count M f i c)] else [])
    (seq 0 frame_count).

(** The f-curves of the action of a sequence: seven per mapped bone, in
    the order of the bone index. *)
Definition sequence_fcurves (entries : list (nat * nat))
    (import_bones : list (option ImportBone)) (clean : bool) (threshold : Q)
    (frame_count : nat) (M : ndarray Q) : list FCurve :=
  flat_map (λ i, match mjoin (import_bones !! i) with
                 | Some b =>
                   bone_fcurves (pose_bone b)
                     (channel_keyframes import_bones clean threshold frame_count M i)
                 | None => []
                 end)
    entries.*1.

(** The bone index agrees with the import bones. *)
Definition entries_ok (entries : list (nat * nat))
    (import_bones : list (option ImportBone)) : Prop :=
  NoDup entries.*1
  ∧ (∀ i, i ∈ entries.*1 ↔ ∃ b, import_bones !! i = Some (Some b))
  ∧ NoDup (entry_pose_bones import_bones entries).

(** ** The turns of the loop and the whole import *)

(** The action a turn of the loop leaves: the f-curves of the sequence
    when keyframes are written, the metadata when it is written, and the
    fake-user flag. *)
Definition filled_action (options : PsaImportOptions) (sequence : Sequence)
    (fcs : list FCurve) (a : Action) : Action :=
  mkAction
    (if should_write_keyframes options then fcs else action_fcurves a)
    (if should_write_metadata options
     then <["psa_sequence_fps" := PFloat (fps sequence)]>
            (<["psa_sequence_name" := PString (sequence_name sequence)]>
               (id_properties a))
     else id_properties a)
    (should_use_fake_user options).

(** The matrix the reader returns for a sequence. *)
Definition sequence_matrix (psa_reader : PsaReader) (sequence : Sequence) : ndarray Q :=
  match read_sequence_data_matrix psa_reader (sequence_name sequence) with
  | Ok M => M
  | Raise _ => mkArray 0 0 0 (λ _ _ _, 0%Q)
  end.

(** Modelled from the spec: the reader returns, for a sequence, a matrix of
    its frame count, the bone count of the file, and seven channels. *)
Definition sequence_ready (psa_reader : PsaReader) (sequence : Sequence) : Prop :=
  ∃ M, read_sequence_data_matrix psa_reader (sequence_name sequence) = Ok M
       ∧ nframes M = frame_count sequence
       ∧ nbones M = length (bones psa_reader)
       ∧ nchannels M = 7.

Definition imported_fcurves (psa_reader : PsaReader) (options : PsaImportOptions)
    (entries : list (nat * nat)) (import_bones : list (option ImportBone))
    (sequence : Sequence) : list FCurve :=
  sequence_fcurves entries import_bones (should_clean_keys options) threshold_default
    (frame_count sequence) (sequence_matrix psa_reader sequence).

(** The name of the action a turn works on, and the action it starts
    from. *)
Definition sequence_action_name (options : PsaImportOptions) (sequence : Sequence)
    (m : gmap string Action) : string :=
  let action_name := action_name_prefix options +:+ sequence_name sequence in
  if should_overwrite options && bool_decide (is_Some (m !! action_name))
  then action_name else unique_name action_name m.

Definition sequence_base (options : PsaImportOptions) (sequence : Sequence)
    (m : gmap string Action) : Action :=
  let action_name := action_name_prefix options +:+ sequence_name sequence in
  if should_overwrite options then default new_action (m !! action_name)
  else new_action.

(** The actions after a turn of the loop. *)
Definition import_step (psa_reader : PsaReader) (options : PsaImportOptions)
    (entries : list (nat * nat)) (import_bones : list (option ImportBone))
    (m : gmap string Action) (sequence : Sequence) : gmap string Action :=
  <[sequence_action_name options sequence m :=
      filled_action options sequence
        (imported_fcurves psa_reader options entries import_bones sequence)
        (sequence_base options sequence m)]> m.

(** The requested sequences the reader has. *)
Definition requested_sequences (psa_reader : PsaReader) (names : list string)
  : list Sequence :=
  omap (λ x, sequences psa_reader !! x) names.

(** The names of the actions of the turns, and the actions after them. *)
Fixpoint import_names (psa_reader : PsaReader) (options : PsaImportOptions)
    (entries : list (nat * nat)) (import_bones : list (option ImportBone))
    (m : gmap string Action) (ss : list Sequence) : list string :=
  match ss with
  | [] => []
  | s :: ss =>
    sequence_action_name options s m
    :: import_names psa_reader options entries import_bones
         (import_step psa_reader options entries import_bones m s) ss
  end.

Definition import_steps (psa_reader : PsaReader) (options : PsaImportOptions)
    (entries : list (nat * nat)) (import_bones : list (option ImportBone))
    (m : gmap string Action) (ss : list Sequence) : gmap string Action :=
  foldl (import_step psa_reader options entries import_bones) m ss.

(** What the import prints, and the animation data it leaves. *)
Definition reported (psa_reader : PsaReader) (armature_object : ArmatureObject)
  : list Printed :=
  let missing :=
    missing_bone_names (map psa_bone_name (bones psa_reader))
      (map bone_name (armature_bones armature_object)) in
  if 0 <? length missing
  then [MissingBonesHeader (armature_object_name armature_object);
        MissingBonesList missing]
  else [].

Definition stashed (options : PsaImportOptions) (actions : list string)
    (data : option (list NlaTrack)) : option (list NlaTrack) :=
  if should_stash options
  then Some (foldl stash_action (default [] data) actions)
  else data.

(** Modelled from the spec: the reader maps the name of every sequence
    to that sequence. *)
Definition reader_keyed (psa_reader : PsaReader) : Prop :=
  ∀ x s, sequences psa_reader !! x = Some s → sequence_name s = x.

(** What the import needs to run to its end: an armature as Blender
    keeps it, requested names the reader has and, to write keyframes, PSA
    bones of distinct names and matrices of the shape the reader
    promises. *)
Definition import_ready (psa_reader : PsaReader) (armature_object : ArmatureObject)
    (options : PsaImportOptions) : Prop :=
  wf_armature armature_object
  ∧ (∀ x, x ∈ sequence_names options → is_Some (sequences psa_reader !! x))
  ∧ (should_write_keyframes options = true →
       NoDup (map psa_bone_name (bones psa_reader))
       ∧ ∀ x s, x ∈ sequence_names options → sequences psa_reader !! x = Some s →
           sequence_ready psa_reader s).

(** What a filled action holds of its sequence. *)
Definition action_of_sequence (options : PsaImportOptions) (fcs : list FCurve)
    (sequence : Sequence) (a : Action) : Prop :=
  use_fake_user a = should_use_fake_user options
  ∧ (should_write_keyframes options = true → action_fcurves a = fcs)
  ∧ (should_write_metadata options = true →
       id_properties a !! "psa_sequence_name" = Some (PString (sequence_name sequence))
       ∧ id_properties a !! "psa_sequence_fps" = Some (PFloat (fps sequence))).

(** The same, with the f-curves up to their order in the collection:
    Blender files a new f-curve of an action that is reused under the
    groups the action has kept, so the order of the collection is not that
    of the creation. *)
Definition action_holds (options : PsaImportOptions) (fcs : list FCurve)
    (sequence : Sequence) (a : Action) : Prop :=
  use_fake_user a = should_use_fake_user options
  ∧ (should_write_keyframes options = true → action_fcurves a ≡ₚ fcs)
  ∧ (should_write_metadata options = true →
       id_properties a !! "psa_sequence_name" = Some (PString (sequence_name sequence))
       ∧ id_properties a !! "psa_sequence_fps" = Some (PFloat (fps sequence))).

(** ** A concrete file, armature and scene *)

Definition walk_matrix : ndarray Q :=
  nd_of_lists
    [ [[1; 0; 0; 0; 0; 0; 0]; [1; 0; 0; 0; 0; 0; 0]];
      [[1; 0; 0; 0; 0; 0; 0]; [1; 0; 0; 0; 0; 0; 0]];
      [[1; 0; 0; 0; 1; 2; 3]; [1; 0; 0; 0; 1; 2; 3]] ]%Q 2 7.

Definition walk_sequence : Sequence := mkSequence "Walk" 3 30.

Definition walk_reader : PsaReader := two_bone_reader walk_matrix.

(** The armature without the bone "spine". *)
Definition pelvis_only_armature : ArmatureObject :=
  mkArmatureObject "Armature" [sample_bone].

(** An action "Walk" that is in the scene before the import. *)
Definition old_walk : Action :=
  mkAction [mkFCurve ("pelvis", location) 0 "pelvis" [(0, 5%Q); (4, 6%Q)]] ∅ false.

Definition empty_world : World := mkWorld ∅ None [].
Definition walk_world : World := mkWorld {[ "Walk" := old_walk ]} None [].

Definition walk_options (clean overwrite keyframes : bool) (names : list string)
  : PsaImportOptions :=
  mkPsaImportOptions clean false false names overwrite keyframes true "".

End Specification.

(** * The import panel

    The state the panel keeps in the scene, the filter of the sequence
    list, the loading of a file, and the operators that select sequences
    and start the import (importer.py, lines 220-620). *)

(** ** The property groups *)

(** [PsaImportActionListItem] *)
Record PsaImportActionListItem : Type := mkPsaImportActionListItem {
  action_name : string;
  is_selected : bool
}.

(** [PsaBonePropertyGroup]; its one property is [bone_name]. *)
Record PsaBonePropertyGroup : Type := mkPsaBonePropertyGroup {
  item_bone_name : string
}.

(** [PsaDataPropertyGroup]; the property [bones] is named [psa_bones]
    here. *)
Record PsaDataPropertyGroup : Type := mkPsaDataPropertyGroup {
  psa_bones : list PsaBonePropertyGroup;
  sequence_count : Z
}.

(** [PsaImportPropertyGroup].  The properties that the import options
    also have carry the prefix [pg_].  [select_text] points to a text
    datablock or to nothing; the datablock is kept as what its
    [as_string()] returns. *)
Record PsaImportPropertyGroup : Type := mkPsaImportPropertyGroup {
  psa_file_path : string;
  psa_error : string;
  psa : PsaDataPropertyGroup;
  sequence_list : list PsaImportActionListItem;
  sequence_list_index : Z;
  pg_should_clean_keys : bool;
  pg_should_use_fake_user : bool;
  pg_should_stash : bool;
  should_use_action_name_prefix : bool;
  pg_action_name_prefix : string;
  pg_should_overwrite : bool;
  pg_should_write_keyframes : bool;
  pg_should_write_metadata : bool;
  sequence_filter_name : string;
  sequence_filter_is_selected : bool;
  sequence_use_filter_invert : bool;
  sequence_use_filter_regex : bool;
  select_text : option string
}.

Definition set_sequence_list (pg : PsaImportPropertyGroup)
    (l : list PsaImportActionListItem) : PsaImportPropertyGroup :=
  mkPsaImportPropertyGroup (psa_file_path pg) (psa_error pg) (psa pg) l
    (sequence_list_index pg) (pg_should_clean_keys pg) (pg_should_use_fake_user pg)
    (pg_should_stash pg) (should_use_action_name_prefix pg) (pg_action_name_prefix pg)
    (pg_should_overwrite pg) (pg_should_write_keyframes pg)
    (pg_should_write_metadata pg) (sequence_filter_name pg)
    (sequence_filter_is_selected pg) (sequence_use_filter_invert pg)
    (sequence_use_filter_regex pg) (select_text pg).

Definition set_psa_bones (pg : PsaImportPropertyGroup)
    (l : list PsaBonePropertyGroup) : PsaImportPropertyGroup :=
  mkPsaImportPropertyGroup (psa_file_path pg) (psa_error pg)
    (mkPsaDataPropertyGroup l (sequence_count (psa pg))) (sequence_list pg)
    (sequence_list_index pg) (pg_should_clean_keys pg) (pg_should_use_fake_user pg)
    (pg_should_stash pg) (should_use_action_name_prefix pg) (pg_action_name_prefix pg)
    (pg_should_overwrite pg) (pg_should_write_keyframes pg)
    (pg_should_write_metadata pg) (sequence_filter_name pg)
    (sequence_filter_is_selected pg) (sequence_use_filter_invert pg)
    (sequence_use_filter_regex pg) (select_text pg).

Definition set_psa_error (pg : PsaImportPropertyGroup) (message : string)
  : PsaImportPropertyGroup :=
  mkPsaImportPropertyGroup (psa_file_path pg) message (psa pg) (sequence_list pg)
    (sequence_list_index pg) (pg_should_clean_keys pg) (pg_should_use_fake_user pg)
    (pg_should_stash pg) (should_use_action_name_prefix pg) (pg_action_name_prefix pg)
    (pg_should_overwrite pg) (pg_should_write_keyframes pg)
    (pg_should_write_metadata pg) (sequence_filter_name pg)
    (sequence_filter_is_selected pg) (sequence_use_filter_invert pg)
    (sequence_use_filter_regex pg) (select_text pg).

Definition set_sequence_use_filter_invert (pg : PsaImportPropertyGroup) (value : bool)
  : PsaImportPropertyGroup :=
  mkPsaImportPropertyGroup (psa_file_path pg) (psa_error pg) (psa pg) (sequence_list pg)
    (sequence_list_index pg) (pg_should_clean_keys pg) (pg_should_use_fake_user pg)
    (pg_should_stash pg) (should_use_action_name_prefix pg) (pg_action_name_prefix pg)
    (pg_should_overwrite pg) (pg_should_write_keyframes pg)
    (pg_should_write_metadata pg) (sequence_filter_name pg)
    (sequence_filter_is_selected pg) value
    (sequence_use_filter_regex pg) (select_text pg).

(** ** Pattern matching

    [re] and [fnmatch] are modules of Python's library; the filter is
    modelled over any implementation of them.  [re_compile] says what
    [re.compile] does with a pattern: it returns the compiled pattern, it
    raises [re.error], or it raises another exception ([OverflowError]
    for a repetition count past the limit of the library,
    [RecursionError] for a pattern nested too deep).  [re_match regex s]
    says whether [regex.match(s)] found a match.  [fnmatch name pattern]
    is what [fnmatch.fnmatch] returns; it compiles the regular expression
    it makes of its pattern, and what that raises it raises. *)
Inductive CompileOutcome (Regex : Type) : Type :=
  | Compiled (regex : Regex)
  | ReError
  | RaisesOther (e : exn).
Arguments Compiled {Regex} regex.
Arguments ReError {Regex}.
Arguments RaisesOther {Regex} e.

Class Matching : Type := {
  Regex : Type;
  re_compile : string → CompileOutcome Regex;
  re_match : Regex → string → bool;
  fnmatch : string → string → result bool
}.

(** Modelled from the spec: [PsaReader(path)] opens the file at a path
    and builds its reader, or raises (reader.py is not among the sources
    at hand).  It is taken as a parameter, as are [os.path.abspath] and
    [str] of Python's library: the panel is modelled over any
    implementation of them. *)
Class Host : Type := {
  PsaReader_new : string → result PsaReader;
  os_path_abspath : string → string;
  exn_str : exn → string
}.

(** ** The context of an operator *)

Inductive OperatorResult : Type := FINISHED | CANCELLED | RUNNING_MODAL.

Inductive ReportType : Type := INFO | ERROR_INVALID_CONTEXT.

(** An object of the scene: an armature object (the objects whose [type]
    is ['ARMATURE']), or an object of another type. *)
Inductive BlenderObject : Type :=
  | ArmatureObj (armature_object : ArmatureObject)
  | OtherObj.

(** What an operator reads and writes: [context.scene.psa_import],
    [context.view_layer.objects.active], the host data of the import, and
    the reports made with [self.report]. *)
Record BlenderContext : Type := mkBlenderContext {
  scene_psa_import : PsaImportPropertyGroup;
  view_layer_objects_active : option BlenderObject;
  blend_data : World;
  reports : list (ReportType * string)
}.

Definition set_psa_import (ctx : BlenderContext) (pg : PsaImportPropertyGroup)
  : BlenderContext :=
  mkBlenderContext pg (view_layer_objects_active ctx) (blend_data ctx) (reports ctx).

(** [context.scene.psa_import] *)
Definition get_psa_import : St BlenderContext PsaImportPropertyGroup :=
  λ ctx, (Ok (scene_psa_import ctx), ctx).

(** [self.report({type}, message)] *)
Definition report (type : ReportType) (message : string) : St BlenderContext unit :=
  λ ctx, (Ok tt, mkBlenderContext (scene_psa_import ctx) (view_layer_objects_active ctx)
                   (blend_data ctx) (reports ctx ++ [(type, message)])).

(** The item of [pg.sequence_list] that a reference points to. *)
Definition sequence_item (sequence : nat) : St BlenderContext PsaImportActionListItem :=
  λ ctx, match sequence_list (scene_psa_import ctx) !! sequence with
         | Some item => (Ok item, ctx)
         | None => (Raise IndexError, ctx)
         end.

Definition select_item (value : bool) (item : PsaImportActionListItem)
  : PsaImportActionListItem :=
  mkPsaImportActionListItem (action_name item) value.

(** [sequence.is_selected = value] *)
Definition set_is_selected (sequence : nat) (value : bool) : St BlenderContext unit :=
  λ ctx, let pg := scene_psa_import ctx in
         (Ok tt, set_psa_import ctx
                   (set_sequence_list pg
                      (alter (select_item value) sequence (sequence_list pg)))).

Definition modify_psa_import (f : PsaImportPropertyGroup → PsaImportPropertyGroup)
  : St BlenderContext unit :=
  λ ctx, (Ok tt, set_psa_import ctx (f (scene_psa_import ctx))).

(** Statements on the host data. *)
Definition on_blend_data {A} (body : St World A) : St BlenderContext A :=
  λ ctx, let '(r, w) := body (blend_data ctx) in
         (r, mkBlenderContext (scene_psa_import ctx) (view_layer_objects_active ctx)
               w (reports ctx)).

(** [try: body except Exception as e: handler(e)]; what the body changed
    before it raised stays changed. *)
Definition st_try {S A} (body : St S A) (handler : exn → St S A) : St S A :=
  λ s, match body s with
       | (Ok a, s') => (Ok a, s')
       | (Raise e, s') => handler e s'
       end.

(** The character ['\n']. *)
Definition newline : Ascii.ascii := Ascii.ascii_of_nat 10.

(** [s.split('\n')] *)
Fixpoint split_lines (s : string) : list string :=
  match s with
  | EmptyString => [EmptyString]
  | String c s' =>
    if Ascii.eqb c newline then EmptyString :: split_lines s'
    else match split_lines s' with
         | line :: lines => String c line :: lines
         | [] => [String c EmptyString]
         end
  end.

(** ** filter_sequences and get_visible_sequences *)

(** [1 << 30] *)
Definition bitflag_filter_item : Z := Z.shiftl 1 30.

(** [flt_flags[i] = f(flt_flags[i])] *)
Definition update_flag (f : Z → Z) (i : nat) (flt_flags : list Z) : result (list Z) :=
  match flt_flags !! i with
  | Some flag => Ok (<[i := f flag]> flt_flags)
  | None => Raise IndexError
  end.

(** [flag & ~bitflag_filter_item] and [flag ^ bitflag_filter_item] on
    Python's unbounded integers. *)
Definition clear_filter_item (flag : Z) : Z := Z.land flag (Z.lnot bitflag_filter_item).

Definition toggle_filter_item (flag : Z) : Z := Z.lxor flag bitflag_filter_item.

Section Panel.
Context {R : Rotate} {matching : Matching} {host : Host}.

(** [filter_sequences(pg, sequences)].  The test [pg.sequence_filter_name
    is not None] holds of every string property.  Of the exceptions of the
    [try] block the handler takes [re.error] only, which [re.compile]
    raises before the loop has changed a flag; any other exception of
    [re.compile], and any exception of [fnmatch.fnmatch] (which no handler
    surrounds), leaves the function. *)
Definition filter_sequences (pg : PsaImportPropertyGroup)
    (sequences : list PsaImportActionListItem) : result (list Z) :=
  let flt_flags := replicate (length sequences) bitflag_filter_item in
  flt_flags <-
    (if sequence_use_filter_regex pg then
       match re_compile (sequence_filter_name pg) with
       | Compiled regex =>
         for_loop (enumerate sequences)
           (λ flt_flags '(i, sequence),
              if negb (re_match regex (action_name sequence))
              then update_flag clear_filter_item i flt_flags
              else Ok flt_flags)
           flt_flags
       | ReError => Ok flt_flags
       | RaisesOther e => Raise e
       end
     else
       for_loop (enumerate sequences)
         (λ flt_flags '(i, sequence),
            matched <- fnmatch (action_name sequence)
                         ("*" +:+ sequence_filter_name pg +:+ "*") ;;
            if negb matched
            then update_flag clear_filter_item i flt_flags
            else Ok flt_flags)
         flt_flags) ;;
  flt_flags <-
    (if sequence_filter_is_selected pg then
       for_loop (enumerate sequences)
         (λ flt_flags '(i, sequence),
            if negb (is_selected sequence)
            then update_flag clear_filter_item i flt_flags
            else Ok flt_flags)
         flt_flags
     else Ok flt_flags) ;;
  flt_flags <-
    (if sequence_use_filter_invert pg then
       for_loop (enumerate sequences)
         (λ flt_flags '(i, sequence), update_flag toggle_filter_item i flt_flags)
         flt_flags
     else Ok flt_flags) ;;
  Ok flt_flags.

(** [get_visible_sequences(pg, sequences)].  The list it returns holds
    items of [sequences] themselves, which the operators then change; an
    item is referred to by its position in [sequences]. *)
Definition get_visible_sequences (pg : PsaImportPropertyGroup)
    (sequences : list PsaImportActionListItem) : result (list nat) :=
  flt_flags <- filter_sequences pg sequences ;;
  for_loop (enumerate flt_flags)
    (λ visible_sequences '(i, flag),
       if negb (Z.land flag bitflag_filter_item =? 0)%Z then
         match sequences !! i with
         | Some _ => Ok (visible_sequences ++ [i])
         | None => Raise IndexError
         end
       else Ok visible_sequences)
    [].

(** ** Operators that select sequences *)

(** [PsaImportSequencesFromText.execute].  The loop over
    [pg.sequence_list] goes through the items by position and reads each
    item as it is at that moment. *)
Definition PsaImportSequencesFromText_execute : St BlenderContext OperatorResult :=
  pg <~ get_psa_import ;;
  match select_text pg with
  | None =>
    _ <~ report ERROR_INVALID_CONTEXT "No text block selected" ;;
    st_ret CANCELLED
  | Some contents =>
    count <~
      st_for (split_lines contents)
        (λ count line,
           st_for (seq 0 (length (sequence_list pg)))
             (λ count sequence,
                item <~ sequence_item sequence ;;
                if String.eqb (action_name item) line then
                  _ <~ set_is_selected sequence true ;;
                  st_ret (count + 1)
                else st_ret count)
             count)
        0 ;;
    _ <~ report INFO ("Selected " +:+ pretty count +:+ " sequence(s)") ;;
    st_ret FINISHED
  end.

(** [any(map(lambda sequence: p(sequence), visible_sequences))]; every
    reference of [visible_sequences] has its item in the list. *)
Definition any_visible (p : PsaImportActionListItem → bool)
    (pg : PsaImportPropertyGroup) (visible_sequences : list nat) : bool :=
  existsb (λ sequence, from_option p false (sequence_list pg !! sequence))
    visible_sequences.

(** [PsaImportSequencesSelectAll.poll] *)
Definition PsaImportSequencesSelectAll_poll (ctx : BlenderContext) : result bool :=
  let pg := scene_psa_import ctx in
  visible_sequences <- get_visible_sequences pg (sequence_list pg) ;;
  let has_unselected_actions :=
    any_visible (λ action, negb (is_selected action)) pg visible_sequences in
  Ok ((0 <? length visible_sequences) && has_unselected_actions).

(** [PsaImportSequencesSelectAll.execute] *)
Definition PsaImportSequencesSelectAll_execute : St BlenderContext OperatorResult :=
  pg <~ get_psa_import ;;
  visible_sequences <~ st_lift (get_visible_sequences pg (sequence_list pg)) ;;
  _ <~ st_for visible_sequences (λ _ sequence, set_is_selected sequence true) tt ;;
  st_ret FINISHED.

(** [PsaImportSequencesDeselectAll.poll] *)
Definition PsaImportSequencesDeselectAll_poll (ctx : BlenderContext) : result bool :=
  let pg := scene_psa_import ctx in
  visible_sequences <- get_visible_sequences pg (sequence_list pg) ;;
  let has_selected_sequences :=
    any_visible (λ sequence, is_selected sequence) pg visible_sequences in
  Ok ((0 <? length visible_sequences) && has_selected_sequences).

(** [PsaImportSequencesDeselectAll.execute] *)
Definition PsaImportSequencesDeselectAll_execute : St BlenderContext OperatorResult :=
  pg <~ get_psa_import ;;
  visible_sequences <~ st_lift (get_visible_sequences pg (sequence_list pg)) ;;
  _ <~ st_for visible_sequences (λ _ sequence, set_is_selected sequence false) tt ;;
  st_ret FINISHED.

(** ** load_psa_file *)

(** [load_psa_file(context)].  [psa_reader.sequences.values()] lists the
    sequences of the dictionary.  Python lists them in the order of their
    insertion, which the map of the model does not keep: the listing here
    is in the order of that map, and no fact below depends on the
    order.  The names of the reader are kept decoded, so the decoding of
    lines 236 and 239 does not raise here; in a file with a name that
    does not decode it raises inside the [try], which leaves the lists
    filled up to that name and an error message. *)
Definition load_psa_file : St BlenderContext unit :=
  _ <~ modify_psa_import (λ pg, set_sequence_list pg []) ;;
  _ <~ modify_psa_import (λ pg, set_psa_bones pg []) ;;
  _ <~ modify_psa_import (λ pg, set_psa_error pg "") ;;
  st_try
    (pg <~ get_psa_import ;;
     let p := os_path_abspath (psa_file_path pg) in
     psa_reader <~ st_lift (PsaReader_new p) ;;
     _ <~ st_for (map_to_list (sequences psa_reader)).*2
            (λ _ sequence,
               modify_psa_import
                 (λ pg, set_sequence_list pg
                          (sequence_list pg
                           ++ [mkPsaImportActionListItem (sequence_name sequence) false])))
            tt ;;
     st_for (bones psa_reader)
       (λ _ psa_bone,
          modify_psa_import
            (λ pg, set_psa_bones pg
                     (psa_bones (psa pg)
                      ++ [mkPsaBonePropertyGroup (psa_bone_name psa_bone)])))
       tt)
    (λ e, modify_psa_import (λ pg, set_psa_error pg (exn_str e))).

(** ** The import operator *)

(** [PsaImportOperator.poll] *)
Definition PsaImportOperator_poll (ctx : BlenderContext) : bool :=
  let pg := scene_psa_import ctx in
  let active_object := view_layer_objects_active ctx in
  match active_object with
  | Some (ArmatureObj _) => existsb (λ x, is_selected x) (sequence_list pg)
  | _ => false
  end.

(** [PsaImportOperator.execute].  [import_psa] reads [armature_object.data]
    and its bones first, which an object that is no armature (or no
    object) lacks. *)
Definition PsaImportOperator_execute : St BlenderContext OperatorResult :=
  pg <~ get_psa_import ;;
  psa_reader <~ st_lift (PsaReader_new (psa_file_path pg)) ;;
  let sequence_names :=
    map action_name (filter (λ x, is_selected x = true) (sequence_list pg)) in
  let options :=
    mkPsaImportOptions (pg_should_clean_keys pg) (pg_should_use_fake_user pg)
      (pg_should_stash pg) sequence_names (pg_should_overwrite pg)
      (pg_should_write_keyframes pg) (pg_should_write_metadata pg)
      (if should_use_action_name_prefix pg then pg_action_name_prefix pg else "") in
  _ <~ (λ ctx,
          match view_layer_objects_active ctx with
          | Some (ArmatureObj armature_object) =>
            on_blend_data (import_psa psa_reader armature_object options) ctx
          | _ => (Raise AttributeError, ctx)
          end) ;;
  _ <~ report INFO ("Imported " +:+ pretty (length sequence_names) +:+ " action(s)") ;;
  st_ret FINISHED.

End Panel.

(** * Further specifications

    The closed forms and the concrete data that the facts about the panel
    and the further facts about the import are stated with. *)

Section PanelSpecification.
Context {matching : Matching}.

(** ** The filter *)

(** The name filter runs to its end on a list of sequences: with regular
    expressions, [re.compile] returns or raises [re.error]; without,
    [fnmatch] returns for the name of every sequence of the list. *)
Definition name_filter_runs (pg : PsaImportPropertyGroup)
    (sequences : list PsaImportActionListItem) : bool :=
  if sequence_use_filter_regex pg then
    match re_compile (sequence_filter_name pg) with
    | RaisesOther _ => false
    | _ => true
    end
  else
    forallb (λ sequence,
               match fnmatch (action_name sequence)
                       ("*" +:+ sequence_filter_name pg +:+ "*") with
               | Ok _ => true
               | Raise _ => false
               end)
      sequences.

(** A sequence passes the name filter; a regular expression that does not
    compile (with [re.error]) filters nothing.  The value is of use only
    where the name filter runs to its end. *)
Definition name_passes (pg : PsaImportPropertyGroup)
    (sequence : PsaImportActionListItem) : bool :=
  if sequence_use_filter_regex pg then
    match re_compile (sequence_filter_name pg) with
    | Compiled regex => re_match regex (action_name sequence)
    | _ => true
    end
  else
    match fnmatch (action_name sequence) ("*" +:+ sequence_filter_name pg +:+ "*") with
    | Ok matched => matched
    | Raise _ => true
    end.

(** A sequence is shown. *)
Definition passes_filter (pg : PsaImportPropertyGroup)
    (sequence : PsaImportActionListItem) : bool :=
  let kept :=
    name_passes pg sequence
    && (negb (sequence_filter_is_selected pg) || is_selected sequence) in
  if sequence_use_filter_invert pg then negb kept else kept.

(** The positions of the sequences that are shown. *)
Definition visible_positions (pg : PsaImportPropertyGroup)
    (sequences : list PsaImportActionListItem) : list nat :=
  (filter (λ entry, passes_filter pg entry.2 = true) (enumerate sequences)).*1.

Definition filter_flag (pg : PsaImportPropertyGroup)
    (sequence : PsaImportActionListItem) : Z :=
  if passes_filter pg sequence then bitflag_filter_item else 0%Z.

(** The items of the list after an operator has set [is_selected] of the
    shown ones. *)
Definition select_shown (value : bool) (pg : PsaImportPropertyGroup)
  : list PsaImportActionListItem :=
  map (λ item, if passes_filter pg item then select_item value item else item)
    (sequence_list pg).

End PanelSpecification.

(** ** Selecting by a text list, loading and importing *)

(** The sequences of a name, and the list after the sequences of the names
    of a text have been selected. *)
Definition count_named (line : string) (l : list PsaImportActionListItem) : nat :=
  length (filter (λ item, action_name item = line) l).

Definition select_named (lines : list string) (item : PsaImportActionListItem)
  : PsaImportActionListItem :=
  if bool_decide (action_name item ∈ lines) then select_item true item else item.

(** The property group with the lists and the error message that
    [load_psa_file] writes taken out. *)
Definition cleared (pg : PsaImportPropertyGroup) : PsaImportPropertyGroup :=
  set_psa_error (set_psa_bones (set_sequence_list pg []) []) "".

(** The options the operator hands to the import: the settings of the
    panel, the names of the selected sequences in the order of the list,
    and the prefix when the panel asks for one. *)
Definition import_options (pg : PsaImportPropertyGroup) : PsaImportOptions :=
  mkPsaImportOptions (pg_should_clean_keys pg) (pg_should_use_fake_user pg)
    (pg_should_stash pg)
    (map action_name (filter (λ x, is_selected x = true) (sequence_list pg)))
    (pg_should_overwrite pg) (pg_should_write_keyframes pg)
    (pg_should_write_metadata pg)
    (if should_use_action_name_prefix pg then pg_action_name_prefix pg else "").

(** ** The import *)

(** A name that Blender gives to a new action as it is, when no action
    has it: a name that is not empty and has at most 63 bytes.  (Blender
    names an action of an empty name "Action" and cuts a longer name;
    [unique_name] stands for its naming on the names that it keeps.) *)
Definition kept_name (name : string) : Prop :=
  0 < String.length name ≤ 63.

(** What identifies an f-curve in its action, and the seven of a bone. *)
Definition fcurve_key (fc : FCurve) : string * PoseProperty * nat :=
  (data_path fc, array_index fc).

Definition bone_keys (name : string) : list (string * PoseProperty * nat) :=
  map (λ c, (path_from_id name (channel_property c), channel_index c)) (seq 0 7).

Definition aux_key_error (e : exn) : Prop :=
  e = KeyError "orig_loc" ∨ e = KeyError "post_quat".

(** ** Further concrete data *)

(** An armature whose pelvis has the custom property [orig_quat] without
    the other two. *)
Definition half_aux_pelvis : Bone :=
  mkBone "pelvis" None (mkVec 0 0 0) (mkQuat 1 0 0 0)
    (Some (mkQuat 1 0 0 0)) None None.

Definition half_aux_armature : ArmatureObject :=
  mkArmatureObject "Armature" [half_aux_pelvis].



(** An action "Walk" with a custom property of the user. *)
Definition noted_walk : Action :=
  mkAction [] {[ "note" := PString "keep" ]} false.

Definition noted_world : World := mkWorld {[ "Walk" := noted_walk ]} None [].

(** A pattern library for the concrete runs.  A regular expression is
    kept as the text that a name has to begin with; the pattern "(" does
    not compile, and a repetition count of 2^32 is past the limit.  The
    pattern of [fnmatch] is a text between two stars, which the name has
    to hold. *)
Definition literal_matching : Matching :=
  {| Regex := string;
     re_compile pattern :=
       if String.eqb pattern "(" then ReError
       else if String.eqb pattern "a{4294967296}" then RaisesOther OverflowError
       else Compiled pattern;
     re_match regex name := String.prefix regex name;
     fnmatch name pattern :=
       let text := String.substring 1 (String.length pattern - 2) pattern in
       Ok (bool_decide (is_Some (String.index 0 text name))) |}.

(** A panel that lists three sequences, the first of them selected, with
    a filter on the names. *)
Definition filter_panel (filter_name : string) (use_regex : bool)
  : PsaImportPropertyGroup :=
  mkPsaImportPropertyGroup "walk.psa" "" (mkPsaDataPropertyGroup [] 0)
    [mkPsaImportActionListItem "Walk" true;
     mkPsaImportActionListItem "Run" false;
     mkPsaImportActionListItem "Walk_Back" false] 0
    true false false false "" false true true filter_name false false use_regex None.

(** A host that has the file "walk.psa", and a panel that has loaded it
    and has its sequence selected. *)
Definition walk_host : Host :=
  {| PsaReader_new path :=
       if String.eqb path "walk.psa" then Ok walk_reader else Raise RuntimeError;
     os_path_abspath path := path;
     exn_str _ := "cannot read the file" |}.

Definition walk_panel : PsaImportPropertyGroup :=
  mkPsaImportPropertyGroup "walk.psa" "" (mkPsaDataPropertyGroup [] 0)
    [mkPsaImportActionListItem "Walk" true] 0
    true false false false "" false true true "" false false false None.

Definition walk_context : BlenderContext :=
  mkBlenderContext walk_panel (Some (ArmatureObj two_bone_armature)) empty_world [].

(** * Facts *)

(** ** The error monad and the arrays *)

Lemma Qltb_lt (x y : Q) : Qltb x y = true ↔ (x < y)%Q.
Proof.
  unfold Qltb. rewrite negb_true_iff, <- not_true_iff_false, Qle_bool_iff.
  split; [apply Qnot_le_lt | apply Qlt_not_le].
Qed.

Lemma Qltb_ge (x y : Q) : Qltb x y = false ↔ (y <= x)%Q.
Proof. unfold Qltb. rewrite negb_false_iff. apply Qle_bool_iff. Qed.

Lemma nd_set_ok {A} (a : ndarray A) f b c v :
  f < nframes a → b < nbones a → c < nchannels a →
  ∃ a', nd_set a f b c v = Ok a'
        ∧ nframes a' = nframes a ∧ nbones a' = nbones a ∧ nchannels a' = nchannels a
        ∧ ∀ f' b' c', item a' f' b' c' =
            if (f' =? f) && (b' =? b) && (c' =? c) then v else item a f' b' c'.
Proof.
  intros Hf Hb Hc. unfold nd_set.
  apply Nat.ltb_lt in Hf, Hb, Hc. rewrite Hf, Hb, Hc. simpl.
  eexists. repeat split; reflexivity.
Qed.

Lemma length_marks_from t fi last data :
  length (marks_from t fi last data) = length data.
Proof.
  revert fi last. induction data as [|d data IH]; intros fi last;
    cbn [marks_from length]; [done|].
  destruct (_ && _); cbn [length]; by rewrite IH.
Qed.

Ltac nat_cases :=
  repeat match goal with
  | |- context [?a =? ?b] => destruct (Nat.eqb_spec a b)
  | |- context [?a <=? ?b] => destruct (Nat.leb_spec a b)
  | |- context [?a <? ?b] => destruct (Nat.ltb_spec a b)
  end; cbn [andb orb negb]; try lia.

Lemma clean_frames_ok t b c data : ∀ fi last (W : ndarray bool),
  b < nbones W → c < nchannels W → fi + length data ≤ nframes W →
  ∃ W', clean_frames t b c data fi last W = Ok W'
        ∧ nframes W' = nframes W ∧ nbones W' = nbones W ∧ nchannels W' = nchannels W
        ∧ ∀ f' b' c', item W' f' b' c' =
            item W f' b' c' &&
            (if (b' =? b) && (c' =? c) && (fi <=? f')
             then default true (marks_from t fi last data !! (f' - fi)) else true).
Proof.
  induction data as [|d data IH]; intros fi last W Hb Hc Hf;
    cbn [clean_frames marks_from length] in *.
  - exists W. split_and!; [done..|]. intros f' b' c'.
    destruct ((b' =? b) && (c' =? c) && (fi <=? f')); by rewrite ?andb_true_r.
  - destruct ((0 <? fi) && Qltb (Qabs (d - last)) t) eqn:Hskip.
    + destruct (nd_set_ok W fi b c false) as (W1 & -> & HF & HB & HC & Hitem);
        [lia|done|done|]. cbn [rbind].
      destruct (IH (S fi) last W1) as (W' & -> & HF' & HB' & HC' & Hitem');
        [lia|lia|lia|].
      exists W'. split_and!; [done|congruence..|].
      intros f' b' c'. rewrite Hitem', Hitem.
      nat_cases; rewrite ?andb_true_r; try done; subst.
      * rewrite Nat.sub_diag. by rewrite andb_false_r.
      * by replace (f' - fi) with (S (f' - S fi)) by lia.
    + destruct (IH (S fi) d W) as (W' & -> & HF' & HB' & HC' & Hitem');
        [lia|lia|lia|].
      exists W'. split_and!; [done|congruence..|].
      intros f' b' c'. rewrite Hitem'.
      nat_cases; rewrite ?andb_true_r; try done; subst.
      * by replace (f' - fi) with (S (f' - S fi)) by lia.
      * replace f' with fi by lia. by rewrite Nat.sub_diag, andb_true_r.
Qed.

(** ** Loops with an invariant *)

Lemma for_loop_inv {X T} (P : nat → T → Prop) (Q : T → Prop) (xs : list X) body s :
  P 0 s →
  (∀ i x s, xs !! i = Some x → P i s → ∃ s', body s x = Ok s' ∧ P (S i) s') →
  (∀ s', P (length xs) s' → Q s') →
  ∃ s', for_loop xs body s = Ok s' ∧ Q s'.
Proof.
  revert P s. induction xs as [|x xs IH]; intros P s H0 Hstep HQ; cbn [for_loop length] in *.
  - exists s. auto.
  - destruct (Hstep 0 x s) as (s1 & -> & H1); [done|done|]. cbn [rbind].
    apply (IH (λ i, P (S i))); [done| |done].
    intros i y s2 Hy. by apply Hstep.
Qed.

Lemma st_for_inv {U X T} (P : nat → T → U → Prop) (Q : T → U → Prop)
    (xs : list X) body t s :
  P 0 t s →
  (∀ i x t s, xs !! i = Some x → P i t s →
     ∃ t' s', body t x s = (Ok t', s') ∧ P (S i) t' s') →
  (∀ t' s', P (length xs) t' s' → Q t' s') →
  ∃ t' s', st_for xs body t s = (Ok t', s') ∧ Q t' s'.
Proof.
  revert P t s. induction xs as [|x xs IH]; intros P t s H0 Hstep HQ;
    cbn [st_for length] in *.
  - exists t, s. auto.
  - destruct (Hstep 0 x t s) as (t1 & s1 & Hb & H1); [done|done|].
    unfold st_bind at 1. rewrite Hb.
    apply (IH (λ i, P (S i))); [done| |done].
    intros i y t2 s2 Hy. by apply Hstep.
Qed.

Lemma lookup_enumerate {A} (l : list A) i :
  enumerate l !! i = (λ x, (i, x)) <$> l !! i.
Proof.
  unfold enumerate. rewrite lookup_zip_with.
  destruct (l !! i) as [x|] eqn:Hx.
  - rewrite lookup_seq_lt by (by eapply lookup_lt_Some). done.
  - rewrite lookup_seq_ge by (by apply lookup_ge_None). done.
Qed.

Lemma length_enumerate {A} (l : list A) : length (enumerate l) = length l.
Proof. unfold enumerate. rewrite length_zip_with, length_seq. lia. Qed.

(** ** The keyframe reducer *)

Lemma length_channel_data M b c : length (channel_data M b c) = nframes M.
Proof. unfold channel_data. by rewrite length_map, length_seq. Qed.

Lemma lookup_channel_data M b c f :
  f < nframes M → channel_data M b c !! f = Some (item M f b c).
Proof.
  intros Hf. unfold channel_data. rewrite list_lookup_fmap, lookup_seq_lt by done. done.
Qed.

Lemma nd_column_ok {A} (M : ndarray A) b c :
  b < nbones M → c < nchannels M →
  nd_column M b c = Ok (map (λ f, item M f b c) (seq 0 (nframes M))).
Proof.
  intros Hb Hc. unfold nd_column.
  apply Nat.ltb_lt in Hb, Hc. by rewrite Hb, Hc.
Qed.

Lemma clean_keys_ok t import_bones M (W0 : ndarray bool) :
  fits import_bones M → same_shape W0 M →
  ∃ W, clean_keys t import_bones M W0 = Ok W
       ∧ (same_shape W M
          ∧ ∀ f b c, item W f b c = item W0 f b c && clean_item t import_bones M f b c).
Proof.
  intros [Hlen Hch] (HF0 & HB0 & HC0). unfold clean_keys.
  apply (for_loop_inv (λ (k : nat) (W : ndarray bool),
    same_shape W M ∧ ∀ f b c, item W f b c =
      item W0 f b c && (if b <? k then clean_item t import_bones M f b c else true))).
  - split; [done|]. intros f b c. cbn. by rewrite andb_true_r.
  - intros k [k' ob] W. rewrite lookup_enumerate.
    destruct (import_bones !! k) as [ob'|] eqn:Hk; [|done].
    intros [= <- <-] [(HF & HB & HC) Hi].
    assert (k < length import_bones) by (by eapply lookup_lt_Some).
    destruct ob' as [ib|].
    2: { exists W. split; [done|]. split; [done|]. intros f b c. rewrite Hi.
         unfold clean_item. nat_cases; try done. replace b with k by lia.
         by rewrite Hk. }
    apply (for_loop_inv (λ (n : nat) (W' : ndarray bool),
      same_shape W' M ∧ ∀ f b c, item W' f b c =
        item W f b c && (if (b =? k) && (c <? n)
                         then default true (channel_marks t M k c !! f) else true))).
    + split; [done|]. intros f b c. rewrite andb_false_r. by rewrite andb_true_r.
    + intros n c W1 Hc [(HF1 & HB1 & HC1) Hi1].
      apply lookup_seq in Hc as [-> Hn]. cbn [plus] in *.
      specialize (Hch _ _ Hk).
      rewrite nd_column_ok by lia. cbn [rbind].
      destruct (clean_frames_ok t k n (channel_data M k n) 0 0%Q W1)
        as (W2 & HW2 & HF2 & HB2 & HC2 & Hi2); [lia|lia|..].
      { rewrite length_channel_data. lia. }
      exists W2. split; [exact HW2|]. split; [unfold same_shape; lia|].
      intros f b c. rewrite Hi2, Hi1. rewrite Nat.sub_0_r. unfold channel_marks.
      nat_cases; subst; rewrite ?andb_true_r; try done.
    + intros W' [Hs Hi']. split; [done|].
      intros f b c. rewrite Hi', Hi, length_seq. unfold clean_item.
      nat_cases; subst; rewrite ?Hk, ?andb_true_r; nat_cases; by rewrite ?andb_true_r.
  - intros W [Hs Hi]. split; [done|].
    intros f b c. rewrite Hi, length_enumerate. unfold clean_item.
    destruct (Nat.ltb_spec b (length import_bones)); [done|].
    by rewrite (proj2 (lookup_ge_None _ _)).
Qed.

Lemma nd_get_ok {A} (a : ndarray A) f b c :
  f < nframes a → b < nbones a → c < nchannels a → nd_get a f b c = Ok (item a f b c).
Proof.
  intros Hf Hb Hc. unfold nd_get.
  apply Nat.ltb_lt in Hf, Hb, Hc. by rewrite Hf, Hb, Hc.
Qed.

Lemma make_write_matrix_ok clean t import_bones M :
  fits import_bones M →
  ∃ W, make_write_matrix clean t import_bones M = Ok W
       ∧ same_shape W M
       ∧ ∀ f b c, item W f b c = if clean then clean_item t import_bones M f b c else true.
Proof.
  intros Hfit. unfold make_write_matrix. destruct clean.
  - destruct (clean_keys_ok t import_bones M (nd_ones M)) as (W & HW & Hs & Hi);
      [done|done|].
    exists W. split_and!; [done..|]. intros f b c. by rewrite Hi.
  - by exists (nd_ones M).
Qed.

Lemma lookup_channel_marks t M b c f :
  f < nframes M → ∃ m, channel_marks t M b c !! f = Some m.
Proof.
  intros Hf. apply lookup_lt_is_Some.
  unfold channel_marks. by rewrite length_marks_from, length_channel_data.
Qed.

(** The mark of a frame against the last frame marked written before it:
    either such a frame [j] exists and the mark compares with its datum, or
    no earlier frame of the pass is marked and the mark compares with the
    datum the pass started from. *)
Lemma marks_from_last_written t data : ∀ fi last k m,
  marks_from t fi last data !! k = Some m →
  ∃ dk, data !! k = Some dk ∧
    ((∃ j dj, j < k ∧ data !! j = Some dj
        ∧ marks_from t fi last data !! j = Some true
        ∧ (∀ i, j < i < k → marks_from t fi last data !! i = Some false)
        ∧ (m = false ↔ (Qabs (dk - dj) < t)%Q))
     ∨ ((∀ i, i < k → marks_from t fi last data !! i = Some false)
        ∧ (m = false ↔ 0 < fi + k ∧ (Qabs (dk - last) < t)%Q))).
Proof.
  induction data as [|d data IH]; intros fi last k m; cbn [marks_from]; [done|].
  destruct k as [|k].
  - intros Hm. exists d. split; [done|]. right. split; [lia|].
    destruct (Nat.ltb_spec 0 fi); cbn [andb] in *.
    + destruct (Qltb (Qabs (d - last)) t) eqn:E; injection Hm as <-.
      * apply Qltb_lt in E. split; [split; [lia|done]|done].
      * apply Qltb_ge in E. split; [done|]. intros [_ ?]. by apply Qle_not_lt in E.
    + injection Hm as <-. split; [done|lia].
  - destruct ((0 <? fi) && Qltb (Qabs (d - last)) t) eqn:Hskip; cbn [lookup list_lookup];
      intros Hm.
    + destruct (IH _ _ _ _ Hm) as (dk & Hdk & Hcase). exists dk. split; [done|].
      destruct Hcase as [(j & dj & Hj & Hdj & Hmj & Hbetween & Hiff)|[Hnone Hiff]].
      * left. exists (S j), dj. split_and!; [lia|done|done| |done].
        intros [|i] ?; [lia|]. apply Hbetween. lia.
      * right. split.
        -- intros [|i] ?; [done|]. apply Hnone. lia.
        -- rewrite Hiff. split; intros [? ?]; (split; [lia|done]).
    + destruct (IH _ _ _ _ Hm) as (dk & Hdk & Hcase). exists dk. split; [done|].
      left.
      destruct Hcase as [(j & dj & Hj & Hdj & Hmj & Hbetween & Hiff)|[Hnone Hiff]].
      * exists (S j), dj. split_and!; [lia|done|done| |done].
        intros [|i] ?; [lia|]. apply Hbetween. lia.
      * exists 0, d. split_and!; [lia|done|done| |].
        -- intros [|i] ?; [lia|]. apply Hnone. lia.
        -- rewrite Hiff. split; [by intros [_ ?]|]. intros ?. split; [lia|done].
Qed.

(** C1.  Keyframe cleaning, threshold 0.001: for a mapped bone [b], a
    channel [c] and a frame [i > 0], there is a last frame [j] before [i]
    that is marked written (every frame between them is marked not
    written), and frame [i] is marked not written exactly when the absolute
    difference between its value and the value of frame [j] is strictly
    below the threshold.  The value compared against is thus the one of the
    last written frame, updated whenever a frame is marked written, in one
    forward pass. *)
Theorem clean_marks_against_last_written
    (import_bones : list (option ImportBone)) (M : ndarray Q)
    (b : nat) (import_bone : ImportBone) (c i : nat) :
  fits import_bones M →
  import_bones !! b = Some (Some import_bone) →
  c < length (fcurves import_bone) →
  0 < i < nframes M →
  ∃ W, make_write_matrix true threshold_default import_bones M = Ok W
    ∧ ∃ j, j < i
        ∧ nd_get W j b c = Ok true
        ∧ (∀ k, j < k < i → nd_get W k b c = Ok false)
        ∧ (nd_get W i b c = Ok false
           ↔ (Qabs (item M i b c - item M j b c) < threshold_default)%Q).
Proof.
  intros Hfit Hb Hc Hi.
  destruct (make_write_matrix_ok true threshold_default import_bones M Hfit)
    as (W & HW & (HF & HB & HC) & Hitem).
  exists W. split; [done|].
  destruct Hfit as [Hlen Hch]. specialize (Hch _ _ Hb).
  assert (b < length import_bones) by (by eapply lookup_lt_Some).
  assert (Hmark : ∀ f, f < nframes M →
    channel_marks threshold_default M b c !! f = Some (item W f b c)).
  { intros f Hf. rewrite Hitem. unfold clean_item. rewrite Hb.
    apply Nat.ltb_lt in Hc as ->.
    by destruct (lookup_channel_marks threshold_default M b c f Hf) as [m ->]. }
  assert (Hget : ∀ f, f < nframes M → nd_get W f b c = Ok (item W f b c)).
  { intros f Hf. apply nd_get_ok; lia. }
  destruct (marks_from_last_written _ _ _ _ _ _ (Hmark i (proj2 Hi)))
    as (dk & Hdk & Hcase).
  rewrite lookup_channel_data in Hdk by lia. injection Hdk as <-.
  destruct Hcase as [(j & dj & Hj & Hdj & Hmj & Hbetween & Hiff)|[Hnone _]].
  - rewrite lookup_channel_data in Hdj by lia. injection Hdj as <-.
    exists j. split; [done|].
    fold (channel_marks threshold_default M b c) in Hmj, Hbetween.
    rewrite Hmark in Hmj by lia. injection Hmj as Hmj.
    split_and!.
    + rewrite Hget by lia. by rewrite Hmj.
    + intros k Hk. rewrite Hget by lia. specialize (Hbetween k Hk).
      rewrite Hmark in Hbetween by lia. by injection Hbetween as ->.
    + rewrite Hget by lia. rewrite <- Hiff. split; [by intros [= ->]|by intros ->].
  - specialize (Hnone 0 (proj1 Hi)). unfold channel_data in Hnone.
    destruct (nframes M) as [|n]; [lia|]. done.
Qed.

Lemma fits_sample : fits [Some sample_import_bone] sample_matrix.
Proof.
  split; [cbn; lia|]. intros [|b] ib; [|done]. intros [= <-]. cbn. lia.
Qed.

Lemma clean_marks_against_last_written_witness :
  ∃ W, make_write_matrix true threshold_default [Some sample_import_bone] sample_matrix
       = Ok W
    ∧ ∃ j, j < 2
        ∧ nd_get W j 0 4 = Ok true
        ∧ (∀ k, j < k < 2 → nd_get W k 0 4 = Ok false)
        ∧ (nd_get W 2 0 4 = Ok false
           ↔ (Qabs (item sample_matrix 2 0 4 - item sample_matrix j 0 4)
              < threshold_default)%Q).
Proof.
  apply (clean_marks_against_last_written [Some sample_import_bone] sample_matrix
           0 sample_import_bone 4 2).
  - exact fits_sample.
  - reflexivity.
  - cbn. lia.
  - cbn. lia.
Defined.

(** C2.  Frame 0 is marked written for every bone and every channel of the
    matrix, whatever the threshold (in particular any threshold at or above
    zero), the channel values, and whether cleaning is on. *)
Theorem frame_zero_always_written
    (clean : bool) (threshold : Q) (import_bones : list (option ImportBone))
    (M : ndarray Q) (b c : nat) :
  fits import_bones M →
  0 < nframes M → b < nbones M → c < nchannels M →
  ∃ W, make_write_matrix clean threshold import_bones M = Ok W
       ∧ nd_get W 0 b c = Ok true.
Proof.
  intros Hfit HF Hb Hc.
  destruct (make_write_matrix_ok clean threshold import_bones M Hfit)
    as (W & HW & (HF' & HB & HC) & Hitem).
  exists W. split; [done|]. rewrite nd_get_ok by lia. f_equal.
  rewrite Hitem. destruct clean; [|done].
  unfold clean_item. destruct (import_bones !! b) as [[ib|]|]; try done.
  destruct (c <? length (fcurves ib)); [|done].
  unfold channel_marks, channel_data.
  destruct (nframes M) as [|n]; [lia|]. done.
Qed.

Lemma frame_zero_always_written_witness :
  ∃ W, make_write_matrix true threshold_default [Some sample_import_bone] sample_matrix
       = Ok W
       ∧ nd_get W 0 0 4 = Ok true.
Proof.
  apply (frame_zero_always_written true threshold_default
           [Some sample_import_bone] sample_matrix 0 4).
  - exact fits_sample.
  - cbn. lia.
  - cbn. lia.
  - cbn. lia.
Defined.

(** ** Counting written keyframes *)

Lemma Qltb_abs_ascending (last d t : Q) :
  (last <= d)%Q → Qltb (Qabs (d - last)) t = true ↔ (d - last < t)%Q.
Proof.
  intros Hle. rewrite Qltb_lt, Qabs_pos; [done|]. lra.
Qed.

Lemma count_true_cons m l : count_true (m :: l) = (if m then 1 else 0) + count_true l.
Proof. done. Qed.

(** On ascending data, a pass with the larger threshold marks no more
    frames than a pass with the smaller one that starts from a datum at or
    below its own, and at most one more than any other pass. *)
Lemma count_marks_ascending t1 t2 data : (t1 <= t2)%Q →
  ∀ fi L1 L2, 0 < fi → ascending_from L1 data → ascending_from L2 data →
    ((L1 <= L2)%Q →
       count_true (marks_from t2 fi L2 data) ≤ count_true (marks_from t1 fi L1 data))
    ∧ count_true (marks_from t2 fi L2 data) ≤ S (count_true (marks_from t1 fi L1 data)).
Proof.
  intros Ht. induction data as [|d data IH]; intros fi L1 L2 Hfi H1 H2;
    cbn [marks_from]; [split; cbn; lia|].
  destruct H1 as [Hd1 Hasc], H2 as [Hd2 _].
  apply Nat.ltb_lt in Hfi as Hfi'. rewrite Hfi'. cbn [andb].
  assert (0 < S fi) as HS by lia.
  assert (d <= d)%Q as Hdd by lra.
  pose proof (IH (S fi) d d HS Hasc Hasc) as [IHdd _].
  destruct (Qltb (Qabs (d - L2)) t2) eqn:E2, (Qltb (Qabs (d - L1)) t1) eqn:E1;
    rewrite !count_true_cons.
  - assert (ascending_from L1 data ∧ ascending_from L2 data) as [A1 A2].
    { destruct data as [|d' data]; [done|]. destruct Hasc as [? ?].
      split; (split; [lra|done]). }
    destruct (IH (S fi) L1 L2 HS A1 A2) as [IHa IHb]. split; [|lia].
    intros HL. specialize (IHa HL). lia.
  - assert (ascending_from L2 data) as A2.
    { destruct data as [|d' data]; [done|]. destruct Hasc as [? ?]. split; [lra|done]. }
    destruct (IH (S fi) d L2 HS Hasc A2) as [_ IHb]. split; [intros _|]; lia.
  - assert (ascending_from L1 data) as A1.
    { destruct data as [|d' data]; [done|]. destruct Hasc as [? ?]. split; [lra|done]. }
    destruct (IH (S fi) L1 d HS A1 Hasc) as [IHa _]. specialize (IHa Hd1).
    split; [|lia]. intros HL.
    apply Qltb_abs_ascending in E1; [|done].
    apply not_true_iff_false in E2. rewrite Qltb_abs_ascending in E2 by done.
    exfalso. apply E2. lra.
  - specialize (IHdd Hdd). split; [intros _|]; lia.
Qed.

Lemma marks_from_opp t data : ∀ fi last,
  marks_from t fi (- last)%Q (map Qopp data) = marks_from t fi last data.
Proof.
  induction data as [|d data IH]; intros fi last; cbn [marks_from map]; [done|].
  assert (Qltb (Qabs (- d - - last)%Q) t = Qltb (Qabs (d - last)) t) as ->.
  { unfold Qltb. f_equal. apply Qleb_comp; [done|].
    rewrite <- (Qabs_opp (d - last)). apply Qabs_wd. ring. }
  destruct (_ && _); by rewrite IH.
Qed.

Lemma marks_from_frame_zero t last data :
  marks_from t 0 last data =
  match data with
  | [] => []
  | d :: rest => true :: marks_from t 1 d rest
  end.
Proof. by destruct data. Qed.

Lemma ascending_from_lookup d data :
  (∀ i x y, (d :: data) !! i = Some x → (d :: data) !! S i = Some y → (x <= y)%Q) →
  ascending_from d data.
Proof.
  revert d. induction data as [|d' data IH]; intros d Hstep; [done|].
  split; [by apply (Hstep 0)|].
  apply IH. intros i x y Hx Hy. by apply (Hstep (S i)).
Qed.

(** A monotone channel: the pass with the larger threshold marks no more
    frames. *)
Lemma count_marks_monotone t1 t2 data : (t1 <= t2)%Q →
  (∀ i x y, data !! i = Some x → data !! S i = Some y → (x <= y)%Q)
  ∨ (∀ i x y, data !! i = Some x → data !! S i = Some y → (y <= x)%Q) →
  count_true (marks_from t2 0 0%Q data) ≤ count_true (marks_from t1 0 0%Q data).
Proof.
  intros Ht [Hup|Hdown].
  - rewrite !marks_from_frame_zero. destruct data as [|d data]; [done|].
    rewrite !count_true_cons. apply ascending_from_lookup in Hup.
    destruct (count_marks_ascending t1 t2 data Ht 1 d d) as [H _]; [lia|done|done|].
    assert (d <= d)%Q by lra. specialize (H ltac:(done)). lia.
  - rewrite <- (marks_from_opp t2), <- (marks_from_opp t1).
    rewrite !marks_from_frame_zero. destruct data as [|d data]; [done|].
    cbn [map]. rewrite !count_true_cons.
    assert (ascending_from (- d)%Q (map Qopp data)) as Hasc.
    { apply ascending_from_lookup. intros i x y.
      change ((- d)%Q :: map Qopp data) with (map Qopp (d :: data)).
      rewrite !list_lookup_fmap.
      destruct ((d :: data) !! i) as [x'|] eqn:Hx; [|done].
      destruct ((d :: data) !! S i) as [y'|] eqn:Hy; [|done].
      intros [= <-] [= <-]. specialize (Hdown _ _ _ Hx Hy). lra. }
    destruct (count_marks_ascending t1 t2 (map Qopp data) Ht 1 (- d)%Q (- d)%Q) as [H _];
      [lia|done|done|].
    assert (- d <= - d)%Q by lra. specialize (H ltac:(done)). lia.
Qed.

Lemma sum_list_map_le {A} (f g : A → nat) (l : list A) :
  (∀ x, x ∈ l → f x ≤ g x) → sum_list (map f l) ≤ sum_list (map g l).
Proof.
  induction l as [|x l IH]; intros H; [done|].
  pose proof (H x ltac:(left)).
  assert (sum_list (map f l) ≤ sum_list (map g l)); [|cbn in *; lia].
  apply IH. intros y Hy. apply H. by right.
Qed.

Lemma map_lookup_default {A} (d : A) (l : list A) :
  map (λ i, default d (l !! i)) (seq 0 (length l)) = l.
Proof.
  apply list_eq. intros i. rewrite list_lookup_fmap.
  destruct (l !! i) as [x|] eqn:Hx.
  - rewrite lookup_seq_lt by (by eapply lookup_lt_Some). cbn. by rewrite Hx.
  - rewrite lookup_seq_ge by (by apply lookup_ge_None). done.
Qed.

Lemma count_true_all_true (g : nat → bool) k n :
  (∀ f, g f = true) → count_true (map g (seq k n)) = n.
Proof.
  intros Hg. revert k. induction n as [|n IH]; intros k; [done|].
  cbn [seq map]. by rewrite count_true_cons, IH, Hg.
Qed.

Lemma written_in_channel_cleaned t import_bones M W b c :
  same_shape W M →
  (∀ f b c, item W f b c = clean_item t import_bones M f b c) →
  written_in_channel W b c =
  match import_bones !! b with
  | Some (Some import_bone) =>
    if c <? length (fcurves import_bone)
    then count_true (channel_marks t M b c) else nframes M
  | _ => nframes M
  end.
Proof.
  intros (HF & _ & _) Hitem. unfold written_in_channel. rewrite HF.
  pose proof (λ g H, count_true_all_true g 0 (nframes M) H) as Htrue.
  unfold clean_item in Hitem.
  destruct (import_bones !! b) as [[ib|]|] eqn:Hb.
  - destruct (c <? length (fcurves ib)) eqn:Hc.
    + f_equal. rewrite <- (map_lookup_default true (channel_marks t M b c)) at 1.
      unfold channel_marks at 2. rewrite length_marks_from, length_channel_data.
      apply map_ext. intros f. by rewrite Hitem, Hb, Hc.
    + apply Htrue. intros f. by rewrite Hitem, Hb, Hc.
  - apply Htrue. intros f. by rewrite Hitem, Hb.
  - apply Htrue. intros f. by rewrite Hitem, Hb.
Qed.

(** C8, as stated, fails: on the channel 0, 1/1000, 1/600, 1/3000, 1/600,
    1/3000 the threshold 1/1000 writes 2 frames (8 entries of the matrix
    with the six constant channels) and the larger threshold 1/750 writes 5
    (11 entries). *)
Lemma threshold_monotonicity_fails :
  (1 # 1000 <= 1 # 750)%Q
  ∧ written_of (make_write_matrix true (1 # 1000) [Some sample_import_bone] zigzag_matrix)
    = Some 8
  ∧ written_of (make_write_matrix true (1 # 750) [Some sample_import_bone] zigzag_matrix)
    = Some 11.
Proof. split; [by vm_compute|]. split; vm_compute; reflexivity. Qed.

(** C8, amended.  For a data matrix in which every channel of every mapped
    bone is monotone over the frames, the reducer with a larger threshold
    marks no more entries written than with a smaller one. *)
Theorem threshold_monotone_on_monotone_channels
    (import_bones : list (option ImportBone)) (M : ndarray Q) (t1 t2 : Q) :
  fits import_bones M →
  (t1 <= t2)%Q →
  (∀ b import_bone c, import_bones !! b = Some (Some import_bone) →
     c < length (fcurves import_bone) → monotone_channel M b c) →
  ∃ W1 W2, make_write_matrix true t1 import_bones M = Ok W1
         ∧ make_write_matrix true t2 import_bones M = Ok W2
         ∧ written_count W2 ≤ written_count W1.
Proof.
  intros Hfit Ht Hmono.
  destruct (make_write_matrix_ok true t1 import_bones M Hfit) as (W1 & HW1 & Hs1 & Hi1).
  destruct (make_write_matrix_ok true t2 import_bones M Hfit) as (W2 & HW2 & Hs2 & Hi2).
  exists W1, W2. split_and!; [done..|].
  unfold written_count.
  destruct Hs1 as (HF1 & HB1 & HC1) eqn:E1, Hs2 as (HF2 & HB2 & HC2) eqn:E2.
  rewrite HB1, HB2, HC1, HC2.
  apply sum_list_map_le. intros b _. apply sum_list_map_le. intros c _.
  rewrite (written_in_channel_cleaned t1 import_bones M W1) by done.
  rewrite (written_in_channel_cleaned t2 import_bones M W2) by done.
  destruct (import_bones !! b) as [[ib|]|] eqn:Hb; [|done..].
  destruct (Nat.ltb_spec c (length (fcurves ib))); [|done].
  apply count_marks_monotone; [done|].
  assert (∀ i x y, channel_data M b c !! i = Some x → channel_data M b c !! S i = Some y →
            S i < nframes M ∧ x = item M i b c ∧ y = item M (S i) b c) as Hlk.
  { intros i x y Hx Hy.
    assert (S i < nframes M).
    { apply lookup_lt_Some in Hy. by rewrite length_channel_data in Hy. }
    rewrite lookup_channel_data in Hx, Hy by lia. by simplify_eq. }
  destruct (Hmono b ib c Hb ltac:(done)) as [Hup|Hdown]; [left|right];
    intros i x y Hx Hy; destruct (Hlk i x y Hx Hy) as (? & -> & ->); auto.
Qed.

Lemma sample_matrix_monotone b import_bone c :
  [Some sample_import_bone] !! b = Some (Some import_bone) →
  c < length (fcurves import_bone) → monotone_channel sample_matrix b c.
Proof.
  destruct b as [|b]; [|done]. intros [= <-] Hc. left. intros f Hf.
  cbn in Hf, Hc.
  do 2 (destruct f as [|f]; [do 7 (destruct c as [|c]; [by vm_compute|]); lia|]).
  lia.
Qed.

Lemma threshold_monotone_on_monotone_channels_witness :
  ∃ W1 W2,
    make_write_matrix true (1 # 1000) [Some sample_import_bone] sample_matrix = Ok W1
    ∧ make_write_matrix true (1 # 750) [Some sample_import_bone] sample_matrix = Ok W2
    ∧ written_count W2 ≤ written_count W1.
Proof.
  apply (threshold_monotone_on_monotone_channels
           [Some sample_import_bone] sample_matrix (1 # 1000) (1 # 750)).
  - exact fits_sample.
  - by vm_compute.
  - exact sample_matrix_monotone.
Defined.

(** ** The bone-space converter *)

Section ConverterFacts.
Context {R : Rotate}.



Lemma index_of_is_Some x l : is_Some (index_of x l) ↔ x ∈ l.
Proof.
  induction l as [|y l IH]; cbn [index_of].
  - split; [by intros [? ?]|by intros ?%elem_of_nil].
  - rewrite elem_of_cons. case_bool_decide; subst.
    + split; [by left|by eexists].
    + rewrite fmap_is_Some, IH. naive_solver.
Qed.

Lemma elem_of_build_bone_indices names psa_bones i :
  i ∈ (build_bone_indices names psa_bones).*1
  ↔ ∃ b, psa_bones !! i = Some b ∧ psa_bone_name b ∈ names.
Proof.
  unfold build_bone_indices. rewrite list_elem_of_fmap. split.
  - intros ([i' j] & -> & Hin). apply list_elem_of_omap in Hin as ([k b] & Hkb & Hf).
    apply list_elem_of_lookup in Hkb as [n Hn]. rewrite lookup_enumerate in Hn.
    destruct (psa_bones !! n) as [b'|] eqn:Hb; [|done]. injection Hn as <- <-.
    destruct (index_of (psa_bone_name b') names) eqn:Hidx; [|done].
    injection Hf as <- <-. exists b'. split; [done|].
    apply index_of_is_Some. by eexists.
  - intros (b & Hb & Hin). apply index_of_is_Some in Hin as [j Hj].
    exists (i, j). split; [done|]. apply list_elem_of_omap. exists (i, b). split.
    + apply list_elem_of_lookup. exists i. by rewrite lookup_enumerate, Hb.
    + cbn. by rewrite Hj.
Qed.

Lemma map_result_ok {X Y} (f : X → result Y) (xs : list X) :
  (∀ i x, xs !! i = Some x → ∃ y, f x = Ok y) →
  ∃ ys, map_result f xs = Ok ys ∧ length ys = length xs
        ∧ ∀ i x, xs !! i = Some x → ∃ y, ys !! i = Some y ∧ f x = Ok y.
Proof.
  induction xs as [|x xs IH]; intros Hok; cbn [map_result].
  - by exists [].
  - destruct (Hok 0 x) as [y Hy]; [done|]. rewrite Hy. cbn [rbind].
    destruct IH as (ys & -> & Hlen & Hys).
    { intros i x' Hx'. by apply (Hok (S i)). }
    exists (y :: ys). cbn [rbind length]. split_and!; [done|by rewrite Hlen|].
    intros [|i] x' Hx'.
    + injection Hx' as <-. by exists y.
    + by apply Hys.
Qed.

Lemma find_bone_Some name l b :
  find_bone name l = Some b → b ∈ l ∧ bone_name b = name.
Proof.
  unfold find_bone. intros Hf. apply fmap_Some in Hf as ([i b'] & Hf & ->).
  apply list_find_Some in Hf as (Hi & Hn & _). split; [|done].
  by eapply list_elem_of_lookup_2.
Qed.

Lemma find_bone_is_Some name l :
  name ∈ map bone_name l → is_Some (find_bone name l).
Proof.
  intros Hin. apply list_elem_of_fmap in Hin as (b & -> & Hb).
  unfold find_bone. apply fmap_is_Some.
  destruct (list_find (λ b0, bone_name b0 = bone_name b) l) as [r|] eqn:E; [by eexists|].
  apply list_find_None in E. rewrite Forall_forall in E. by destruct (E b Hb).
Qed.

Lemma import_bones_dict_is_Some (import_bones : list (option ImportBone)) i b :
  import_bones !! i = Some (Some b) →
  is_Some (make_import_bones_dict import_bones !! psa_bone_name (psa_bone b)).
Proof.
  unfold make_import_bones_dict, enumerate. generalize (∅ : gmap string nat).
  generalize 0. revert i.
  induction import_bones as [|ob l IH]; intros i k d Hi; [done|].
  cbn [length seq zip zip_with foldl].
  assert (∀ l' k' (d' : gmap string nat) n, is_Some (d' !! n) →
    is_Some (foldl (λ d entry,
           match entry with
           | (i, Some import_bone) => <[psa_bone_name (psa_bone import_bone) := i]> d
           | (_, None) => d
           end) d' (zip (seq k' (length l')) l') !! n)) as Hkeep.
  { clear. induction l' as [|ob l' IH]; intros k' d' n Hn; [done|].
    cbn [length seq zip zip_with foldl]. apply IH. destruct ob as [b'|]; [|done].
    destruct (decide (psa_bone_name (psa_bone b') = n)) as [->|Hne].
    - rewrite lookup_insert_eq. by eexists.
    - by rewrite lookup_insert_ne. }
  destruct i as [|i].
  - injection Hi as ->. apply Hkeep. rewrite lookup_insert_eq. by eexists.
  - by apply (IH i).
Qed.

Lemma calculate_orig_ok (import_bone : ImportBone) :
  (is_Some (prop_orig_quat (armature_bone import_bone)) →
     is_Some (prop_orig_loc (armature_bone import_bone))
     ∧ is_Some (prop_post_quat (armature_bone import_bone))) →
  (is_Some (parent import_bone) → is_Some (bone_parent (armature_bone import_bone))) →
  ∃ b, calculate_orig import_bone = Ok b.
Proof.
  intros Haux Hpar. unfold calculate_orig.
  destruct (prop_orig_quat (armature_bone import_bone)) as [q|].
  - destruct Haux as [[l ->] [p ->]]; [by eexists|]. by eexists.
  - destruct (parent import_bone) as [i|]; [|by eexists].
    destruct Hpar as [p ->]; [by eexists|]. by eexists.
Qed.

Lemma prepare_import_bones_ok (psa_reader : PsaReader) (armature_object : ArmatureObject) :
  wf_armature armature_object →
  let armature_bone_names := map bone_name (armature_bones armature_object) in
  let psa_bone_names := map psa_bone_name (bones psa_reader) in
  ∃ import_bones,
    prepare_import_bones psa_reader armature_object = Ok import_bones
    ∧ length import_bones = length (bones psa_reader)
    ∧ ∀ i pb, bones psa_reader !! i = Some pb →
        (psa_bone_name pb ∉ armature_bone_names → import_bones !! i = Some None)
        ∧ (psa_bone_name pb ∈ armature_bone_names →
           ∃ ab p b,
             find_bone (psa_bone_name pb) (armature_bones armature_object) = Some ab
             ∧ (is_Some p ↔ is_Some (mapped_parent psa_bone_names ab))
             ∧ calculate_orig
                 (mkImportBone pb p ab (psa_bone_name pb)
                    vec_zero quat_identity quat_identity []) = Ok b
             ∧ import_bones !! i = Some (Some b)).
Proof.
  intros Hwf names psa_names. unfold prepare_import_bones.
  fold names. fold psa_names.
  set (indices := build_bone_indices names (bones psa_reader)).
  (* the first loop *)
  destruct (map_result_ok (make_import_bone armature_object indices)
              (enumerate (bones psa_reader))) as (l0 & -> & Hlen0 & Hl0).
  { intros i [i' pb]. rewrite lookup_enumerate.
    destruct (bones psa_reader !! i) as [pb'|] eqn:Hpb; [|done]. intros [= <- <-].
    unfold make_import_bone. case_bool_decide as Hin; [|by eexists].
    apply elem_of_build_bone_indices in Hin as (b' & Hb' & Hn). simplify_eq.
    destruct (find_bone_is_Some _ _ Hn) as [ab ->]. by eexists. }
  rewrite length_enumerate in Hlen0. cbn [rbind].
  assert (∀ i pb, bones psa_reader !! i = Some pb →
    (psa_bone_name pb ∉ names → l0 !! i = Some None)
    ∧ (psa_bone_name pb ∈ names →
       ∃ ab, find_bone (psa_bone_name pb) (armature_bones armature_object) = Some ab
         ∧ l0 !! i = Some (Some (mkImportBone pb None ab (psa_bone_name pb)
                                   vec_zero quat_identity quat_identity [])))) as Hfirst.
  { intros i pb Hpb. destruct (Hl0 i (i, pb)) as (y & Hy & Hmk).
    { by rewrite lookup_enumerate, Hpb. }
    unfold make_import_bone in Hmk. split; intros Hn.
    - case_bool_decide as Hin; [|by simplify_eq].
      apply elem_of_build_bone_indices in Hin as (b' & Hb' & Hn'). by simplify_eq.
    - case_bool_decide as Hin.
      + destruct (find_bone_is_Some _ _ Hn) as [ab Hab]. rewrite Hab in Hmk.
        exists ab. by simplify_eq.
      + exfalso. apply Hin. apply elem_of_build_bone_indices. by exists pb. }
  (* the second loop *)
  assert (∀ b0, Some b0 ∈ l0 →
    ∃ i pb ab, bones psa_reader !! i = Some pb
      ∧ find_bone (psa_bone_name pb) (armature_bones armature_object) = Some ab
      ∧ b0 = mkImportBone pb None ab (psa_bone_name pb)
               vec_zero quat_identity quat_identity []) as Hshape.
  { intros b0 Hin. apply list_elem_of_lookup in Hin as [i Hi].
    assert (i < length (bones psa_reader)) as Hlt.
    { rewrite <- Hlen0. by eapply lookup_lt_Some. }
    apply lookup_lt_is_Some in Hlt as [pb Hpb].
    destruct (Hfirst i pb Hpb) as [Hno Hyes].
    destruct (decide (psa_bone_name pb ∈ names)) as [Hn|Hn].
    - destruct (Hyes Hn) as (ab & Hab & Hi'). exists i, pb, ab. by simplify_eq.
    - specialize (Hno Hn). by simplify_eq. }
  assert (∀ b0, Some b0 ∈ l0 →
    ∃ p b, (is_Some p ↔ is_Some (mapped_parent psa_names (armature_bone b0)))
      ∧ calculate_orig (set_parent b0 p) = Ok b
      ∧ link_import_bone psa_names (make_import_bones_dict l0) b0 = Ok b) as Hlink.
  { intros b0 Hin. destruct (Hshape b0 Hin) as (i & pb & ab & Hpb & Hab & ->).
    apply find_bone_Some in Hab as [Hab _]. destruct (Hwf ab Hab) as [Hpar Haux].
    unfold link_import_bone, mapped_parent. cbn [armature_bone].
    destruct (bone_parent ab) as [ap|] eqn:Hap.
    - case_bool_decide as Hpsa.
      + assert (is_Some (make_import_bones_dict l0 !! bone_name ap)) as [j Hj].
        { unfold psa_names in Hpsa. apply list_elem_of_fmap in Hpsa as (pb' & Hname & Hpb').
          apply list_elem_of_lookup in Hpb' as [k Hk].
          destruct (Hfirst k pb' Hk) as [_ Hyes].
          destruct Hyes as (ab' & _ & Hk'). { rewrite <- Hname. by apply Hpar. }
          rewrite Hname. by apply (import_bones_dict_is_Some l0 k _ Hk'). }
        rewrite Hj. cbn [rbind].
        destruct (calculate_orig_ok
                    (set_parent (mkImportBone pb None ab (psa_bone_name pb)
                                   vec_zero quat_identity quat_identity []) (Some j)))
          as [b Hb]; [done|intros _; cbn; by rewrite Hap|].
        exists (Some j), b. split_and!; [|done|done]. split; by eexists.
      + cbn [rbind].
        destruct (calculate_orig_ok
                    (mkImportBone pb None ab (psa_bone_name pb)
                       vec_zero quat_identity quat_identity []))
          as [b Hb]; [done|by intros [? ?]|].
        exists None, b. split_and!; [|done|done]. split; by intros [? ?].
    - cbn [rbind].
      destruct (calculate_orig_ok
                  (mkImportBone pb None ab (psa_bone_name pb)
                     vec_zero quat_identity quat_identity []))
        as [b Hb]; [done|by intros [? ?]|].
      exists None, b. split_and!; [|done|done]. split; by intros [? ?]. }
  unfold link_import_bones.
  destruct (map_result_ok
    (λ entry, match entry with
              | Some import_bone =>
                b <- link_import_bone psa_names (make_import_bones_dict l0) import_bone ;;
                Ok (Some b)
              | None => Ok None
              end) l0) as (l1 & -> & Hlen1 & Hl1).
  { intros i [b0|] Hi; [|by eexists].
    destruct (Hlink b0) as (p & b & _ & _ & ->); [by eapply list_elem_of_lookup_2|].
    by eexists. }
  exists l1. split_and!; [done|congruence|].
  intros i pb Hpb. destruct (Hfirst i pb Hpb) as [Hno Hyes]. split; intros Hn.
  - destruct (Hl1 i None (Hno Hn)) as (y & Hy & Hf). by simplify_eq.
  - destruct (Hyes Hn) as (ab & Hab & Hi).
    destruct (Hl1 i _ Hi) as (y & Hy & Hf).
    destruct (Hlink _ (list_elem_of_lookup_2 _ _ _ Hi)) as (p & b & Hp & Hb & Hlk).
    rewrite Hlk in Hf. cbn [rbind] in Hf. injection Hf as <-.
    exists ab, p, b. by split_and!.
Qed.

(** C4, amended.  For every PSA bone whose name the armature has, the import
    bone of that armature bone holds: with the custom property [orig_quat]
    on the bone, the three custom properties; without it, the bone's own
    rest translation and rotation when it has no PSA-mapped parent, and
    with a PSA-mapped parent the difference of the rest translations
    rotated by the conjugate of the parent's rest rotation, and the
    conjugate of the bone's rest rotation rotated by the conjugate of the
    parent's rest rotation; and, without the property, a post rotation that
    is the conjugate of the orig rotation. *)
Theorem import_bone_rest_transforms
    (psa_reader : PsaReader) (armature_object : ArmatureObject) :
  wf_armature armature_object →
  let armature_bone_names := map bone_name (armature_bones armature_object) in
  let psa_bone_names := map psa_bone_name (bones psa_reader) in
  ∃ import_bones,
    prepare_import_bones psa_reader armature_object = Ok import_bones
    ∧ ∀ i pb, bones psa_reader !! i = Some pb →
        psa_bone_name pb ∈ armature_bone_names →
        ∃ ab b,
          find_bone (psa_bone_name pb) (armature_bones armature_object) = Some ab
          ∧ import_bones !! i = Some (Some b)
          ∧ match prop_orig_quat ab with
            | Some q =>
              orig_quat b = q
              ∧ prop_orig_loc ab = Some (orig_loc b)
              ∧ prop_post_quat ab = Some (post_quat b)
            | None =>
              match mapped_parent psa_bone_names ab with
              | Some ap =>
                orig_loc b =
                  vec_rotate (vec_sub (matrix_local_translation ab)
                                      (matrix_local_translation ap))
                             (conjugated (matrix_local_quaternion ap))
                ∧ orig_quat b =
                  conjugated (quat_rotate (matrix_local_quaternion ab)
                                (conjugated (matrix_local_quaternion ap)))
              | None =>
                orig_loc b = matrix_local_translation ab
                ∧ orig_quat b = matrix_local_quaternion ab
              end
              ∧ post_quat b = conjugated (orig_quat b)
            end.
Proof.
  intros Hwf names psa_names.
  destruct (prepare_import_bones_ok psa_reader armature_object Hwf)
    as (l & Hl & _ & Hpoint).
  exists l. split; [done|]. intros i pb Hpb Hn.
  destruct (Hpoint i pb Hpb) as [_ Hyes].
  destruct (Hyes Hn) as (ab & p & b & Hab & Hp & Hcalc & Hi).
  exists ab, b. split_and!; [done..|].
  unfold calculate_orig in Hcalc. cbn [armature_bone parent] in Hcalc.
  fold psa_names in Hp. unfold mapped_parent in *.
  destruct (prop_orig_quat ab) as [q|].
  - destruct (prop_orig_loc ab) as [lo|], (prop_post_quat ab) as [po|];
      try done. by injection Hcalc as <-.
  - destruct p as [j|].
    + destruct (bone_parent ab) as [ap|]; [|done].
      case_bool_decide.
      * by injection Hcalc as <-.
      * destruct Hp as [Hp _]. by destruct Hp as [? ?]; [eexists|].
    + destruct (bone_parent ab) as [ap|].
      * case_bool_decide.
        -- destruct Hp as [_ Hp]. by destruct Hp as [? ?]; [eexists|].
        -- by injection Hcalc as <-.
      * by injection Hcalc as <-.
Qed.

End ConverterFacts.

(** C4, as stated, fails on this armature under the Hamilton product: the
    root carries the custom properties, so its orig rotation is not its
    rest rotation and its post rotation is not the conjugate of its orig
    rotation; the child's orig rotation is the conjugate of its rest
    rotation composed with the parent's inverse rest rotation, not that
    composition itself. *)
Lemma rest_transforms_as_stated_fail :
  let r := prepare_import_bones (R := hamilton)
             (two_bone_reader sample_matrix) two_bone_armature in
  (λ b, quat_eqb (orig_quat b) (matrix_local_quaternion aux_pelvis))
    <$> import_bone_at r 0 = Some false
  ∧ (λ b, quat_eqb (post_quat b) (conjugated (orig_quat b)))
    <$> import_bone_at r 0 = Some false
  ∧ (λ b, quat_eqb (orig_quat b)
            (quat_rotate (Rotate := hamilton) (matrix_local_quaternion plain_spine)
               (conjugated (matrix_local_quaternion aux_pelvis))))
    <$> import_bone_at r 1 = Some false.
Proof. by vm_compute. Qed.

Lemma wf_two_bone_armature : wf_armature two_bone_armature.
Proof.
  intros b Hb. cbn in Hb.
  apply elem_of_cons in Hb as [->|Hb]; [|apply elem_of_cons in Hb as [->|Hb]].
  - split; [done|]. intros _. split; by eexists.
  - split; [|by intros [? ?]]. intros p [= <-]. cbn. set_solver.
  - by apply elem_of_nil in Hb.
Qed.

Lemma import_bone_rest_transforms_witness :
  ∃ import_bones,
    prepare_import_bones (R := hamilton) (two_bone_reader sample_matrix)
      two_bone_armature = Ok import_bones
    ∧ ∀ i pb, bones (two_bone_reader sample_matrix) !! i = Some pb →
        psa_bone_name pb ∈ map bone_name (armature_bones two_bone_armature) →
        ∃ ab b,
          find_bone (psa_bone_name pb) (armature_bones two_bone_armature) = Some ab
          ∧ import_bones !! i = Some (Some b)
          ∧ match prop_orig_quat ab with
            | Some q =>
              orig_quat b = q
              ∧ prop_orig_loc ab = Some (orig_loc b)
              ∧ prop_post_quat ab = Some (post_quat b)
            | None =>
              match mapped_parent
                      (map psa_bone_name (bones (two_bone_reader sample_matrix))) ab with
              | Some ap =>
                orig_loc b =
                  vec_rotate (Rotate := hamilton)
                    (vec_sub (matrix_local_translation ab)
                             (matrix_local_translation ap))
                    (conjugated (matrix_local_quaternion ap))
                ∧ orig_quat b =
                  conjugated (quat_rotate (Rotate := hamilton)
                                (matrix_local_quaternion ab)
                                (conjugated (matrix_local_quaternion ap)))
              | None =>
                orig_loc b = matrix_local_translation ab
                ∧ orig_quat b = matrix_local_quaternion ab
              end
              ∧ post_quat b = conjugated (orig_quat b)
            end.
Proof.
  apply (import_bone_rest_transforms (R := hamilton)
           (two_bone_reader sample_matrix) two_bone_armature).
  exact wf_two_bone_armature.
Defined.

(** ** Blender data *)

Lemma remove_fcurves_all (fcs : list FCurve) : remove_fcurves (length fcs) fcs = [].
Proof.
  remember (length fcs) as n eqn:Hn. revert fcs Hn.
  induction n as [|n IH]; intros fcs Hn.
  - by destruct fcs.
  - destruct fcs as [|fc fcs]; [done|]. cbn [remove_fcurves]. apply IH.
    rewrite removelast_firstn_len, length_take. cbn in *. lia.
Qed.

Lemma numbered_name_fresh fuel k name (m : gmap string Action) :
  m !! numbered_name fuel k name m = None.
Proof.
  revert k. induction fuel as [|fuel IH]; intros k; cbn [numbered_name].
  - apply fresh_string_fresh.
  - destruct (m !! (name +:+ "." +:+ pad3 k)) eqn:E; [apply IH|done].
Qed.

Lemma unique_name_fresh name (m : gmap string Action) : m !! unique_name name m = None.
Proof.
  unfold unique_name. destruct (m !! name) eqn:E; [|done]. apply numbered_name_fresh.
Qed.

Lemma unique_name_free name (m : gmap string Action) :
  m !! name = None → unique_name name m = name.
Proof. unfold unique_name. by intros ->. Qed.

(** ** The f-curves of an imported action *)

Lemma length_bone_fcurves name points : length (bone_fcurves name points) = 7.
Proof. done. Qed.

Lemma fcurves_new_ok path index g (a : Action) :
  existsb (fcurve_is path index) (action_fcurves a) = false →
  fcurves_new path index g a
  = (Ok (length (action_fcurves a)),
     set_fcurves a (action_fcurves a ++ [mkFCurve path index g []])).
Proof. unfold fcurves_new. by intros ->. Qed.

Lemma existsb_false {A} (p : A → bool) (l : list A) :
  existsb p l = false ↔ ∀ x, x ∈ l → p x = false.
Proof.
  induction l as [|y l IH]; cbn [existsb].
  - split; [by intros _ x ?%elem_of_nil|done].
  - rewrite orb_false_iff, IH. setoid_rewrite elem_of_cons. naive_solver.
Qed.

Lemma fcurve_is_other_bone name p index (fc : FCurve) :
  (data_path fc).1 ≠ name → fcurve_is (name, p) index fc = false.
Proof.
  intros Hne. unfold fcurve_is. case_bool_decide as E; [|done].
  rewrite E in Hne. done.
Qed.

(** The seven calls of line 143 on an action that has no f-curve of the
    pose bone yet. *)
Lemma create_bone_fcurves_ok name (a : Action) :
  (∀ fc, fc ∈ action_fcurves a → (data_path fc).1 ≠ name) →
  let n := length (action_fcurves a) in
  (f0 <~ fcurves_new (path_from_id name rotation_quaternion) 0 name ;;
   f1 <~ fcurves_new (path_from_id name rotation_quaternion) 1 name ;;
   f2 <~ fcurves_new (path_from_id name rotation_quaternion) 2 name ;;
   f3 <~ fcurves_new (path_from_id name rotation_quaternion) 3 name ;;
   f4 <~ fcurves_new (path_from_id name location) 0 name ;;
   f5 <~ fcurves_new (path_from_id name location) 1 name ;;
   f6 <~ fcurves_new (path_from_id name location) 2 name ;;
   st_ret [f0; f1; f2; f3; f4; f5; f6]) a
  = (Ok (map (λ c, n + c) (seq 0 7)),
     set_fcurves a (action_fcurves a ++ bone_fcurves name (λ _, []))).
Proof.
  intros Hother n.
  assert (∀ p index (block : list FCurve),
    (∀ fc, fc ∈ block → fcurve_is (name, p) index fc = false) →
    existsb (fcurve_is (name, p) index) (action_fcurves a ++ block) = false) as Hfree.
  { intros p index block Hblock. apply existsb_false. intros fc Hfc.
    apply elem_of_app in Hfc as [Hfc|Hfc]; [|by apply Hblock].
    apply fcurve_is_other_bone. by apply Hother. }
  assert (∀ p index (block : list FCurve),
    forallb (λ fc, negb (fcurve_is (name, p) index fc)) block = true →
    ∀ fc, fc ∈ block → fcurve_is (name, p) index fc = false) as Hblock.
  { intros p index block Hall fc Hfc. rewrite forallb_forall in Hall.
    apply negb_true_iff, Hall. by apply list_elem_of_In. }
  assert (∀ p p' index index' g k,
    p ≠ p' ∨ index ≠ index' →
    negb (fcurve_is (name, p) index (mkFCurve (name, p') index' g k)) = true) as Hdiff.
  { intros p p' index index' g k Hd. unfold fcurve_is. cbn.
    apply negb_true_iff, andb_false_iff. destruct Hd as [Hd|Hd].
    - left. apply bool_decide_eq_false. intros [= ->]. done.
    - right. apply Nat.eqb_neq. done. }
  unfold path_from_id, st_bind, st_ret.
  rewrite fcurves_new_ok.
  2: { rewrite <- (app_nil_r (action_fcurves a)). apply Hfree.
       intros fc Hfc. by apply elem_of_nil in Hfc. }
  cbn [action_fcurves set_fcurves].
  repeat (rewrite fcurves_new_ok;
    [ cbn [action_fcurves set_fcurves]; rewrite <- ?app_assoc; cbn [app]
    | cbn [action_fcurves set_fcurves]; rewrite <- ?app_assoc; cbn [app];
      apply Hfree, Hblock; cbn [forallb];
      rewrite ?Hdiff by (first [left; discriminate | right; discriminate]);
      reflexivity ]).
  rewrite !length_app. cbn [length]. subst n. unfold set_fcurves. cbn.
  replace (length (action_fcurves a) + 0) with (length (action_fcurves a)) by lia.
  done.
Qed.

Lemma elem_of_flat_map_bone_fcurves names points fc :
  fc ∈ flat_map (λ n, bone_fcurves n points) names → (data_path fc).1 ∈ names.
Proof.
  intros Hin. apply list_elem_of_In, in_flat_map in Hin as (n & Hn & Hfc).
  apply list_elem_of_In in Hn. apply list_elem_of_In in Hfc.
  unfold bone_fcurves in Hfc. apply list_elem_of_fmap in Hfc as (c & -> & _). done.
Qed.

Lemma create_fcurves_ok (entries : list (nat * nat))
    (import_bones : list (option ImportBone)) (a : Action) :
  action_fcurves a = [] →
  NoDup entries.*1 →
  (∀ i, i ∈ entries.*1 → ∃ b, import_bones !! i = Some (Some b)) →
  NoDup (entry_pose_bones import_bones entries) →
  ∃ import_bones' a',
    create_fcurves entries import_bones a = (Ok import_bones', a')
    ∧ (action_fcurves a' =
         flat_map (λ n, bone_fcurves n (λ _, [])) (entry_pose_bones import_bones entries)
       ∧ id_properties a' = id_properties a
       ∧ use_fake_user a' = use_fake_user a
       ∧ length import_bones' = length import_bones
       ∧ (∀ i, i ∉ entries.*1 → import_bones' !! i = import_bones !! i)
       ∧ (∀ k i, entries.*1 !! k = Some i →
            ∃ b, import_bones !! i = Some (Some b)
              ∧ import_bones' !! i =
                Some (Some (set_import_fcurves b (map (λ c, 7 * k + c) (seq 0 7)))))).
Proof.
  intros Hempty Hnd Hmapped Hposes. unfold create_fcurves.
  apply (st_for_inv (λ k (l : list (option ImportBone)) (a' : Action),
    action_fcurves a' =
      flat_map (λ n, bone_fcurves n (λ _, []))
        (entry_pose_bones import_bones (take k entries))
    ∧ id_properties a' = id_properties a
    ∧ use_fake_user a' = use_fake_user a
    ∧ length l = length import_bones
    ∧ (∀ i, i ∉ (take k entries).*1 → l !! i = import_bones !! i)
    ∧ (∀ j i, j < k → entries.*1 !! j = Some i →
         ∃ b, import_bones !! i = Some (Some b)
           ∧ l !! i =
             Some (Some (set_import_fcurves b (map (λ c, 7 * j + c) (seq 0 7))))))).
  - split_and!; try done. intros j i ?. lia.
  - intros k [i j0] l a' Hk (Hfc & Hprops & Hfake & Hlen & Hrest & Hdone).
    assert (entries.*1 !! k = Some i) as Hki by (by rewrite list_lookup_fmap, Hk).
    destruct (Hmapped i) as [b Hb]; [by eapply list_elem_of_lookup_2|].
    assert (i ∉ (take k entries).*1) as Hfresh.
    { rewrite fmap_take. intros Hin. apply list_elem_of_lookup in Hin as [j Hj].
      apply lookup_take_Some in Hj as [Hj Hlt].
      pose proof (NoDup_lookup _ _ _ _ Hnd Hj Hki). lia. }
    cbn [fst]. rewrite (Hrest i Hfresh), Hb.
    assert (entry_pose_bones import_bones (take (S k) entries)
            = entry_pose_bones import_bones (take k entries) ++ [pose_bone b]) as Htake.
    { unfold entry_pose_bones. rewrite (take_S_r _ _ _ Hk), fmap_app, omap_app.
      cbn. by rewrite Hb. }
    assert (entry_pose_bones import_bones entries
            = entry_pose_bones import_bones (take (S k) entries)
              ++ entry_pose_bones import_bones (drop (S k) entries)) as Hsplit.
    { unfold entry_pose_bones. by rewrite <- omap_app, <- fmap_app, take_drop. }
    unfold st_bind at 1. rewrite create_bone_fcurves_ok.
    2: { intros fc Hin. rewrite Hfc in Hin.
         apply elem_of_flat_map_bone_fcurves in Hin.
         rewrite Hsplit, Htake in Hposes.
         apply NoDup_app in Hposes as (Hposes & _ & _).
         apply NoDup_app in Hposes as (_ & Hposes & _).
         intros Heq. rewrite Heq in Hin. apply (Hposes _ Hin). set_solver. }
    eexists _, _. split; [reflexivity|]. cbn [action_fcurves set_fcurves id_properties
      use_fake_user].
    split; [|split; [done|split; [done|split; [by rewrite length_insert|split]]]].
    + rewrite Htake, flat_map_app, Hfc. cbn [flat_map]. by rewrite app_nil_r.
    + intros i' Hi'. rewrite (take_S_r _ _ _ Hk), fmap_app in Hi'.
      rewrite list_lookup_insert_ne by set_solver. apply Hrest. set_solver.
    + intros j i' Hj Hji.
      destruct (decide (j = k)) as [->|Hne].
      * replace i' with i by congruence. exists b. split; [done|].
        rewrite list_lookup_insert_eq.
        2: { rewrite Hlen. by eapply lookup_lt_Some. }
        rewrite Hfc. do 3 f_equal. 
        assert (length (flat_map (λ n, bone_fcurves n (λ _, []))
                  (entry_pose_bones import_bones (take k entries))) = 7 * k) as ->; [|done].
        assert (length (entry_pose_bones import_bones (take k entries)) = k) as Hlk.
        { unfold entry_pose_bones. 
          assert (∀ es : list (nat * nat), (∀ i, i ∈ es.*1 → ∃ b, import_bones !! i = Some (Some b)) →
            length (omap (λ i, pose_bone <$> mjoin (import_bones !! i)) es.*1) = length es) as Hl.
          { clear. induction es as [|[e1 e2] es IH]; intros H; [done|].
            cbn. destruct (H e1) as [b ->]; [set_solver|]. cbn. rewrite IH; [done|].
            intros i Hi. apply H. set_solver. }
          rewrite Hl.
          - rewrite length_take. apply lookup_lt_Some in Hk. lia.
          - intros i0 Hi0. apply Hmapped. rewrite fmap_take in Hi0.
            by eapply subseteq_take. }
        generalize dependent (entry_pose_bones import_bones (take k entries)).
        intros names _ _ <-. clear. induction names as [|n names IH]; [done|].
        cbn [flat_map length]. rewrite length_app, IH, length_bone_fcurves. lia.
      * destruct (Hdone j i' ltac:(lia) Hji) as (b' & Hb' & Hl').
        exists b'. split; [done|]. rewrite list_lookup_insert_ne; [done|].
        intros <-. pose proof (NoDup_lookup _ _ _ _ Hnd Hji Hki). lia.
  - intros l a' (Hfc & Hprops & Hfake & Hlen & Hrest & Hdone).
    rewrite firstn_all in *. split_and!; try done.
    + intros k i Hki. apply (Hdone k i); [|done]. apply lookup_lt_Some in Hki.
      by rewrite length_fmap in Hki.
Qed.

(** ** The conversion of the data matrix *)

Lemma nd_row_ok {A} (a : ndarray A) f b :
  f < nframes a → b < nbones a →
  nd_row a f b = Ok (map (item a f b) (seq 0 (nchannels a))).
Proof.
  intros Hf Hb. unfold nd_row. apply Nat.ltb_lt in Hf, Hb. by rewrite Hf, Hb.
Qed.

Lemma nd_set_row_ok {A} (a : ndarray A) f b row :
  f < nframes a → b < nbones a → length row = nchannels a →
  ∃ a', nd_set_row a f b row = Ok a'
        ∧ nframes a' = nframes a ∧ nbones a' = nbones a ∧ nchannels a' = nchannels a
        ∧ ∀ f' b' c', item a' f' b' c' =
            if (f' =? f) && (b' =? b) then default (item a f' b' c') (row !! c')
            else item a f' b' c'.
Proof.
  intros Hf Hb Hlen. unfold nd_set_row.
  apply Nat.ltb_lt in Hf, Hb. apply Nat.eqb_eq in Hlen. rewrite Hf, Hb, Hlen. cbn.
  eexists. split_and!; reflexivity.
Qed.

Section ImportFacts.
Context {R : Rotate}.

Lemma calculate_fcurve_data_row (import_bone : ImportBone) (M : ndarray Q) f b :
  nchannels M = 7 →
  ∃ row, calculate_fcurve_data import_bone (map (item M f b) (seq 0 (nchannels M)))
         = Ok row ∧ length row = 7.
Proof. intros ->. cbn. eexists. split; reflexivity. Qed.

Lemma convert_matrix_ok (import_bones : list (option ImportBone)) (frame_count : nat)
    (M : ndarray Q) :
  length import_bones ≤ nbones M → nchannels M = 7 → frame_count ≤ nframes M →
  ∃ D, convert_matrix import_bones frame_count M = Ok D
       ∧ (same_shape D M
          ∧ ∀ f b c, item D f b c = converted_item import_bones frame_count M f b c).
Proof.
  intros Hlen Hch Hfr. unfold convert_matrix.
  apply (for_loop_inv (λ (k : nat) (D : ndarray Q),
    same_shape D M ∧ ∀ f b c, item D f b c =
      if b <? k then converted_item import_bones frame_count M f b c
      else item M f b c)).
  - split; [done|]. intros f b c. done.
  - intros k [k' ob] D. rewrite lookup_enumerate.
    destruct (import_bones !! k) as [ob'|] eqn:Hk; [|done].
    intros [= <- <-] [(HF & HB & HC) Hi].
    assert (k < length import_bones) by (by eapply lookup_lt_Some).
    destruct ob' as [ib|].
    2: { exists D. split; [done|]. split; [done|]. intros f b c. rewrite Hi.
         destruct (Nat.ltb_spec b k), (Nat.ltb_spec b (S k)); try lia; try done.
         replace b with k by lia. unfold converted_item. by rewrite Hk. }
    apply (for_loop_inv (λ (n : nat) (D' : ndarray Q),
      same_shape D' M ∧ ∀ f b c, item D' f b c =
        if (b =? k) && (f <? n)
        then default (item M f b c) (local_row ib M f b !! c)
        else item D f b c)).
    + split; [done|]. intros f b c. by rewrite andb_false_r.
    + intros n f D1 Hf [(HF1 & HB1 & HC1) Hi1].
      apply lookup_seq in Hf as [-> Hn]. cbn [plus] in *.
      rewrite nd_row_ok by lia. cbn [rbind].
      assert (map (item D1 n k) (seq 0 (nchannels D1))
              = map (item M n k) (seq 0 (nchannels M))) as ->.
      { rewrite HC1. apply map_ext. intros c. rewrite Hi1, Hi. by nat_cases. }
      destruct (calculate_fcurve_data_row ib M n k Hch) as (row & Hrow & Hlrow).
      rewrite Hrow. cbn [rbind].
      destruct (nd_set_row_ok D1 n k row) as (D2 & -> & HF2 & HB2 & HC2 & Hi2);
        [lia|lia|lia|].
      exists D2. split; [done|]. split; [unfold same_shape; lia|].
      intros f b c. rewrite Hi2, Hi1. unfold local_row.
      nat_cases; subst; try done.
      rewrite Hrow, Hi. by nat_cases.
    + intros D' [Hs Hi']. split; [done|].
      intros f b c. rewrite Hi', Hi, length_seq. unfold converted_item.
      nat_cases; subst; rewrite ?Hk; nat_cases; done.
  - intros D [Hs Hi]. split; [done|].
    intros f b c. rewrite Hi, length_enumerate. unfold converted_item.
    destruct (Nat.ltb_spec b (length import_bones)); [done|].
    by rewrite (proj2 (lookup_ge_None _ _)).
Qed.

(** ** Writing the keyframes *)

Lemma write_row_ok f (z : list (nat * bool * Q)) (a : Action) :
  ∃ a', st_for z
          (λ _ '(fcurve, should_write, datum),
             if should_write : bool
             then keyframe_points_insert fcurve f datum
             else st_ret tt) tt a = (Ok tt, a')
        ∧ action_fcurves a' = foldl apply_event (action_fcurves a) (row_events f z)
        ∧ same_meta a a'.
Proof.
  revert a. induction z as [|[[h m] d] z IH]; intros a; cbn [st_for].
  - by exists a.
  - unfold st_bind at 1. destruct m.
    + cbn [keyframe_points_insert].
      destruct (IH (set_fcurves a (alter (add_keyframe f d) h (action_fcurves a))))
        as (a' & -> & Hfc & Hm).
      exists a'. split_and!; [done| |done]. by rewrite Hfc.
    + cbn [st_ret]. destruct (IH a) as (a' & -> & Hfc & Hm). by exists a'.
Qed.

Lemma write_keyframes_ok (import_bones : list (option ImportBone)) (frame_count : nat)
    (D : ndarray Q) (W : ndarray bool) (a : Action) :
  frame_count ≤ nframes D → same_shape W D → length import_bones ≤ nbones D →
  ∃ u a', write_keyframes import_bones frame_count D W a = (Ok u, a')
        ∧ (action_fcurves a' =
             foldl apply_event (action_fcurves a) (all_events import_bones frame_count D W)
           ∧ same_meta a a').
Proof.
  intros HF (HsF & HsB & HsC) HB. unfold write_keyframes, all_events.
  apply (st_for_inv (λ k (_ : unit) (a' : Action),
    action_fcurves a' =
      foldl apply_event (action_fcurves a)
        (flat_map (λ f, flat_map (bone_events D W f) (enumerate import_bones))
           (take k (seq 0 frame_count)))
    ∧ same_meta a a')).
  - by split.
  - intros k f [] a1 Hf [Hfc1 Hm1]. apply lookup_seq in Hf as Hf'.
    destruct Hf' as [-> Hk]. cbn [plus] in *.
    rewrite (take_S_r _ _ _ Hf), flat_map_app, foldl_app, <- Hfc1. cbn [flat_map].
    rewrite app_nil_r.
    apply (st_for_inv (λ n (_ : unit) (a' : Action),
      action_fcurves a' =
        foldl apply_event (action_fcurves a1)
          (flat_map (bone_events D W k) (take n (enumerate import_bones)))
      ∧ same_meta a a')).
    + by split.
    + intros n [i ob] [] a2 Hn [Hfc2 Hm2].
      rewrite (take_S_r _ _ _ Hn), flat_map_app, foldl_app, <- Hfc2. cbn [flat_map].
      rewrite app_nil_r.
      rewrite lookup_enumerate in Hn.
      destruct (import_bones !! n) as [ob'|] eqn:Hob; [|done]. injection Hn as <- <-.
      apply lookup_lt_Some in Hob.
      destruct ob' as [b|]; [|by exists tt, a2].
      unfold st_bind at 1, st_lift at 1. rewrite nd_row_ok by lia.
      cbn [bone_events].
      destruct (existsb id (map (item W k n) (seq 0 (nchannels W)))).
      * unfold st_bind at 1, st_lift at 1. rewrite nd_row_ok by lia.
        destruct (write_row_ok k
          (zip3 (fcurves b) (map (item W k n) (seq 0 (nchannels W)))
             (map (item D k n) (seq 0 (nchannels D)))) a2) as (a3 & -> & Hfc3 & Hm3).
        exists tt, a3. split; [done|]. split; [done|].
        destruct Hm2, Hm3. split; congruence.
      * by exists tt, a2.
    + intros [] a2 [Hfc2 Hm2]. by rewrite firstn_all in Hfc2.
  - intros u a' [Hfc Hm]. by rewrite firstn_all in Hfc.
Qed.

Lemma apply_events_lookup (events : list (nat * (nat * Q))) : ∀ (l : list FCurve) h,
  foldl apply_event l events !! h = add_keyframes (events_at h events) <$> l !! h.
Proof.
  induction events as [|[h' [f d]] events IH]; intros l h; cbn [foldl events_at flat_map].
  - destruct (l !! h) as [[]|]; cbn; [|done]. unfold add_keyframes. cbn.
    by rewrite app_nil_r.
  - rewrite IH. unfold apply_event. cbn [fst snd].
    destruct (decide (h' = h)) as [->|Hne].
    + rewrite list_lookup_alter_eq. destruct (l !! h) as [fc|]; [|done].
      unfold add_keyframes, add_keyframe, events_at. cbn. by rewrite <- app_assoc.
    + rewrite list_lookup_alter_ne by done. done.
Qed.

Lemma flat_map_single {A B} (g : A → list B) (xs : list A) i x :
  xs !! i = Some x →
  (∀ j y, xs !! j = Some y → j ≠ i → g y = []) →
  flat_map g xs = g x.
Proof.
  intros Hx Hother.
  rewrite <- (take_drop_middle xs i x Hx), flat_map_app. cbn [flat_map].
  assert (∀ ys : list A, (∀ y, y ∈ ys → g y = []) → flat_map g ys = []) as Hnil.
  { induction ys as [|y ys IH]; intros H; [done|]. cbn [flat_map].
    rewrite (H y) by left. apply IH. intros y' ?. apply H. by right. }
  rewrite !Hnil, ?app_nil_r; [done|..].
  - intros y Hy. apply list_elem_of_lookup in Hy as [j Hj].
    rewrite lookup_drop in Hj. apply (Hother _ _ Hj). lia.
  - intros y Hy. apply list_elem_of_lookup in Hy as [j Hj].
    apply lookup_take_Some in Hj as [Hj Hlt]. apply (Hother _ _ Hj). lia.
Qed.

Lemma flat_map_flat_map {A B C} (g : B → list C) (k : A → list B) (xs : list A) :
  flat_map g (flat_map k xs) = flat_map (λ x, flat_map g (k x)) xs.
Proof.
  induction xs as [|x xs IH]; [done|]. cbn [flat_map]. by rewrite flat_map_app, IH.
Qed.

Lemma existsb_id_false (marks : list bool) c m :
  existsb id marks = false → marks !! c = Some m → m = false.
Proof.
  intros Hex Hm. rewrite existsb_false in Hex.
  apply (Hex m). by eapply list_elem_of_lookup_2.
Qed.

Lemma lookup_zip3 {A B C} (a : list A) (b : list B) (c : list C) j x y z :
  zip3 a b c !! j = Some (x, y, z)
  ↔ a !! j = Some x ∧ b !! j = Some y ∧ c !! j = Some z.
Proof.
  unfold zip3. rewrite lookup_zip_with_Some. split.
  - intros ([x' y'] & z' & [= <- <- <-] & Hxy & Hz).
    apply lookup_zip_with_Some in Hxy as (x'' & y'' & [= <- <-] & Hx & Hy). done.
  - intros (Hx & Hy & Hz). exists (x, y), z. split_and!; [done| |done].
    apply lookup_zip_with_Some. by exists x, y.
Qed.

Lemma events_at_row f (hs : list nat) (marks : list bool) (ds : list Q) c h
    (m : bool) (d : Q) :
  NoDup hs → hs !! c = Some h → marks !! c = Some m → ds !! c = Some d →
  events_at h (row_events f (zip3 hs marks ds)) = if m then [(f, d)] else [].
Proof.
  intros Hnd Hh Hm Hd. unfold events_at, row_events. rewrite flat_map_flat_map.
  erewrite (flat_map_single _ _ c (h, m, d)).
  - destruct m; cbn; [|done]. by rewrite decide_True.
  - by apply lookup_zip3.
  - intros j [[h' m'] d'] Hj Hne. apply lookup_zip3 in Hj as (Hh' & _ & _).
    destruct m'; cbn; [|done]. rewrite decide_False; [done|].
    intros ->. by pose proof (NoDup_lookup _ _ _ _ Hnd Hh Hh').
Qed.

Lemma events_at_row_other f (hs : list nat) (marks : list bool) (ds : list Q) h :
  h ∉ hs → events_at h (row_events f (zip3 hs marks ds)) = [].
Proof.
  intros Hh. unfold events_at, row_events. rewrite flat_map_flat_map.
  assert (∀ x y w, (x, y, w) ∈ zip3 hs marks ds → x ∈ hs) as Hz.
  { intros x y w Hin. apply list_elem_of_lookup in Hin as [j Hj].
    apply lookup_zip3 in Hj as (Hx & _ & _). by eapply list_elem_of_lookup_2. }
  revert Hz. generalize (zip3 hs marks ds).
  intros z Hz. induction z as [|[[h' m'] d'] z IH]; [done|]. cbn [flat_map].
  rewrite IH by (intros x y w Hin; apply (Hz x y w); by right).
  pose proof (Hz h' m' d' ltac:(left)) as Hh'.
  destruct m'; cbn; [|done]. rewrite decide_False; [done|].
  by intros ->.
Qed.

Lemma events_at_handle (import_bones : list (option ImportBone)) (frame_count : nat)
    (D : ndarray Q) (W : ndarray bool) i b c h :
  handles_ok import_bones → nchannels D = 7 → nchannels W = 7 →
  import_bones !! i = Some (Some b) → fcurves b !! c = Some h →
  events_at h (all_events import_bones frame_count D W)
  = keyframes_of D W frame_count i c.
Proof.
  intros [Hseven Hapart] HD HW Hb Hh.
  destruct (Hseven i b Hb) as [Hlen Hnd].
  assert (c < 7) as Hc by (rewrite <- Hlen; by eapply lookup_lt_Some).
  unfold all_events, keyframes_of. unfold events_at at 1. rewrite flat_map_flat_map.
  apply flat_map_ext. intros f.
  fold (events_at h (flat_map (bone_events D W f) (enumerate import_bones))).
  unfold events_at at 1. rewrite flat_map_flat_map.
  erewrite (flat_map_single _ _ i (i, Some b)).
  - fold (events_at h (bone_events D W f (i, Some b))). cbn [bone_events].
    assert (map (item W f i) (seq 0 (nchannels W)) !! c = Some (item W f i c)) as Hm.
    { rewrite list_lookup_fmap, lookup_seq_lt by lia. done. }
    assert (map (item D f i) (seq 0 (nchannels D)) !! c = Some (item D f i c)) as Hd.
    { rewrite list_lookup_fmap, lookup_seq_lt by lia. done. }
    destruct (existsb id (map (item W f i) (seq 0 (nchannels W)))) eqn:Hany.
    + by rewrite (events_at_row f _ _ _ c h _ _ Hnd Hh Hm Hd).
    + by rewrite (existsb_id_false _ _ _ Hany Hm).
  - by rewrite lookup_enumerate, Hb.
  - intros j [j' ob] Hj Hne. rewrite lookup_enumerate in Hj.
    destruct (import_bones !! j) as [ob'|] eqn:Hob; [|done]. injection Hj as <- <-.
    fold (events_at h (bone_events D W f (j, ob'))).
    destruct ob' as [b'|]; [|done]. cbn [bone_events].
    destruct (existsb id _); [|done].
    apply events_at_row_other. intros Hin. apply Hne.
    apply (Hapart j i b' b h Hob Hb Hin). by eapply list_elem_of_lookup_2.
Qed.

(** ** One sequence *)

(** Lists made of blocks of seven. *)
Lemma lookup_flat_map_seven {A B} (g : A → list B) (xs : list A) k c :
  (∀ x, x ∈ xs → length (g x) = 7) → c < 7 →
  flat_map g xs !! (7 * k + c) = xs !! k ≫= λ x, g x !! c.
Proof.
  revert k. induction xs as [|x xs IH]; intros k Hlen Hc; [done|].
  cbn [flat_map]. pose proof (Hlen x ltac:(left)) as Hx.
  destruct k as [|k].
  - rewrite lookup_app_l by lia. cbn. by replace (0 + c) with c by lia.
  - rewrite lookup_app_r by lia. replace (7 * S k + c - length (g x)) with (7 * k + c) by lia.
    cbn [lookup list_lookup]. apply IH; [|done]. intros y Hy. apply Hlen. by right.
Qed.

Lemma length_flat_map_seven {A B} (g : A → list B) (xs : list A) :
  (∀ x, x ∈ xs → length (g x) = 7) → length (flat_map g xs) = 7 * length xs.
Proof.
  induction xs as [|x xs IH]; intros Hlen; [done|].
  cbn [flat_map length]. rewrite length_app, (Hlen x) by left.
  rewrite IH; [lia|]. intros y Hy. apply Hlen. by right.
Qed.

Lemma flat_map_omap {A B C} (g : B → list C) (k : A → option B) (xs : list A) :
  flat_map g (omap k xs)
  = flat_map (λ x, match k x with Some y => g y | None => [] end) xs.
Proof.
  induction xs as [|x xs IH]; [done|]. cbn.
  destruct (k x); cbn; by rewrite IH.
Qed.

Lemma strip_bones_lookup (l l' : list (option ImportBone)) i :
  strip_bones l = strip_bones l' →
  match l !! i, l' !! i with
  | Some (Some b), Some (Some b') => strip b = strip b'
  | Some None, Some None => True
  | None, None => True
  | _, _ => False
  end.
Proof.
  intros Heq. assert (strip_bones l !! i = strip_bones l' !! i) as Hi by by rewrite Heq.
  unfold strip_bones in Hi. rewrite !list_lookup_fmap in Hi.
  assert (∀ x y : ImportBone, Some (Some x) = Some (Some y) → x = y) as Hinj
    by (by intros x y [=]).
  destruct (l !! i) as [[b|]|], (l' !! i) as [[b'|]|]; cbn in Hi;
    first [done | discriminate | by apply Hinj].
Qed.

Lemma strip_pose_bone b b' : strip b = strip b' → pose_bone b = pose_bone b'.
Proof. intros H. by apply (f_equal pose_bone) in H. Qed.

Lemma strip_calculate_fcurve_data b b' key_data :
  strip b = strip b' → calculate_fcurve_data b key_data = calculate_fcurve_data b' key_data.
Proof.
  intros H. unfold calculate_fcurve_data.
  apply (f_equal post_quat) in H as Hpost. apply (f_equal orig_quat) in H as Hquat.
  apply (f_equal orig_loc) in H as Hloc. apply (f_equal parent) in H as Hpar.
  cbn in *. by rewrite Hpost, Hquat, Hloc, Hpar.
Qed.

Lemma strip_converted_item l l' frame_count M f b c :
  strip_bones l = strip_bones l' →
  converted_item l frame_count M f b c = converted_item l' frame_count M f b c.
Proof.
  intros Heq. pose proof (strip_bones_lookup l l' b Heq) as Hb. unfold converted_item.
  destruct (l !! b) as [[x|]|], (l' !! b) as [[x'|]|]; try done.
  unfold local_row. by rewrite (strip_calculate_fcurve_data x x').
Qed.

Lemma strip_sequence_fcurves entries l l' clean t frame_count M :
  strip_bones l = strip_bones l' →
  sequence_fcurves entries l clean t frame_count M
  = sequence_fcurves entries l' clean t frame_count M.
Proof.
  intros Heq. unfold sequence_fcurves. apply flat_map_ext. intros i.
  pose proof (strip_bones_lookup l l' i Heq) as Hi.
  destruct (l !! i) as [[x|]|], (l' !! i) as [[x'|]|]; try done. cbn -[bone_fcurves].
  rewrite (strip_pose_bone x x' Hi). unfold bone_fcurves. apply map_ext. intros c.
  unfold channel_fcurve. f_equal. unfold channel_keyframes. apply flat_map_ext. intros f.
  unfold channel_mark, channel_values.
  rewrite (strip_converted_item l l' frame_count M f i c Heq).
  assert (map (λ f0, converted_item l frame_count M f0 i c) (seq 0 (nframes M))
          = map (λ f0, converted_item l' frame_count M f0 i c) (seq 0 (nframes M))) as ->.
  { apply map_ext. intros f0. by apply strip_converted_item. }
  done.
Qed.

Lemma strip_entry_pose_bones entries l l' :
  strip_bones l = strip_bones l' → entry_pose_bones l entries = entry_pose_bones l' entries.
Proof.
  intros Heq. unfold entry_pose_bones. generalize entries.*1. intros ks.
  induction ks as [|i ks IH]; [done|].
  change (omap ?g (i :: ks)) with (from_option (λ y, y :: omap g ks) (omap g ks) (g i)).
  cbn beta. rewrite IH.
  assert (pose_bone <$> mjoin (l !! i) = pose_bone <$> mjoin (l' !! i)) as ->; [|done].
  pose proof (strip_bones_lookup l l' i Heq) as Hi.
  destruct (l !! i) as [[x|]|], (l' !! i) as [[x'|]|]; try done. cbn.
  by rewrite (strip_pose_bone x x' Hi).
Qed.

Lemma strip_entries_ok entries l l' :
  strip_bones l = strip_bones l' → entries_ok entries l → entries_ok entries l'.
Proof.
  intros Heq (Hnd & Hiff & Hposes). split_and!; [done| |].
  - intros i. rewrite Hiff. pose proof (strip_bones_lookup l l' i Heq) as Hi.
    destruct (l !! i) as [[x|]|], (l' !! i) as [[x'|]|]; try done; split;
      intros [? ?]; try done; by eexists.
  - by rewrite <- (strip_entry_pose_bones entries l l' Heq).
Qed.

Lemma created_handles_ok (entries : list (nat * nat))
    (import_bones import_bones' : list (option ImportBone)) :
  NoDup entries.*1 →
  (∀ i b, import_bones' !! i = Some (Some b) → i ∈ entries.*1) →
  (∀ k i, entries.*1 !! k = Some i →
     ∃ b, import_bones !! i = Some (Some b)
       ∧ import_bones' !! i =
         Some (Some (set_import_fcurves b (map (λ c, 7 * k + c) (seq 0 7))))) →
  handles_ok import_bones'.
Proof.
  intros Hnd Hin Hcreated.
  assert (∀ i b, import_bones' !! i = Some (Some b) →
    ∃ k, entries.*1 !! k = Some i ∧ fcurves b = map (λ c, 7 * k + c) (seq 0 7)) as Hk.
  { intros i b Hb. pose proof (Hin i b Hb) as Hi.
    apply list_elem_of_lookup in Hi as [k Hk]. exists k. split; [done|].
    destruct (Hcreated k i Hk) as (b0 & _ & Hb'). rewrite Hb in Hb'.
    injection Hb' as ->. done. }
  assert (∀ k h, h ∈ map (λ c, 7 * k + c) (seq 0 7) → 7 * k ≤ h < 7 * k + 7) as Hrange.
  { intros k h Hh. apply list_elem_of_fmap in Hh as (c & -> & Hc).
    apply elem_of_seq in Hc. lia. }
  split.
  - intros i b Hb. destruct (Hk i b Hb) as (k & _ & ->). split; [done|].
    apply NoDup_fmap_2; [|apply NoDup_seq]. intros c c' ?. lia.
  - intros i i' b b' h Hb Hb' Hh Hh'.
    destruct (Hk i b Hb) as (k & Hki & Hfc). destruct (Hk i' b' Hb') as (k' & Hki' & Hfc').
    rewrite Hfc in Hh. rewrite Hfc' in Hh'.
    apply Hrange in Hh. apply Hrange in Hh'.
    assert (k = k') as -> by lia. congruence.
Qed.

Lemma clear_fcurves_ok (a : Action) :
  clear_fcurves a = (Ok tt, set_fcurves a []).
Proof. unfold clear_fcurves. by rewrite remove_fcurves_all. Qed.

Lemma add_keyframes_channel_fcurve name points c :
  add_keyframes points (channel_fcurve name (λ _, []) c)
  = channel_fcurve name (λ _, points) c.
Proof. done. Qed.

Lemma import_keyframes_ok (psa_reader : PsaReader) (options : PsaImportOptions)
    (entries : list (nat * nat)) (sequence : Sequence)
    (import_bones : list (option ImportBone)) (a : Action) (M : ndarray Q) :
  entries_ok entries import_bones →
  read_sequence_data_matrix psa_reader (sequence_name sequence) = Ok M →
  nframes M = frame_count sequence →
  length import_bones ≤ nbones M →
  nchannels M = 7 →
  ∃ import_bones' a',
    import_keyframes psa_reader options entries sequence import_bones a
    = (Ok import_bones', a')
    ∧ strip_bones import_bones' = strip_bones import_bones
    ∧ action_fcurves a' =
        sequence_fcurves entries import_bones (should_clean_keys options)
          threshold_default (frame_count sequence) M
    ∧ same_meta a a'.
Proof.
  intros (Hnd & Hiff & Hposes) Hread HF HB HC. unfold import_keyframes.
  unfold st_bind at 1. rewrite clear_fcurves_ok.
  destruct (create_fcurves_ok entries import_bones (set_fcurves a []))
    as (l1 & a1 & Hcreate & Hfc1 & Hprops1 & Hfake1 & Hlen1 & Hrest1 & Hnew1);
    [done|done| |done|].
  { intros i Hi. by apply Hiff. }
  unfold st_bind at 1. rewrite Hcreate.
  unfold st_bind at 1, st_lift at 1. rewrite Hread.
  assert (strip_bones l1 = strip_bones import_bones) as Hstrip.
  { apply list_eq. intros i. unfold strip_bones. rewrite !list_lookup_fmap.
    destruct (decide (i ∈ entries.*1)) as [Hi|Hi].
    - apply list_elem_of_lookup in Hi as [k Hk].
      destruct (Hnew1 k i Hk) as (b & -> & ->). done.
    - by rewrite Hrest1. }
  assert (∀ i b, l1 !! i = Some (Some b) → i ∈ entries.*1) as Hin1.
  { intros i b Hb. apply Hiff. pose proof (strip_bones_lookup l1 import_bones i Hstrip) as Hi.
    rewrite Hb in Hi. destruct (import_bones !! i) as [[b0|]|]; [by eexists|done..]. }
  pose proof (created_handles_ok entries import_bones l1 Hnd Hin1 Hnew1) as Hhandles.
  destruct (convert_matrix_ok l1 (frame_count sequence) M) as (D & HD & (HDF & HDB & HDC) & HDi);
    [lia|done|lia|].
  unfold st_bind at 1, st_lift at 1. rewrite HD.
  destruct (make_write_matrix_ok (should_clean_keys options) threshold_default l1 D)
    as (W & HW & (HWF & HWB & HWC) & HWi).
  { split; [lia|]. intros i b Hb. destruct Hhandles as [Hseven _].
    destruct (Hseven i b Hb) as [-> _]. lia. }
  unfold st_bind at 1, st_lift at 1. rewrite HW.
  destruct (write_keyframes_ok l1 (frame_count sequence) D W a1) as (u & a2 & Hwrite & Hfc2 & Hm2);
    [lia|done|lia|].
  unfold st_bind at 1. rewrite Hwrite. cbn [st_ret].
  exists l1, a2. split_and!; [done|done| |].
  2: { destruct Hm2 as [Hp2 Hf2]. split; [by rewrite Hp2, Hprops1|by rewrite Hf2, Hfake1]. }
  rewrite Hfc2, Hfc1. unfold entry_pose_bones. rewrite flat_map_omap.
  unfold sequence_fcurves.
  set (G0 := λ i, match pose_bone <$> mjoin (import_bones !! i) with
                  | Some n => bone_fcurves n (λ _, [])
                  | None => []
                  end).
  set (G1 := λ i, match mjoin (import_bones !! i) with
                  | Some b =>
                    bone_fcurves (pose_bone b)
                      (channel_keyframes import_bones (should_clean_keys options)
                         threshold_default (frame_count sequence) M i)
                  | None => []
                  end).
  assert (∀ i, i ∈ entries.*1 → length (G0 i) = 7) as HG0.
  { intros i Hi. apply Hiff in Hi as [b Hb]. unfold G0. by rewrite Hb. }
  assert (∀ i, i ∈ entries.*1 → length (G1 i) = 7) as HG1.
  { intros i Hi. apply Hiff in Hi as [b Hb]. unfold G1. by rewrite Hb. }
  apply list_eq. intros h. rewrite apply_events_lookup.
  rewrite (Nat.div_mod_eq h 7).
  pose proof (Nat.mod_upper_bound h 7 ltac:(lia)) as Hc.
  generalize dependent (h mod 7). generalize (h / 7). clear h. intros k c Hc.
  rewrite !lookup_flat_map_seven by done.
  destruct (entries.*1 !! k) as [i|] eqn:Hk; [|done]. cbn [mbind option_bind].
  destruct (Hnew1 k i Hk) as (b & Hb & Hb1).
  unfold G0, G1. rewrite Hb. cbn -[bone_fcurves Nat.mul].
  unfold bone_fcurves. rewrite !list_lookup_fmap, lookup_seq_lt by lia.
  cbn [fmap option_fmap option_map]. rewrite Nat.add_0_l. f_equal.
  rewrite (events_at_handle l1 (frame_count sequence) D W i _ c (7 * k + c)
             Hhandles ltac:(lia) ltac:(lia) Hb1).
  2: { cbn [fcurves set_import_fcurves]. rewrite list_lookup_fmap, lookup_seq_lt by lia.
       done. }
  rewrite add_keyframes_channel_fcurve. unfold channel_fcurve. f_equal.
  unfold keyframes_of, channel_keyframes. apply flat_map_ext. intros f.
  rewrite HDi, (strip_converted_item l1 import_bones _ M f i c Hstrip).
  assert (item W f i c
          = channel_mark import_bones (should_clean_keys options) threshold_default
              (frame_count sequence) M i c f) as ->; [|done].
  rewrite HWi. unfold channel_mark. destruct (should_clean_keys options); [|done].
  unfold clean_item. rewrite Hb1. cbn [fcurves set_import_fcurves].
  replace (c <? length (map (λ c0, 7 * k + c0) (seq 0 7))) with true
    by (symmetry; apply Nat.ltb_lt; cbn; lia).
  unfold channel_marks, channel_data, channel_values. rewrite HDF. do 3 f_equal.
  apply map_ext. intros f0. rewrite HDi. by apply strip_converted_item.
Qed.

Lemma fill_action_ok (psa_reader : PsaReader) (options : PsaImportOptions)
    (entries : list (nat * nat)) (sequence : Sequence)
    (import_bones : list (option ImportBone)) (a : Action) :
  (should_write_keyframes options = true →
     entries_ok entries import_bones
     ∧ sequence_ready psa_reader sequence
     ∧ length import_bones = length (bones psa_reader)) →
  ∃ import_bones',
    fill_action psa_reader options entries sequence import_bones a
    = (Ok import_bones',
       filled_action options sequence
         (imported_fcurves psa_reader options entries import_bones sequence) a)
    ∧ strip_bones import_bones' = strip_bones import_bones.
Proof.
  intros Hready. unfold fill_action, filled_action, imported_fcurves, sequence_matrix.
  destruct (should_write_keyframes options).
  - destruct Hready as (Hentries & (M & Hread & HF & HB & HC) & Hlen); [done|].
    destruct (import_keyframes_ok psa_reader options entries sequence import_bones a M)
      as (l & a' & Hrun & Hstrip & Hfc & Hprops & Hfake); [done|done|done|lia|done|].
    unfold st_bind at 1. rewrite Hrun, Hread. exists l. split; [|done].
    destruct a' as [fcs props fake]. cbn in Hfc, Hprops, Hfake. subst.
    by destruct (should_write_metadata options).
  - exists import_bones. split; [|done]. destruct a as [fcs props fake].
    by destruct (should_write_metadata options).
Qed.

Lemma import_sequence_ok (psa_reader : PsaReader) (options : PsaImportOptions)
    (entries : list (nat * nat)) (sequence : Sequence)
    (import_bones : list (option ImportBone)) (actions : list string) (w : World) :
  (should_write_keyframes options = true →
     entries_ok entries import_bones
     ∧ sequence_ready psa_reader sequence
     ∧ length import_bones = length (bones psa_reader)) →
  ∃ import_bones',
    import_sequence psa_reader options entries (import_bones, actions) sequence w
    = (Ok (import_bones',
           actions ++ [sequence_action_name options sequence (bpy_data_actions w)]),
       mkWorld
         (import_step psa_reader options entries import_bones (bpy_data_actions w) sequence)
         (animation_data w) (stdout w))
    ∧ strip_bones import_bones' = strip_bones import_bones.
Proof.
  intros Hready. unfold import_sequence, import_step, sequence_action_name, sequence_base.
  set (action_name := action_name_prefix options +:+ sequence_name sequence).
  unfold st_bind at 1.
  destruct (should_overwrite options && bool_decide (is_Some (bpy_data_actions w !! action_name)))
    eqn:Hreuse.
  - apply andb_true_iff in Hreuse as [-> Hex]. apply bool_decide_eq_true in Hex as [a Ha].
    cbn [st_ret]. unfold st_bind at 1, with_action. rewrite Ha.
    destruct (fill_action_ok psa_reader options entries sequence import_bones a Hready)
      as (l & -> & Hstrip).
    exists l. split; [|done]. cbn [st_ret]. done.
  - cbn [actions_new]. unfold st_bind at 1, with_action. cbn [bpy_data_actions].
    rewrite lookup_insert_eq.
    destruct (fill_action_ok psa_reader options entries sequence import_bones new_action Hready)
      as (l & -> & Hstrip).
    exists l. split; [|done]. cbn [st_ret animation_data stdout].
    rewrite insert_insert_eq.
    assert ((if should_overwrite options
             then default new_action (bpy_data_actions w !! action_name)
             else new_action) = new_action) as ->; [|done].
    destruct (should_overwrite options); [|done]. cbn in Hreuse.
    apply bool_decide_eq_false in Hreuse.
    destruct (bpy_data_actions w !! action_name); [|done]. destruct Hreuse. by eexists.
Qed.

(** ** The whole import *)

Lemma calculate_orig_pose_bone (b b' : ImportBone) :
  calculate_orig b = Ok b' → pose_bone b' = pose_bone b.
Proof.
  unfold calculate_orig. intros H.
  repeat match type of H with
         | match ?x with _ => _ end = _ => destruct x
         end; by simplify_eq.
Qed.

Lemma NoDup_omap {A B} (g : A → option B) (ks : list A) :
  (∀ i j y, g i = Some y → g j = Some y → i = j) → NoDup ks → NoDup (omap g ks).
Proof.
  intros Hinj. induction 1 as [|k ks Hk Hnd IH]; [constructor|].
  change (omap g (k :: ks)) with (from_option (λ y, y :: omap g ks) (omap g ks) (g k)).
  destruct (g k) as [y|] eqn:Hy; [|done]. cbn. constructor; [|done].
  intros Hin. apply list_elem_of_omap in Hin as (j & Hj & Hgj).
  by rewrite (Hinj k j y Hy Hgj) in Hk.
Qed.

Lemma NoDup_build_bone_indices names psa_bones :
  NoDup (build_bone_indices names psa_bones).*1.
Proof.
  unfold build_bone_indices.
  assert (NoDup (enumerate psa_bones).*1) as Hnd.
  { unfold enumerate. rewrite fst_zip by (rewrite length_seq; lia). apply NoDup_seq. }
  revert Hnd. generalize (enumerate psa_bones). intros l.
  induction l as [|[i pb] l IH]; intros Hnd; [constructor|].
  apply NoDup_cons in Hnd as [Hi Hnd]. cbn.
  destruct (index_of (psa_bone_name pb) names); cbn; [|by apply IH].
  constructor; [|by apply IH]. intros Hin. apply Hi.
  apply list_elem_of_fmap in Hin as ([i' j'] & -> & Hin).
  apply list_elem_of_omap in Hin as ([i'' pb'] & Hin & Hf).
  destruct (index_of (psa_bone_name pb') names); [|done]. injection Hf as <- <-.
  apply list_elem_of_fmap. by exists (i'', pb').
Qed.

Lemma prepared_entries_ok (psa_reader : PsaReader) (armature_object : ArmatureObject)
    (import_bones : list (option ImportBone)) :
  wf_armature armature_object →
  NoDup (map psa_bone_name (bones psa_reader)) →
  prepare_import_bones psa_reader armature_object = Ok import_bones →
  entries_ok
    (build_bone_indices (map bone_name (armature_bones armature_object))
       (bones psa_reader))
    import_bones.
Proof.
  intros Hwf Hnames Hprep.
  destruct (prepare_import_bones_ok psa_reader armature_object Hwf)
    as (l & Hl & Hlen & Hpoint).
  rewrite Hprep in Hl. injection Hl as <-.
  set (names := map bone_name (armature_bones armature_object)) in *.
  assert (∀ i, i ∈ (build_bone_indices names (bones psa_reader)).*1 →
    ∃ pb b, bones psa_reader !! i = Some pb ∧ import_bones !! i = Some (Some b)
            ∧ pose_bone b = psa_bone_name pb) as Hmapped.
  { intros i Hi. apply elem_of_build_bone_indices in Hi as (pb & Hpb & Hn).
    destruct (Hpoint i pb Hpb) as [_ Hyes].
    destruct (Hyes Hn) as (ab & p & b & _ & _ & Hcalc & Hb).
    exists pb, b. split_and!; [done..|]. by apply calculate_orig_pose_bone in Hcalc. }
  split_and!.
  - apply NoDup_build_bone_indices.
  - intros i. split.
    + intros Hi. destruct (Hmapped i Hi) as (pb & b & _ & Hb & _). by exists b.
    + intros [b Hb]. apply elem_of_build_bone_indices.
      assert (i < length (bones psa_reader)) as Hlt.
      { rewrite <- Hlen. by eapply lookup_lt_Some. }
      apply lookup_lt_is_Some in Hlt as [pb Hpb]. exists pb. split; [done|].
      destruct (decide (psa_bone_name pb ∈ names)) as [|Hn]; [done|].
      destruct (Hpoint i pb Hpb) as [Hno _]. specialize (Hno Hn). congruence.
  - unfold entry_pose_bones. apply NoDup_omap; [|apply NoDup_build_bone_indices].
    intros i j n Hi Hj.
    assert (∀ k, pose_bone <$> mjoin (import_bones !! k) = Some n →
      map psa_bone_name (bones psa_reader) !! k = Some n) as Hname.
    { intros k Hk. destruct (import_bones !! k) as [[b|]|] eqn:Hb; try done.
      cbn in Hk. injection Hk as <-.
      assert (k < length (bones psa_reader)) as Hlt.
      { rewrite <- Hlen. by eapply lookup_lt_Some. }
      apply lookup_lt_is_Some in Hlt as [pb Hpb].
      rewrite list_lookup_fmap, Hpb. cbn. f_equal.
      destruct (decide (psa_bone_name pb ∈ names)) as [Hn|Hn].
      - destruct (Hpoint k pb Hpb) as [_ Hyes].
        destruct (Hyes Hn) as (ab & p & b' & _ & _ & Hcalc & Hb').
        rewrite Hb in Hb'. injection Hb' as <-.
        by apply calculate_orig_pose_bone in Hcalc.
      - destruct (Hpoint k pb Hpb) as [Hno _]. specialize (Hno Hn). congruence. }
    by apply (NoDup_lookup _ _ _ _ Hnames (Hname i Hi) (Hname j Hj)).
Qed.

Lemma strip_import_step psa_reader options entries l l' m s :
  strip_bones l = strip_bones l' →
  import_step psa_reader options entries l m s
  = import_step psa_reader options entries l' m s.
Proof.
  intros Heq. unfold import_step, imported_fcurves.
  by rewrite (strip_sequence_fcurves entries l l').
Qed.

Lemma strip_bones_length l l' :
  strip_bones l = strip_bones l' → length l = length l'.
Proof.
  intros Heq. apply (f_equal length) in Heq. unfold strip_bones in Heq.
  by rewrite !length_map in Heq.
Qed.

Lemma import_loop_ok (psa_reader : PsaReader) (options : PsaImportOptions)
    (entries : list (nat * nat)) (import_bones0 : list (option ImportBone))
    (names : list string) :
  (∀ x, x ∈ names → is_Some (sequences psa_reader !! x)) →
  (should_write_keyframes options = true →
     entries_ok entries import_bones0
     ∧ length import_bones0 = length (bones psa_reader)
     ∧ ∀ x s, x ∈ names → sequences psa_reader !! x = Some s →
         sequence_ready psa_reader s) →
  ∀ import_bones actions w,
    strip_bones import_bones = strip_bones import_bones0 →
    ∃ import_bones',
      st_for names
        (λ state x,
           match sequences psa_reader !! x with
           | Some sequence => import_sequence psa_reader options entries state sequence
           | None => st_lift (Raise (KeyError x))
           end)
        (import_bones, actions) w
      = (Ok (import_bones',
             actions ++ import_names psa_reader options entries import_bones0
                          (bpy_data_actions w) (requested_sequences psa_reader names)),
         mkWorld
           (import_steps psa_reader options entries import_bones0
              (bpy_data_actions w) (requested_sequences psa_reader names))
           (animation_data w) (stdout w)).
Proof.
  induction names as [|x names IH]; intros Hnames Hready l acts w Hstrip.
  - exists l. cbn. rewrite app_nil_r. by destruct w.
  - destruct (Hnames x ltac:(left)) as [s Hs].
    unfold requested_sequences.
    change (omap ?g (x :: names)) with (from_option (λ y, y :: omap g names) (omap g names) (g x)).
    cbn beta. rewrite Hs. cbn [from_option st_for].
    fold (requested_sequences psa_reader names).
    unfold st_bind at 1. rewrite Hs.
    destruct (import_sequence_ok psa_reader options entries s l acts w) as (l1 & -> & Hstrip1).
    { intros Hw. destruct (Hready Hw) as (He & Hlen & Hseq). split_and!.
      - by apply (strip_entries_ok entries import_bones0 l).
      - apply (Hseq x s); [by left|done].
      - by rewrite (strip_bones_length l import_bones0). }
    destruct (IH ltac:(intros y Hy; apply Hnames; by right)
                 ltac:(intros Hw; destruct (Hready Hw) as (He & Hlen & Hseq);
                       split_and!; [done..|intros y s' Hy; apply Hseq; by right])
                 l1 (acts ++ [sequence_action_name options s (bpy_data_actions w)])
                 (mkWorld (import_step psa_reader options entries l (bpy_data_actions w) s)
                    (animation_data w) (stdout w)))
      as [l2 ->]; [congruence|].
    exists l2. cbn [bpy_data_actions animation_data stdout import_names import_steps foldl].
    rewrite <- app_assoc. cbn [app].
    by rewrite (strip_import_step psa_reader options entries l import_bones0).
Qed.

Lemma report_missing_bones_ok armature_object psa_reader (w : World) :
  report_missing_bones armature_object (map psa_bone_name (bones psa_reader))
    (map bone_name (armature_bones armature_object)) w
  = (Ok tt, mkWorld (bpy_data_actions w) (animation_data w)
              (stdout w ++ reported psa_reader armature_object)).
Proof.
  unfold report_missing_bones, reported.
  destruct (0 <? length _).
  - unfold st_bind, print. cbn. by rewrite <- app_assoc.
  - cbn. rewrite app_nil_r. by destruct w.
Qed.

Lemma import_psa_ok (psa_reader : PsaReader) (armature_object : ArmatureObject)
    (options : PsaImportOptions) (w : World) :
  wf_armature armature_object →
  (∀ x, x ∈ sequence_names options → is_Some (sequences psa_reader !! x)) →
  (should_write_keyframes options = true →
     NoDup (map psa_bone_name (bones psa_reader))
     ∧ ∀ x s, x ∈ sequence_names options → sequences psa_reader !! x = Some s →
         sequence_ready psa_reader s) →
  ∃ import_bones,
    prepare_import_bones psa_reader armature_object = Ok import_bones
    ∧ let entries :=
        build_bone_indices (map bone_name (armature_bones armature_object))
          (bones psa_reader) in
      let ss := requested_sequences psa_reader (sequence_names options) in
      let actions :=
        import_names psa_reader options entries import_bones (bpy_data_actions w) ss in
      import_psa psa_reader armature_object options w
      = (Ok actions,
         mkWorld
           (import_steps psa_reader options entries import_bones (bpy_data_actions w) ss)
           (stashed options actions (animation_data w))
           (stdout w ++ reported psa_reader armature_object)).
Proof.
  intros Hwf Hnames Hready.
  destruct (prepare_import_bones_ok psa_reader armature_object Hwf)
    as (l & Hl & Hlen & Hpoint).
  exists l. split; [done|]. intros entries ss actions.
  unfold import_psa. unfold st_bind at 1. rewrite report_missing_bones_ok.
  unfold st_bind at 1, st_lift at 1. rewrite Hl.
  destruct (import_loop_ok psa_reader options entries l (sequence_names options) Hnames)
    with (import_bones := l) (actions := @nil string)
         (w := mkWorld (bpy_data_actions w) (animation_data w)
                 (stdout w ++ reported psa_reader armature_object))
    as [l' Hloop]; [|done|].
  { intros Hw. destruct (Hready Hw) as [Hnd Hseq]. split_and!; [|done|done].
    by apply (prepared_entries_ok psa_reader armature_object). }
  unfold st_bind at 1. fold entries. rewrite Hloop. cbn [app snd bpy_data_actions].
  fold ss. fold actions. unfold stashed.
  destruct (should_stash options); cbn; done.
Qed.

(** ** The actions after the loop *)

Section Steps.
Context (psa_reader : PsaReader) (options : PsaImportOptions)
  (entries : list (nat * nat)) (import_bones : list (option ImportBone)).

Local Abbreviation step := (import_step psa_reader options entries import_bones).
Local Abbreviation steps := (import_steps psa_reader options entries import_bones).
Local Abbreviation names_of := (import_names psa_reader options entries import_bones).
Local Abbreviation filled s base :=
  (filled_action options s
     (imported_fcurves psa_reader options entries import_bones s) base).

(** A turn that lands on an action that exists reuses it. *)
Lemma action_name_existing (s : Sequence) (m : gmap string Action) :
  is_Some (m !! sequence_action_name options s m) →
  should_overwrite options = true
  ∧ sequence_action_name options s m = action_name_prefix options +:+ sequence_name s.
Proof.
  unfold sequence_action_name.
  destruct (should_overwrite options && bool_decide _) eqn:E.
  - apply andb_true_iff in E as [-> _]. done.
  - rewrite unique_name_fresh. by intros [? ?].
Qed.

Lemma action_name_overwrite (s : Sequence) (m : gmap string Action) :
  should_overwrite options = true →
  sequence_action_name options s m = action_name_prefix options +:+ sequence_name s.
Proof.
  intros Ho. unfold sequence_action_name. rewrite Ho. cbn [andb].
  case_bool_decide as E; [done|]. apply unique_name_free.
  destruct (m !! _); [|done]. destruct E. by eexists.
Qed.

Lemma action_name_fresh (s : Sequence) (m : gmap string Action) :
  should_overwrite options = false → m !! sequence_action_name options s m = None.
Proof.
  intros Ho. unfold sequence_action_name. rewrite Ho. apply unique_name_fresh.
Qed.

Lemma length_import_names m ss : length (names_of m ss) = length ss.
Proof.
  revert m. induction ss as [|s ss IH]; intros m; [done|]. cbn. by rewrite IH.
Qed.

Lemma steps_cons m s ss : steps m (s :: ss) = steps (step m s) ss.
Proof. done. Qed.

(** An action that satisfies [P] keeps satisfying it when every later turn
    that reuses it leaves an action that satisfies [P]. *)
Lemma steps_stable (P : Action → Prop) (n : string) (ss : list Sequence) :
  (∀ s base, s ∈ ss → should_overwrite options = true →
     action_name_prefix options +:+ sequence_name s = n → P (filled s base)) →
  ∀ m a, m !! n = Some a → P a → ∃ a', steps m ss !! n = Some a' ∧ P a'.
Proof.
  induction ss as [|s ss IH]; intros Hland m a Hn HP; [by exists a|].
  rewrite steps_cons.
  assert (∀ s' base, s' ∈ ss → should_overwrite options = true →
            action_name_prefix options +:+ sequence_name s' = n → P (filled s' base)) as Hland'.
  { intros s' base Hs'. apply Hland. by right. }
  unfold import_step.
  destruct (decide (sequence_action_name options s m = n)) as [Heq|Hne].
  - destruct (action_name_existing s m) as [Ho Hname]; [rewrite Heq; by eexists|].
    apply (IH Hland' _ (filled s (sequence_base options s m))).
    + by rewrite Heq, lookup_insert_eq.
    + apply Hland; [by left|done|congruence].
  - apply (IH Hland' _ a); [|done]. by rewrite lookup_insert_ne.
Qed.

(** The action of every turn satisfies what every filled action
    satisfies. *)
Lemma steps_all (P : Action → Prop) (ss : list Sequence) :
  (∀ s base, s ∈ ss → P (filled s base)) →
  ∀ m n, n ∈ names_of m ss → ∃ a, steps m ss !! n = Some a ∧ P a.
Proof.
  induction ss as [|s ss IH]; intros HP m n Hn; [by apply elem_of_nil in Hn|].
  cbn [import_names] in Hn. rewrite steps_cons.
  assert (∀ s' base, s' ∈ ss → P (filled s' base)) as HP'.
  { intros s' base Hs'. apply HP. by right. }
  apply elem_of_cons in Hn as [->|Hn]; [|by apply IH].
  apply (steps_stable P _ ss) with (a := filled s (sequence_base options s m)).
  - intros s' base Hs' _ _. by apply HP'.
  - unfold import_step. by rewrite lookup_insert_eq.
  - apply HP. by left.
Qed.

(** The action of the turn of a sequence satisfies what the filled actions
    of that sequence satisfy, when no other sequence of the batch has its
    name. *)
Lemma steps_at (P : Sequence → Action → Prop) (ss : list Sequence) :
  (∀ s s', s ∈ ss → s' ∈ ss → sequence_name s = sequence_name s' → s = s') →
  (∀ s base, s ∈ ss → P s (filled s base)) →
  ∀ m i s, ss !! i = Some s →
    ∃ n a, names_of m ss !! i = Some n ∧ steps m ss !! n = Some a ∧ P s a.
Proof.
  induction ss as [|s0 ss IH]; intros Hkey HP m i s Hi; [done|].
  rewrite steps_cons.
  assert (∀ s s', s ∈ ss → s' ∈ ss → sequence_name s = sequence_name s' → s = s') as Hkey'.
  { intros s1 s2 H1 H2. apply Hkey; by right. }
  assert (∀ s' base, s' ∈ ss → P s' (filled s' base)) as HP'.
  { intros s' base Hs'. apply HP. by right. }
  destruct i as [|i]; [|by apply IH].
  injection Hi as ->. exists (sequence_action_name options s m). cbn [import_names].
  destruct (steps_stable (P s) (sequence_action_name options s m) ss)
    with (m := step m s) (a := filled s (sequence_base options s m)) as (a' & Ha' & HPa').
  - intros s' base Hs' Ho Hname.
    rewrite (action_name_overwrite s m Ho) in Hname.
    apply (inj (String.app (action_name_prefix options))) in Hname.
    rewrite (Hkey s s'); [apply HP'; done|by left|by right|done].
  - unfold import_step. by rewrite lookup_insert_eq.
  - apply HP. by left.
  - by exists a'.
Qed.

(** Without overwriting, the actions that exist are left as they are and
    the turns work on new names. *)
Lemma steps_keep (ss : list Sequence) :
  should_overwrite options = false →
  ∀ m, m ⊆ steps m ss
       ∧ NoDup (names_of m ss)
       ∧ ∀ n, n ∈ names_of m ss → m !! n = None.
Proof.
  intros Ho. induction ss as [|s ss IH]; intros m.
  - split_and!; [done|constructor|]. by intros n ?%elem_of_nil.
  - rewrite steps_cons. cbn [import_names].
    destruct (IH (step m s)) as (Hsub & Hnd & Hnew).
    assert (m ⊆ step m s) as Hstep.
    { unfold import_step. apply insert_subseteq. by apply action_name_fresh. }
    split_and!.
    + by transitivity (step m s).
    + constructor; [|done]. intros Hin. apply Hnew in Hin.
      unfold import_step in Hin. by rewrite lookup_insert_eq in Hin.
    + intros n Hn. apply elem_of_cons in Hn as [->|Hn]; [by apply action_name_fresh|].
      apply Hnew in Hn. by eapply lookup_weaken_None.
Qed.

(** Without writing keyframes, the f-curves of every action are those it
    had, and a new action has none. *)
Lemma steps_fcurves (ss : list Sequence) :
  should_write_keyframes options = false →
  ∀ m n a', steps m ss !! n = Some a' →
    action_fcurves a' = from_option action_fcurves [] (m !! n).
Proof.
  intros Hw. induction ss as [|s ss IH]; intros m n a' Hn.
  - cbn in Hn. by rewrite Hn.
  - rewrite steps_cons in Hn. rewrite (IH _ _ _ Hn). unfold import_step.
    destruct (decide (sequence_action_name options s m = n)) as [<-|Hne].
    + rewrite lookup_insert_eq. cbn [from_option]. unfold filled_action. rewrite Hw.
      cbn [action_fcurves]. unfold sequence_base, sequence_action_name.
      destruct (should_overwrite options); cbn [andb].
      * case_bool_decide as E.
        -- destruct E as [a ->]. done.
        -- rewrite unique_name_fresh.
           destruct (m !! _) eqn:E'; [destruct E; by eexists|done].
      * by rewrite unique_name_fresh.
    + by rewrite lookup_insert_ne.
Qed.

(** Without writing metadata, the custom properties of every action are
    those it had, and a new action has none. *)
Lemma steps_properties (ss : list Sequence) :
  should_write_metadata options = false →
  ∀ m n a', steps m ss !! n = Some a' →
    id_properties a' = from_option id_properties ∅ (m !! n).
Proof.
  intros Hw. induction ss as [|s ss IH]; intros m n a' Hn.
  - cbn in Hn. by rewrite Hn.
  - rewrite steps_cons in Hn. rewrite (IH _ _ _ Hn). unfold import_step.
    destruct (decide (sequence_action_name options s m = n)) as [<-|Hne].
    + rewrite lookup_insert_eq. cbn [from_option]. unfold filled_action. rewrite Hw.
      cbn [id_properties]. unfold sequence_base, sequence_action_name.
      destruct (should_overwrite options); cbn [andb].
      * case_bool_decide as E.
        -- destruct E as [a ->]. done.
        -- rewrite unique_name_fresh.
           destruct (m !! _) eqn:E'; [destruct E; by eexists|done].
      * by rewrite unique_name_fresh.
    + by rewrite lookup_insert_ne.
Qed.

(** The keys of the actions only grow. *)
Lemma steps_dom (ss : list Sequence) :
  ∀ m n, is_Some (m !! n) → is_Some (steps m ss !! n).
Proof.
  induction ss as [|s ss IH]; intros m n Hn; [done|].
  rewrite steps_cons. apply IH. unfold import_step.
  destruct (decide (sequence_action_name options s m = n)) as [<-|Hne].
  - rewrite lookup_insert_eq. by eexists.
  - by rewrite lookup_insert_ne.
Qed.

End Steps.

Lemma st_for_app {U X T} (xs ys : list X) (body : T → X → St U T) (t : T) (s : U) :
  st_for (xs ++ ys) body t s
  = match st_for xs body t s with
    | (Ok t', s') => st_for ys body t' s'
    | (Raise e, s') => (Raise e, s')
    end.
Proof.
  revert t s. induction xs as [|x xs IH]; intros t s; cbn [app st_for]; [done|].
  unfold st_bind. destruct (body t x s) as [[t'|e] s']; [apply IH|done].
Qed.

Lemma import_psa_unfold (psa_reader : PsaReader) (armature_object : ArmatureObject)
    (options : PsaImportOptions) (w : World) :
  import_psa psa_reader armature_object options w
  = let w1 := mkWorld (bpy_data_actions w) (animation_data w)
                (stdout w ++ reported psa_reader armature_object) in
    match prepare_import_bones psa_reader armature_object with
    | Raise e => (Raise e, w1)
    | Ok import_bones =>
      match
        st_for (sequence_names options)
          (λ state x,
             match sequences psa_reader !! x with
             | Some sequence =>
               import_sequence psa_reader options
                 (build_bone_indices (map bone_name (armature_bones armature_object))
                    (bones psa_reader))
                 state sequence
             | None => st_lift (Raise (KeyError x))
             end)
          (import_bones, []) w1
      with
      | (Raise e, w2) => (Raise e, w2)
      | (Ok state, w2) =>
        (Ok state.2,
         mkWorld (bpy_data_actions w2) (stashed options state.2 (animation_data w2))
           (stdout w2))
      end
    end.
Proof.
  unfold import_psa. unfold st_bind at 1. rewrite report_missing_bones_ok.
  unfold st_bind at 1, st_lift at 1. cbn zeta.
  destruct (prepare_import_bones psa_reader armature_object) as [l|e]; [|done].
  unfold st_bind at 1.
  destruct (st_for _ _ _ _) as [[state|e] w2]; [|done].
  unfold stashed, st_bind, st_ret, stash_actions.
  destruct (should_stash options); [done|]. by destruct w2.
Qed.

(** C7, amended.  When the name [x] is not in the reader's index, the
    import of a batch [pre ++ x :: post] raises KeyError for [x] and leaves
    the host data as the import of [pre] alone (without stashing) leaves
    it: the sequences requested before [x] are processed, [x] and the
    sequences after it are not, and nothing is stashed. *)
Theorem missing_sequence_stops_the_batch
    (psa_reader : PsaReader) (armature_object : ArmatureObject)
    (clean fake stash overwrite keyframes metadata : bool) (prefix : string)
    (pre post : list string) (x : string) (w w' : World) (actions : list string) :
  sequences psa_reader !! x = None →
  import_psa psa_reader armature_object
    (mkPsaImportOptions clean fake false pre overwrite keyframes metadata prefix) w
  = (Ok actions, w') →
  import_psa psa_reader armature_object
    (mkPsaImportOptions clean fake stash (pre ++ x :: post) overwrite keyframes
       metadata prefix) w
  = (Raise (KeyError x), w').
Proof.
  intros Hx. rewrite !import_psa_unfold. cbn [sequence_names].
  destruct (prepare_import_bones psa_reader armature_object) as [l|e]; [|done].
  rewrite st_for_app.
  set (body1 := λ state x0, match sequences psa_reader !! x0 with
                            | Some sequence => import_sequence psa_reader _ _ state sequence
                            | None => st_lift (Raise (KeyError x0))
                            end).
  destruct (st_for pre body1 (l, []) _) as [[state|e] w2]; [|done].
  cbn [st_for]. unfold st_bind at 1. unfold body1 at 1. rewrite Hx.
  unfold st_lift at 1. unfold stashed. cbn [should_stash].
  intros [= _ <-]. by destruct w2.
Qed.

(** ** The requested sequences *)

Lemma requested_sequences_lookup (psa_reader : PsaReader) (names : list string) i x s :
  (∀ y, y ∈ names → is_Some (sequences psa_reader !! y)) →
  names !! i = Some x → sequences psa_reader !! x = Some s →
  requested_sequences psa_reader names !! i = Some s.
Proof.
  revert i. induction names as [|y names IH]; intros i Hall Hi Hs; [done|].
  unfold requested_sequences.
  change (omap ?g (y :: names)) with (from_option (λ z, z :: omap g names) (omap g names) (g y)).
  cbn beta. destruct (Hall y ltac:(left)) as [sy Hsy]. rewrite Hsy. cbn [from_option].
  destruct i as [|i].
  - injection Hi as ->. by rewrite Hs in Hsy.
  - apply IH; [|done..]. intros z Hz. apply Hall. by right.
Qed.

Lemma length_requested_sequences (psa_reader : PsaReader) (names : list string) :
  (∀ y, y ∈ names → is_Some (sequences psa_reader !! y)) →
  length (requested_sequences psa_reader names) = length names.
Proof.
  induction names as [|y names IH]; intros Hall; [done|].
  unfold requested_sequences.
  change (omap ?g (y :: names)) with (from_option (λ z, z :: omap g names) (omap g names) (g y)).
  cbn beta. destruct (Hall y ltac:(left)) as [sy ->]. cbn [from_option length].
  f_equal. apply IH. intros z Hz. apply Hall. by right.
Qed.

Lemma elem_of_requested_sequences (psa_reader : PsaReader) (names : list string) s :
  s ∈ requested_sequences psa_reader names →
  ∃ x, x ∈ names ∧ sequences psa_reader !! x = Some s.
Proof. unfold requested_sequences. by rewrite list_elem_of_omap. Qed.

Lemma requested_sequences_keyed (psa_reader : PsaReader) (names : list string) s s' :
  reader_keyed psa_reader →
  s ∈ requested_sequences psa_reader names →
  s' ∈ requested_sequences psa_reader names →
  sequence_name s = sequence_name s' → s = s'.
Proof.
  intros Hkey Hs Hs' Hname.
  apply elem_of_requested_sequences in Hs as (x & _ & Hx).
  apply elem_of_requested_sequences in Hs' as (x' & _ & Hx').
  pose proof (Hkey x s Hx). pose proof (Hkey x' s' Hx'). congruence.
Qed.

Lemma filled_action_of_sequence options fcs sequence base :
  action_of_sequence options fcs sequence (filled_action options sequence fcs base).
Proof.
  unfold action_of_sequence, filled_action. cbn. split_and!; [done|by intros ->|].
  intros ->. split; [|by rewrite lookup_insert_eq].
  rewrite lookup_insert_ne by done. by rewrite lookup_insert_eq.
Qed.

Lemma steps_dom_inv psa_reader options entries import_bones (ss : list Sequence) :
  ∀ m n, is_Some (import_steps psa_reader options entries import_bones m ss !! n) →
    is_Some (m !! n) ∨ n ∈ import_names psa_reader options entries import_bones m ss.
Proof.
  induction ss as [|s ss IH]; intros m n Hn; [by left|].
  rewrite steps_cons in Hn. cbn [import_names].
  destruct (IH _ _ Hn) as [Hm|Hin]; [|right; by right].
  unfold import_step in Hm.
  destruct (decide (sequence_action_name options s m = n)) as [<-|Hne].
  - right. by left.
  - rewrite lookup_insert_ne in Hm by done. by left.
Qed.

Lemma action_of_sequence_holds options fcs sequence a :
  action_of_sequence options fcs sequence a → action_holds options fcs sequence a.
Proof.
  intros (Hfake & Hfcs & Hmeta). split_and!; [done| |done].
  intros Hw. by rewrite (Hfcs Hw).
Qed.

(** With overwriting, the action of every turn is the one under the
    prefixed name of its sequence. *)
Lemma import_names_lookup_overwrite psa_reader options entries import_bones :
  should_overwrite options = true →
  ∀ ss m j s, ss !! j = Some s →
    import_names psa_reader options entries import_bones m ss !! j
    = Some (action_name_prefix options +:+ sequence_name s).
Proof.
  intros Ho. induction ss as [|s0 ss IH]; intros m j s Hj; [done|].
  destruct j as [|j]; cbn [import_names].
  - injection Hj as ->. cbn. f_equal. by apply action_name_overwrite.
  - by apply IH.
Qed.

(** C6.  An import that runs to its end makes one action per requested
    sequence.  Without [should_overwrite], every action that existed is
    left exactly as it was, and the actions of the import are new ones
    under names that were free (a sequence whose name is taken gets a name
    of its own).  With [should_overwrite], a sequence whose prefixed name
    is that of an action that exists gets that action, which then holds
    the data of the import (its f-curves up to their order); a sequence
    whose prefixed name no action has gets a new action; and no other
    action is made: a new action is that of a sequence whose prefixed name
    no action had. *)
Theorem overwrite_policy
    (psa_reader : PsaReader) (armature_object : ArmatureObject)
    (options : PsaImportOptions) (w : World) :
  import_ready psa_reader armature_object options →
  reader_keyed psa_reader →
  let entries :=
    build_bone_indices (map bone_name (armature_bones armature_object))
      (bones psa_reader) in
  ∃ import_bones actions w',
    prepare_import_bones psa_reader armature_object = Ok import_bones
    ∧ import_psa psa_reader armature_object options w = (Ok actions, w')
    ∧ length actions = length (sequence_names options)
    ∧ (should_overwrite options = false →
         (∀ n a, bpy_data_actions w !! n = Some a → bpy_data_actions w' !! n = Some a)
         ∧ NoDup actions
         ∧ ∀ n, n ∈ actions →
             bpy_data_actions w !! n = None ∧ is_Some (bpy_data_actions w' !! n))
    ∧ (should_overwrite options = true →
         (∀ i x s, sequence_names options !! i = Some x →
            sequences psa_reader !! x = Some s →
            let n := action_name_prefix options +:+ sequence_name s in
            (is_Some (bpy_data_actions w !! n) →
               actions !! i = Some n
               ∧ ∃ a', bpy_data_actions w' !! n = Some a'
                   ∧ action_holds options
                       (imported_fcurves psa_reader options entries import_bones s) s a')
            ∧ (bpy_data_actions w !! n = None →
               ∃ n', actions !! i = Some n'
                 ∧ bpy_data_actions w !! n' = None
                 ∧ is_Some (bpy_data_actions w' !! n')))
         ∧ ∀ n', is_Some (bpy_data_actions w' !! n') →
             is_Some (bpy_data_actions w !! n')
             ∨ ∃ i x s, sequence_names options !! i = Some x
                 ∧ sequences psa_reader !! x = Some s
                 ∧ actions !! i = Some n'
                 ∧ bpy_data_actions w !! (action_name_prefix options +:+ sequence_name s)
                   = None).
Proof.
  intros (Hwf & Hnames & Hready) Hkey entries.
  destruct (import_psa_ok psa_reader armature_object options w Hwf Hnames Hready)
    as (l & Hl & Hrun).
  cbn zeta in Hrun. fold entries in Hrun.
  set (ss := requested_sequences psa_reader (sequence_names options)) in *.
  eexists l, _, _. split; [done|]. split; [exact Hrun|]. cbn [bpy_data_actions].
  split; [rewrite length_import_names; by apply length_requested_sequences|].
  split.
  - intros Ho.
    destruct (steps_keep psa_reader options entries l ss Ho (bpy_data_actions w))
      as (Hsub & Hnd & Hnew).
    split_and!; [|done|].
    + intros n a Ha. by eapply lookup_weaken.
    + intros n Hn. split; [by apply Hnew|].
      destruct (steps_all psa_reader options entries l (λ _, True) ss)
        with (m := bpy_data_actions w) (n := n) as (a & Ha & _); [done|done|].
      by eexists.
  - intros Ho.
    assert (∀ i x s, sequence_names options !! i = Some x →
              sequences psa_reader !! x = Some s →
              ∃ a, import_names psa_reader options entries l (bpy_data_actions w) ss !! i
                   = Some (action_name_prefix options +:+ sequence_name s)
                 ∧ import_steps psa_reader options entries l (bpy_data_actions w) ss
                     !! (action_name_prefix options +:+ sequence_name s) = Some a
                 ∧ action_of_sequence options
                     (imported_fcurves psa_reader options entries l s) s a) as Hturn.
    { intros i x s Hi Hs.
      pose proof (requested_sequences_lookup psa_reader _ i x s Hnames Hi Hs) as Hss.
      destruct (steps_at psa_reader options entries l
                  (λ s a, action_of_sequence options
                            (imported_fcurves psa_reader options entries l s) s a) ss)
        with (m := bpy_data_actions w) (i := i) (s := s) as (n' & a & Hn' & Ha & HP);
        [intros s1 s2; by apply requested_sequences_keyed| |done|].
      { intros s' base _. apply filled_action_of_sequence. }
      pose proof (import_names_lookup_overwrite psa_reader options entries l Ho
                    ss (bpy_data_actions w) i s Hss) as Hname.
      rewrite Hname in Hn'. injection Hn' as <-. by exists a. }
    split.
    + intros i x s Hi Hs.
      destruct (Hturn i x s Hi Hs) as (a & Hn & Ha & HP). split.
      * intros _. split; [done|]. exists a. split; [done|].
        by apply action_of_sequence_holds.
      * intros Hnone. eexists. split_and!; [exact Hn|done|by eexists].
    + intros n' Hn'. apply steps_dom_inv in Hn' as [Hold|Hin]; [by left|].
      destruct (bpy_data_actions w !! n') as [a0|] eqn:Hw0; [left; by eexists|].
      right. apply list_elem_of_lookup in Hin as [i Hi].
      assert (i < length (sequence_names options)) as Hlt.
      { apply lookup_lt_Some in Hi. rewrite length_import_names in Hi.
        unfold ss in Hi. by rewrite length_requested_sequences in Hi. }
      apply lookup_lt_is_Some in Hlt as [x Hx].
      destruct (Hnames x) as [s Hs]; [by eapply list_elem_of_lookup_2|].
      destruct (Hturn i x s Hx Hs) as (a & Hn & _).
      rewrite Hn in Hi. injection Hi as <-. by exists i, x, s.
Qed.

(** C10.  Without [should_write_keyframes], an import whose requested
    names the reader has makes an action for every requested sequence (a
    new one without [should_overwrite]; with it, the one under the
    prefixed name of the sequence when there is one) and sets its
    fake-user flag as the options say.  With [should_write_metadata] it
    sets the two properties of the metadata to the name and the frame rate
    of the sequence; without it every action that existed keeps its
    custom properties as they were and the new actions have none.  Every
    action that existed keeps its f-curves with their keyframes, and the
    new actions have none. *)
Theorem no_keyframes_leaves_fcurves
    (psa_reader : PsaReader) (armature_object : ArmatureObject)
    (options : PsaImportOptions) (w : World) :
  should_write_keyframes options = false →
  import_ready psa_reader armature_object options →
  reader_keyed psa_reader →
  ∃ actions w',
    import_psa psa_reader armature_object options w = (Ok actions, w')
    ∧ length actions = length (sequence_names options)
    ∧ (∀ i x s, sequence_names options !! i = Some x →
         sequences psa_reader !! x = Some s →
         ∃ n a, actions !! i = Some n
           ∧ bpy_data_actions w' !! n = Some a
           ∧ use_fake_user a = should_use_fake_user options
           ∧ (should_write_metadata options = true →
                id_properties a !! "psa_sequence_name" = Some (PString (sequence_name s))
                ∧ id_properties a !! "psa_sequence_fps" = Some (PFloat (fps s)))
           ∧ (should_overwrite options = true →
              is_Some (bpy_data_actions w
                         !! (action_name_prefix options +:+ sequence_name s)) →
              n = action_name_prefix options +:+ sequence_name s)
           ∧ (should_overwrite options = false → bpy_data_actions w !! n = None))
    ∧ (∀ n a, bpy_data_actions w !! n = Some a →
         ∃ a', bpy_data_actions w' !! n = Some a'
           ∧ action_fcurves a' = action_fcurves a
           ∧ (should_write_metadata options = false →
              id_properties a' = id_properties a))
    ∧ (∀ n a', bpy_data_actions w' !! n = Some a' → bpy_data_actions w !! n = None →
         action_fcurves a' = []
         ∧ (should_write_metadata options = false → id_properties a' = ∅)).
Proof.
  intros Hw (Hwf & Hnames & Hready) Hkey.
  destruct (import_psa_ok psa_reader armature_object options w Hwf Hnames Hready)
    as (l & Hl & Hrun).
  cbn zeta in Hrun.
  set (entries := build_bone_indices _ _) in *.
  set (ss := requested_sequences psa_reader (sequence_names options)) in *.
  eexists _, _. split; [exact Hrun|]. cbn [bpy_data_actions]. split_and!.
  - rewrite length_import_names. by apply length_requested_sequences.
  - intros i x s Hi Hs.
    pose proof (requested_sequences_lookup psa_reader _ i x s Hnames Hi Hs) as Hss.
    destruct (steps_at psa_reader options entries l
                (λ s a, action_of_sequence options
                          (imported_fcurves psa_reader options entries l s) s a) ss)
      with (m := bpy_data_actions w) (i := i) (s := s) as (n & a & Hn & Ha & HP);
      [intros s1 s2; by apply requested_sequences_keyed| |done|].
    { intros s' base _. apply filled_action_of_sequence. }
    destruct HP as (Hfake & _ & Hmeta). exists n, a. split_and!; [done..| |].
    + intros Ho _.
      pose proof (import_names_lookup_overwrite psa_reader options entries l Ho
                    ss (bpy_data_actions w) i s Hss) as Hname.
      fold ss in Hn. rewrite Hname in Hn. by injection Hn.
    + intros Ho.
      destruct (steps_keep psa_reader options entries l ss Ho (bpy_data_actions w))
        as (_ & _ & Hnew).
      apply Hnew. by eapply list_elem_of_lookup_2.
  - intros n a Ha.
    destruct (steps_dom psa_reader options entries l ss (bpy_data_actions w) n)
      as [a' Ha']; [by eexists|].
    exists a'. split_and!; [done| |].
    + rewrite (steps_fcurves psa_reader options entries l ss Hw _ _ _ Ha'). by rewrite Ha.
    + intros Hm.
      rewrite (steps_properties psa_reader options entries l ss Hm _ _ _ Ha').
      by rewrite Ha.
  - intros n a' Ha' Hnone. split.
    + rewrite (steps_fcurves psa_reader options entries l ss Hw _ _ _ Ha').
      by rewrite Hnone.
    + intros Hm.
      rewrite (steps_properties psa_reader options entries l ss Hm _ _ _ Ha').
      by rewrite Hnone.
Qed.

(** The f-curves of a sequence are those of the mapped bones. *)
Lemma elem_of_sequence_fcurves entries import_bones clean t frame_count M fc :
  fc ∈ sequence_fcurves entries import_bones clean t frame_count M
  ↔ ∃ i b c, i ∈ entries.*1 ∧ import_bones !! i = Some (Some b) ∧ c < 7
      ∧ fc = channel_fcurve (pose_bone b)
               (channel_keyframes import_bones clean t frame_count M i) c.
Proof.
  unfold sequence_fcurves. rewrite list_elem_of_In, in_flat_map. split.
  - intros (i & Hi & Hfc). apply list_elem_of_In in Hi, Hfc.
    destruct (import_bones !! i) as [[b|]|] eqn:Hb; cbn -[bone_fcurves] in Hfc;
      [|by apply elem_of_nil in Hfc..].
    unfold bone_fcurves in Hfc. apply list_elem_of_fmap in Hfc as (c & -> & Hc).
    apply elem_of_seq in Hc. exists i, b, c. split_and!; [done|done|lia|done].
  - intros (i & b & c & Hi & Hb & Hc & ->). exists i. split; [by apply list_elem_of_In|].
    rewrite Hb. cbn -[bone_fcurves]. apply list_elem_of_In. unfold bone_fcurves.
    apply list_elem_of_fmap. exists c. split; [done|]. apply elem_of_seq. lia.
Qed.

Lemma channel_keyframes_all import_bones t frame_count M i c :
  channel_keyframes import_bones false t frame_count M i c
  = map (λ f, (f, converted_item import_bones frame_count M f i c)) (seq 0 frame_count).
Proof.
  unfold channel_keyframes, channel_mark. generalize (seq 0 frame_count). intros l.
  induction l as [|f l IH]; [done|]. cbn. by rewrite IH.
Qed.

(** C9.  With keyframe cleaning off and keyframe writing on, for every
    requested sequence the action of the sequence has, for every mapped
    bone and every one of its seven channels, an f-curve that holds a
    keyframe for every frame of the sequence, with the local-space value of
    the frame; the write matrix marks every one of these frames. *)
Theorem every_frame_written_without_cleaning
    (psa_reader : PsaReader) (armature_object : ArmatureObject)
    (options : PsaImportOptions) (w : World) :
  should_clean_keys options = false →
  should_write_keyframes options = true →
  import_ready psa_reader armature_object options →
  reader_keyed psa_reader →
  ∃ import_bones actions w',
    prepare_import_bones psa_reader armature_object = Ok import_bones
    ∧ import_psa psa_reader armature_object options w = (Ok actions, w')
    ∧ ∀ i x s, sequence_names options !! i = Some x →
        sequences psa_reader !! x = Some s →
        ∃ n a M D W,
          actions !! i = Some n
          ∧ bpy_data_actions w' !! n = Some a
          ∧ read_sequence_data_matrix psa_reader (sequence_name s) = Ok M
          ∧ convert_matrix import_bones (frame_count s) M = Ok D
          ∧ make_write_matrix false threshold_default import_bones D = Ok W
          ∧ ∀ b import_bone c, import_bones !! b = Some (Some import_bone) → c < 7 →
              (∀ f, f < frame_count s → nd_get W f b c = Ok true)
              ∧ ∃ fc, fc ∈ action_fcurves a
                  ∧ data_path fc = path_from_id (pose_bone import_bone) (channel_property c)
                  ∧ array_index fc = channel_index c
                  ∧ keyframe_points fc
                    = map (λ f, (f, item D f b c)) (seq 0 (frame_count s)).
Proof.
  intros Hclean Hw (Hwf & Hnames & Hready) Hkey.
  destruct (import_psa_ok psa_reader armature_object options w Hwf Hnames Hready)
    as (l & Hl & Hrun).
  cbn zeta in Hrun.
  set (entries := build_bone_indices _ _) in *.
  set (ss := requested_sequences psa_reader (sequence_names options)) in *.
  destruct (Hready Hw) as [Hnd Hseq].
  pose proof (prepared_entries_ok psa_reader armature_object l Hwf Hnd Hl)
    as (_ & Hiff & _). fold entries in Hiff.
  destruct (prepare_import_bones_ok psa_reader armature_object Hwf) as (l' & Hl' & Hlen & _).
  rewrite Hl in Hl'. injection Hl' as <-.
  eexists l, _, _. split; [done|]. split; [exact Hrun|]. cbn [bpy_data_actions].
  intros i x s Hi Hs.
  pose proof (requested_sequences_lookup psa_reader _ i x s Hnames Hi Hs) as Hss.
  destruct (steps_at psa_reader options entries l
              (λ s a, action_of_sequence options
                        (imported_fcurves psa_reader options entries l s) s a) ss)
    with (m := bpy_data_actions w) (i := i) (s := s) as (n & a & Hn & Ha & HP);
    [intros s1 s2; by apply requested_sequences_keyed| |done|].
  { intros s' base _. apply filled_action_of_sequence. }
  destruct HP as (_ & Hfc & _). specialize (Hfc Hw).
  destruct (Hseq x s) as (M & Hread & HF & HB & HC);
    [by eapply list_elem_of_lookup_2|done|].
  destruct (convert_matrix_ok l (frame_count s) M) as (D & HD & (HDF & HDB & HDC) & HDi);
    [lia|done|lia|].
  exists n, a, M, D, (nd_ones D). split_and!; [done..|].
  intros b ib c Hb Hc. split.
  - intros f Hf. apply nd_get_ok; cbn [nd_ones nframes nbones nchannels]; [lia| |lia].
    apply lookup_lt_Some in Hb. lia.
  - exists (channel_fcurve (pose_bone ib)
              (channel_keyframes l false threshold_default (frame_count s) M b) c).
    split_and!; [|done|done|].
    + rewrite Hfc. unfold imported_fcurves, sequence_matrix. rewrite Hread, Hclean.
      apply elem_of_sequence_fcurves. exists b, ib, c. split_and!; [|done..].
      apply Hiff. by exists ib.
    + cbn [channel_fcurve keyframe_points]. rewrite channel_keyframes_all.
      apply map_ext. intros f. by rewrite HDi.
Qed.

Lemma elem_of_missing_bone_names psa_bone_names armature_bone_names n :
  n ∈ missing_bone_names psa_bone_names armature_bone_names
  ↔ n ∈ psa_bone_names ∧ n ∉ armature_bone_names.
Proof.
  unfold missing_bone_names. rewrite merge_sort_Permutation.
  rewrite list_elem_of_filter, elem_of_remove_dups. naive_solver.
Qed.

End ImportFacts.

(** ** A concrete file, armature and scene *)

Lemma wf_pelvis_only_armature : wf_armature pelvis_only_armature.
Proof.
  intros b Hb. cbn in Hb. apply list_elem_of_singleton in Hb as ->.
  split; [done|]. by intros [? ?].
Qed.

Lemma walk_reader_sequences x s :
  sequences walk_reader !! x = Some s → x = "Walk" ∧ s = walk_sequence.
Proof.
  unfold walk_reader, two_bone_reader. cbn [sequences].
  intros [Hx Hs]%lookup_singleton_Some. by subst.
Qed.

Lemma walk_reader_keyed : reader_keyed walk_reader.
Proof. intros x s Hs. by apply walk_reader_sequences in Hs as [-> ->]. Qed.

Lemma walk_ready (armature_object : ArmatureObject) (options : PsaImportOptions) :
  wf_armature armature_object →
  sequence_names options = ["Walk"] →
  import_ready walk_reader armature_object options.
Proof.
  intros Hwf Hnames. split_and!; [done| |].
  - rewrite Hnames. intros x ->%list_elem_of_singleton. by eexists.
  - intros _. split.
    + cbn. apply NoDup_cons. split; [set_solver|]. apply NoDup_singleton.
    + intros x s _ Hs. apply walk_reader_sequences in Hs as [-> ->].
      exists walk_matrix. by split_and!.
Qed.

(** The scenario of a name collision: the new action is "Walk.001". *)
Lemma import_makes_walk_001 :
  (import_psa (R := hamilton) walk_reader two_bone_armature
     (walk_options true false true ["Walk"]) walk_world).1
  = Ok ["Walk.001"].
Proof. by vm_compute. Qed.

(** The same scenario with [should_overwrite]: the import works on the
    action "Walk" and makes no other. *)
Lemma import_reuses_walk :
  let r := import_psa (R := hamilton) walk_reader two_bone_armature
             (walk_options true true true ["Walk"]) walk_world in
  r.1 = Ok ["Walk"] ∧ (map_to_list (bpy_data_actions r.2)).*1 = ["Walk"].
Proof. by vm_compute. Qed.

Lemma overwrite_policy_witness :
  import_ready walk_reader two_bone_armature (walk_options true false true ["Walk"])
  ∧ reader_keyed walk_reader
  ∧ ∃ actions w',
      import_psa (R := hamilton) walk_reader two_bone_armature
        (walk_options true false true ["Walk"]) walk_world = (Ok actions, w')
      ∧ length actions = 1
      ∧ NoDup actions
      ∧ (∀ n, n ∈ actions → bpy_data_actions walk_world !! n = None)
      ∧ bpy_data_actions w' !! "Walk" = Some old_walk.
Proof.
  pose proof (walk_ready two_bone_armature (walk_options true false true ["Walk"])
                wf_two_bone_armature eq_refl) as Hready.
  split; [exact Hready|]. split; [exact walk_reader_keyed|].
  destruct (overwrite_policy (R := hamilton) walk_reader two_bone_armature
              (walk_options true false true ["Walk"]) walk_world Hready walk_reader_keyed)
    as (l & acts & w' & _ & Hrun & Hlen & Hkeep & _).
  destruct (Hkeep eq_refl) as (Hold & Hnd & Hnew).
  exists acts, w'. split_and!; [exact Hrun|exact Hlen|exact Hnd| |].
  - intros n Hn. exact (proj1 (Hnew n Hn)).
  - apply Hold. reflexivity.
Defined.

(** C7, as stated, fails: with the names "Nope" and "Walk" requested, of
    which the reader has "Walk" only, the import raises at "Nope" and no
    action is made for "Walk". *)
Lemma missing_sequence_blocks_later_ones :
  let r := import_psa (R := hamilton) walk_reader two_bone_armature
             (walk_options true false true ["Nope"; "Walk"]) empty_world in
  sequences walk_reader !! "Walk" = Some walk_sequence
  ∧ r.1 = Raise (KeyError "Nope")
  ∧ bpy_data_actions r.2 = ∅.
Proof. by vm_compute. Qed.

Lemma missing_sequence_stops_the_batch_witness :
  sequences walk_reader !! "Nope" = None
  ∧ import_psa (R := hamilton) walk_reader two_bone_armature
      (mkPsaImportOptions true false true (["Walk"] ++ "Nope" :: ["Walk"])
         false true true "") empty_world
    = (Raise (KeyError "Nope"),
       (import_psa (R := hamilton) walk_reader two_bone_armature
          (mkPsaImportOptions true false false ["Walk"] false true true "")
          empty_world).2).
Proof.
  split; [reflexivity|].
  apply (missing_sequence_stops_the_batch (R := hamilton) walk_reader two_bone_armature
           true false true false true true "" ["Walk"] ["Walk"] "Nope"
           empty_world _ ["Walk"]).
  - reflexivity.
  - vm_compute. reflexivity.
Defined.

Lemma no_keyframes_leaves_fcurves_witness :
  import_ready walk_reader two_bone_armature (walk_options true true false ["Walk"])
  ∧ reader_keyed walk_reader
  ∧ ∃ actions w',
      import_psa (R := hamilton) walk_reader two_bone_armature
        (walk_options true true false ["Walk"]) walk_world = (Ok actions, w')
      ∧ ∃ a', bpy_data_actions w' !! "Walk" = Some a'
          ∧ action_fcurves a' = action_fcurves old_walk.
Proof.
  pose proof (walk_ready two_bone_armature (walk_options true true false ["Walk"])
                wf_two_bone_armature eq_refl) as Hready.
  split; [exact Hready|]. split; [exact walk_reader_keyed|].
  destruct (no_keyframes_leaves_fcurves (R := hamilton) walk_reader two_bone_armature
              (walk_options true true false ["Walk"]) walk_world eq_refl Hready
              walk_reader_keyed)
    as (acts & w' & Hrun & _ & _ & Hkeep & _).
  exists acts, w'. split; [exact Hrun|].
  destruct (Hkeep "Walk" old_walk eq_refl) as (a' & Ha' & Hfcs & _).
  by exists a'.
Defined.

Lemma every_frame_written_without_cleaning_witness :
  import_ready walk_reader two_bone_armature (walk_options false false true ["Walk"])
  ∧ reader_keyed walk_reader
  ∧ ∃ actions w',
      import_psa (R := hamilton) walk_reader two_bone_armature
        (walk_options false false true ["Walk"]) empty_world = (Ok actions, w')
      ∧ ∃ n a fc, actions !! 0 = Some n
          ∧ bpy_data_actions w' !! n = Some a
          ∧ fc ∈ action_fcurves a
          ∧ data_path fc = ("pelvis", location)
          ∧ array_index fc = 0
          ∧ map fst (keyframe_points fc) = [0; 1; 2].
Proof.
  pose proof (walk_ready two_bone_armature (walk_options false false true ["Walk"])
                wf_two_bone_armature eq_refl) as Hready.
  split; [exact Hready|]. split; [exact walk_reader_keyed|].
  destruct (every_frame_written_without_cleaning (R := hamilton) walk_reader
              two_bone_armature (walk_options false false true ["Walk"]) empty_world
              eq_refl eq_refl Hready walk_reader_keyed)
    as (l & acts & w' & Hl & Hrun & Hall).
  exists acts, w'. split; [exact Hrun|].
  destruct (Hall 0 "Walk" walk_sequence eq_refl eq_refl)
    as (n & a & M & D & W & Hn & Ha & _ & _ & _ & Hcurves).
  vm_compute in Hl. injection Hl as <-.
  destruct (Hcurves 0 _ 4 eq_refl ltac:(lia)) as (_ & fc & Hfc & Hpath & Hidx & Hpoints).
  exists n, a, fc. split_and!; [exact Hn|exact Ha|exact Hfc|exact Hpath|exact Hidx|].
  rewrite Hpoints. reflexivity.
Defined.

(** * Further facts about the import *)

Section MoreImportFacts.
Context {R : Rotate}.

(** ** Stashing, and what the import leaves alone *)

Lemma numbered_strip_name_fresh fuel k name (used : list string) :
  numbered_strip_name fuel k name used ∉ used.
Proof.
  revert k. induction fuel as [|fuel IH]; intros k; cbn [numbered_strip_name].
  - intros Hin. apply (fresh_string_of_set_fresh (list_to_set used) name).
    by apply elem_of_list_to_set.
  - case_bool_decide; [apply IH|done].
Qed.

Lemma unique_strip_name_fresh name (used : list string) :
  unique_strip_name name used ∉ used.
Proof.
  unfold unique_strip_name. case_bool_decide; [apply numbered_strip_name_fresh|done].
Qed.

Lemma unique_strip_name_free name (used : list string) :
  name ∉ used → unique_strip_name name used = name.
Proof. intros Hfree. unfold unique_strip_name. by rewrite bool_decide_eq_false_2. Qed.

(** The tracks that stashing adds, one per action, each with its strip. *)
Lemma stash_actions_tracks (actions : list string) :
  ∀ tracks,
    ∃ new_tracks,
      foldl stash_action tracks actions = tracks ++ new_tracks
      ∧ length new_tracks = length actions
      ∧ ∀ i n, actions !! i = Some n →
          ∃ strip,
            new_tracks !! i = Some (mkNlaTrack n true [strip])
            ∧ strip_start strip = 0
            ∧ strip_action strip = n
            ∧ (strip_name strip ∉ strip_names (tracks ++ take i new_tracks))
            ∧ (n ∉ strip_names (tracks ++ take i new_tracks) → strip_name strip = n).
Proof.
  induction actions as [|action actions IH]; intros tracks.
  - exists []. by rewrite app_nil_r.
  - cbn [foldl]. destruct (IH (stash_action tracks action)) as (rest & Hfold & Hlen & Hall).
    rewrite Hfold. clear Hfold. unfold stash_action in *.
    set (strip := mkNlaStrip (unique_strip_name action (strip_names tracks)) 0 action) in *.
    exists (mkNlaTrack action true [strip] :: rest). split_and!.
    + by rewrite <- app_assoc.
    + cbn [length]. by rewrite Hlen.
    + intros [|i] n Hn.
      * injection Hn as <-. exists strip. cbn [take]. rewrite app_nil_r.
        split_and!; [done..|apply unique_strip_name_fresh|apply unique_strip_name_free].
      * destruct (Hall i n Hn) as (strip' & Hi & Hstart & Haction & Hfresh & Hfree).
        exists strip'. cbn [take]. rewrite <- app_assoc in Hfresh, Hfree.
        by split_and!.
Qed.

(** X1.  Stashing (lines 209-217).  An import that runs to its end leaves
    the animation data of the armature object as they were when
    [should_stash] is off.  When it is on, the animation data exist
    afterwards (they are created when the object had none, also when no
    sequence was requested), the tracks that were there are kept, and one
    track is added per action of the import, in order: muted, named as the
    action, with one strip that starts at frame 0 and holds the action.
    The strip has the name of the action when no strip of the animation
    data has that name yet; in every case its name is one that no strip
    before it has. *)
Theorem stash_adds_one_track_per_action
    (psa_reader : PsaReader) (armature_object : ArmatureObject)
    (options : PsaImportOptions) (w : World) :
  import_ready psa_reader armature_object options →
  ∃ actions w',
    import_psa psa_reader armature_object options w = (Ok actions, w')
    ∧ length actions = length (sequence_names options)
    ∧ (should_stash options = false → animation_data w' = animation_data w)
    ∧ (should_stash options = true →
         ∃ tracks,
           animation_data w' = Some (default [] (animation_data w) ++ tracks)
           ∧ length tracks = length actions
           ∧ ∀ i n, actions !! i = Some n →
               ∃ strip,
                 tracks !! i = Some (mkNlaTrack n true [strip])
                 ∧ strip_start strip = 0
                 ∧ strip_action strip = n
                 ∧ let earlier :=
                     strip_names (default [] (animation_data w) ++ take i tracks) in
                   (strip_name strip ∉ earlier)
                   ∧ (n ∉ earlier → strip_name strip = n)).
Proof.
  intros (Hwf & Hnames & Hready).
  destruct (import_psa_ok psa_reader armature_object options w Hwf Hnames Hready)
    as (l & Hl & Hrun).
  cbn zeta in Hrun. eexists _, _. split; [exact Hrun|].
  cbn [animation_data]. unfold stashed. split_and!.
  - rewrite length_import_names. by apply length_requested_sequences.
  - by intros ->.
  - intros ->.
    match goal with
    | |- context [foldl stash_action ?tracks ?actions] =>
      destruct (stash_actions_tracks actions tracks) as (new_tracks & Hfold & Hlen & Hall)
    end.
    exists new_tracks. split_and!; [by rewrite Hfold|done|].
    intros i n Hn. destruct (Hall i n Hn) as (strip & ? & ? & ? & ? & ?).
    by exists strip.
Qed.

(** X2.  Whatever the options, an import that runs to its end leaves
    every action that existed exactly as it was, unless its name is the
    prefixed name of a requested sequence. *)
Theorem import_leaves_other_actions
    (psa_reader : PsaReader) (armature_object : ArmatureObject)
    (options : PsaImportOptions) (w : World) :
  import_ready psa_reader armature_object options →
  ∃ actions w',
    import_psa psa_reader armature_object options w = (Ok actions, w')
    ∧ ∀ n a, bpy_data_actions w !! n = Some a →
        (∀ x s, x ∈ sequence_names options → sequences psa_reader !! x = Some s →
           n ≠ action_name_prefix options +:+ sequence_name s) →
        bpy_data_actions w' !! n = Some a.
Proof.
  intros (Hwf & Hnames & Hready).
  destruct (import_psa_ok psa_reader armature_object options w Hwf Hnames Hready)
    as (l & Hl & Hrun).
  cbn zeta in Hrun. set (entries := build_bone_indices _ _) in *.
  eexists _, _. split; [exact Hrun|].
  cbn [bpy_data_actions]. intros n a Ha Hother.
  destruct (steps_stable psa_reader options entries l (λ a', a' = a) n
              (requested_sequences psa_reader (sequence_names options)))
    with (m := bpy_data_actions w) (a := a) as (a' & Ha' & ->); [|done|done|done].
  intros s base Hs _ Hn.
  apply elem_of_requested_sequences in Hs as (x & Hx & Hs).
  by destruct (Hother x s Hx Hs).
Qed.

(** X3.  An import that runs to its end keeps every custom property of an
    action that existed, apart from the two keys of the metadata; without
    [should_write_metadata] it leaves the custom properties of every such
    action as they were. *)
Theorem import_keeps_other_custom_properties
    (psa_reader : PsaReader) (armature_object : ArmatureObject)
    (options : PsaImportOptions) (w : World) :
  import_ready psa_reader armature_object options →
  ∃ actions w',
    import_psa psa_reader armature_object options w = (Ok actions, w')
    ∧ ∀ n a key, bpy_data_actions w !! n = Some a →
        key ≠ "psa_sequence_name" → key ≠ "psa_sequence_fps" →
        ∃ a', bpy_data_actions w' !! n = Some a'
          ∧ id_properties a' !! key = id_properties a !! key
          ∧ (should_write_metadata options = false →
               id_properties a' = id_properties a).
Proof.
  intros (Hwf & Hnames & Hready).
  destruct (import_psa_ok psa_reader armature_object options w Hwf Hnames Hready)
    as (l & Hl & Hrun).
  cbn zeta in Hrun. set (entries := build_bone_indices _ _) in *.
  eexists _, _. split; [exact Hrun|].
  cbn [bpy_data_actions]. intros n a key Ha Hname Hfps.
  set (P := λ a' : Action,
         id_properties a' !! key = id_properties a !! key
         ∧ (should_write_metadata options = false → id_properties a' = id_properties a)).
  assert (∀ m a0, m !! n = Some a0 → P a0 →
            ∀ ss, ∃ a', import_steps psa_reader options entries l m ss !! n = Some a'
                        ∧ P a') as Hinv.
  { intros m a0 Hm HP ss. revert m a0 Hm HP.
    induction ss as [|s ss IH]; intros m a0 Hm HP; [by exists a0|].
    rewrite steps_cons. unfold import_step.
    destruct (decide (sequence_action_name options s m = n)) as [Heq|Hne].
    - destruct (action_name_existing options s m) as [Ho Hn]; [rewrite Heq; by eexists|].
      eapply IH; [by rewrite Heq, lookup_insert_eq|].
      unfold sequence_base. rewrite Ho, <- Hn, Heq, Hm. cbn [default from_option id].
      destruct HP as [HP1 HP2]. unfold P, filled_action. cbn [id_properties].
      destruct (should_write_metadata options); [|by split].
      split; [|done]. by rewrite !lookup_insert_ne by done.
    - eapply IH; [|exact HP]. by rewrite lookup_insert_ne. }
  destruct (Hinv (bpy_data_actions w) a Ha ltac:(by split)
              (requested_sequences psa_reader (sequence_names options)))
    as (a' & Ha' & HP1 & HP2).
  by exists a'.
Qed.

(** ** Importing again *)

Lemma filled_action_idem options s fcs base :
  filled_action options s fcs (filled_action options s fcs base)
  = filled_action options s fcs base.
Proof.
  unfold filled_action. cbn [action_fcurves id_properties use_fake_user]. f_equal.
  - by destruct (should_write_keyframes options).
  - destruct (should_write_metadata options); [|done].
    apply map_eq. intros k.
    destruct (decide (k = "psa_sequence_fps")) as [->|Hfps].
    { by rewrite !lookup_insert_eq. }
    destruct (decide (k = "psa_sequence_name")) as [->|Hname].
    { rewrite !(lookup_insert_ne _ "psa_sequence_fps") by done.
      by rewrite !lookup_insert_eq. }
    by repeat rewrite lookup_insert_ne by done.
Qed.

Lemma import_names_overwrite psa_reader options entries import_bones ss :
  should_overwrite options = true →
  ∀ m, import_names psa_reader options entries import_bones m ss
       = map (λ s, action_name_prefix options +:+ sequence_name s) ss.
Proof.
  intros Ho. induction ss as [|s ss IH]; intros m; [done|].
  cbn [import_names map]. by rewrite IH, (action_name_overwrite options s m Ho).
Qed.

(** Turns that land on actions they have filled before change nothing. *)
Lemma steps_fixed psa_reader options entries import_bones ss :
  should_overwrite options = true →
  ∀ m,
    (∀ s, s ∈ ss →
       ∃ a, m !! (action_name_prefix options +:+ sequence_name s) = Some a
            ∧ filled_action options s
                (imported_fcurves psa_reader options entries import_bones s) a = a) →
    import_steps psa_reader options entries import_bones m ss = m.
Proof.
  intros Ho. induction ss as [|s ss IH]; intros m Hfix; [done|].
  rewrite steps_cons.
  assert (import_step psa_reader options entries import_bones m s = m) as ->.
  { destruct (Hfix s ltac:(left)) as (a & Ha & Hfa).
    unfold import_step. rewrite (action_name_overwrite options s m Ho).
    unfold sequence_base. rewrite Ho, Ha. cbn [default from_option id]. rewrite Hfa.
    by apply insert_id. }
  apply IH. intros s' Hs'. apply Hfix. by right.
Qed.

(** X4.  With [should_overwrite], and prefixed sequence names that
    Blender keeps as the names of actions (not empty, at most 63 bytes),
    importing the same sequences a second time returns the same actions
    and leaves [bpy.data.actions] as the first import left it: nothing is
    duplicated and no f-curve or keyframe accumulates. *)
Theorem reimport_with_overwrite_changes_nothing
    (psa_reader : PsaReader) (armature_object : ArmatureObject)
    (options : PsaImportOptions) (w : World) :
  should_overwrite options = true →
  import_ready psa_reader armature_object options →
  reader_keyed psa_reader →
  (∀ x s, x ∈ sequence_names options → sequences psa_reader !! x = Some s →
     kept_name (action_name_prefix options +:+ sequence_name s)) →
  ∃ actions w1 w2,
    import_psa psa_reader armature_object options w = (Ok actions, w1)
    ∧ import_psa psa_reader armature_object options w1 = (Ok actions, w2)
    ∧ bpy_data_actions w2 = bpy_data_actions w1.
Proof.
  intros Ho (Hwf & Hnames & Hready) Hkey _.
  destruct (import_psa_ok psa_reader armature_object options w Hwf Hnames Hready)
    as (l & Hl & Hrun).
  cbn zeta in Hrun. set (entries := build_bone_indices _ _) in *.
  set (ss := requested_sequences psa_reader (sequence_names options)) in *.
  match type of Hrun with _ = (_, ?x) => set (w1 := x) in * end.
  eexists _, w1. rewrite Hrun.
  destruct (import_psa_ok psa_reader armature_object options w1 Hwf Hnames Hready)
    as (l' & Hl' & Hrun').
  rewrite Hl in Hl'. injection Hl' as <-.
  cbn zeta in Hrun'. fold entries ss in Hrun'.
  eexists. split; [done|]. rewrite Hrun'.
  rewrite !(import_names_overwrite _ _ _ _ _ Ho). split; [done|].
  cbn [bpy_data_actions]. subst w1. cbn [bpy_data_actions].
  apply steps_fixed; [done|]. intros s Hs.
  apply list_elem_of_lookup in Hs as [i Hi].
  destruct (steps_at psa_reader options entries l
              (λ s a, filled_action options s
                        (imported_fcurves psa_reader options entries l s) a = a) ss)
    with (m := bpy_data_actions w) (i := i) (s := s) as (n & a & Hn & Ha & HP);
    [intros s1 s2; by apply requested_sequences_keyed| |done|].
  { intros s' base _. apply filled_action_idem. }
  rewrite (import_names_overwrite _ _ _ _ _ Ho), list_lookup_fmap, Hi in Hn.
  injection Hn as <-. by exists a.
Qed.

(** ** The keyframes of an imported action *)

Lemma flat_map_guard_sublist {A B} (g : A → bool) (h : A → B) (xs : list A) :
  flat_map (λ x, if g x then [h x] else []) xs `sublist_of` map h xs.
Proof.
  induction xs as [|x xs IH]; [done|]. cbn [flat_map map].
  destruct (g x); cbn [app]; by constructor.
Qed.

Lemma channel_keyframes_sublist import_bones clean t frame_count M i c :
  channel_keyframes import_bones clean t frame_count M i c
  `sublist_of` map (λ f, (f, converted_item import_bones frame_count M f i c))
                 (seq 0 frame_count).
Proof. unfold channel_keyframes. apply flat_map_guard_sublist. Qed.

Lemma channel_mark_frame_zero import_bones clean t frame_count M i c :
  channel_mark import_bones clean t frame_count M i c 0 = true.
Proof.
  unfold channel_mark. destruct clean; [|done].
  rewrite marks_from_frame_zero. by destruct (channel_values _ _ _ _ _).
Qed.

Lemma channel_keyframes_head import_bones clean t frame_count M i c :
  0 < frame_count →
  head (channel_keyframes import_bones clean t frame_count M i c)
  = Some (0, converted_item import_bones frame_count M 0 i c).
Proof.
  intros Hn. unfold channel_keyframes.
  destruct frame_count as [|n]; [lia|]. cbn [seq flat_map].
  by rewrite channel_mark_frame_zero.
Qed.

(** The import run and, for a requested sequence, its action and its
    matrices. *)
Lemma import_psa_sequence_action
    (psa_reader : PsaReader) (armature_object : ArmatureObject)
    (options : PsaImportOptions) (w : World) :
  should_write_keyframes options = true →
  import_ready psa_reader armature_object options →
  reader_keyed psa_reader →
  ∃ import_bones actions w',
    prepare_import_bones psa_reader armature_object = Ok import_bones
    ∧ import_psa psa_reader armature_object options w = (Ok actions, w')
    ∧ (∀ i, i ∈ (build_bone_indices (map bone_name (armature_bones armature_object))
                   (bones psa_reader)).*1
            ↔ ∃ b, import_bones !! i = Some (Some b))
    ∧ ∀ i x s, sequence_names options !! i = Some x →
        sequences psa_reader !! x = Some s →
        ∃ n a M D,
          actions !! i = Some n
          ∧ bpy_data_actions w' !! n = Some a
          ∧ read_sequence_data_matrix psa_reader (sequence_name s) = Ok M
          ∧ nframes M = frame_count s
          ∧ convert_matrix import_bones (frame_count s) M = Ok D
          ∧ same_shape D M
          ∧ (∀ f b c, item D f b c = converted_item import_bones (frame_count s) M f b c)
          ∧ action_fcurves a
            = sequence_fcurves
                (build_bone_indices (map bone_name (armature_bones armature_object))
                   (bones psa_reader))
                import_bones (should_clean_keys options) threshold_default
                (frame_count s) M.
Proof.
  intros Hw (Hwf & Hnames & Hready) Hkey.
  destruct (import_psa_ok psa_reader armature_object options w Hwf Hnames Hready)
    as (l & Hl & Hrun).
  cbn zeta in Hrun.
  set (entries := build_bone_indices _ _) in *.
  set (ss := requested_sequences psa_reader (sequence_names options)) in *.
  destruct (Hready Hw) as [Hnd Hseq].
  pose proof (prepared_entries_ok psa_reader armature_object l Hwf Hnd Hl)
    as (_ & Hiff & _). fold entries in Hiff.
  destruct (prepare_import_bones_ok psa_reader armature_object Hwf) as (l' & Hl' & Hlen & _).
  rewrite Hl in Hl'. injection Hl' as <-.
  eexists l, _, _. split; [done|]. split; [exact Hrun|]. split; [done|].
  cbn [bpy_data_actions].
  intros i x s Hi Hs.
  pose proof (requested_sequences_lookup psa_reader _ i x s Hnames Hi Hs) as Hss.
  destruct (steps_at psa_reader options entries l
              (λ s a, action_of_sequence options
                        (imported_fcurves psa_reader options entries l s) s a) ss)
    with (m := bpy_data_actions w) (i := i) (s := s) as (n & a & Hn & Ha & HP);
    [intros s1 s2; by apply requested_sequences_keyed| |done|].
  { intros s' base _. apply filled_action_of_sequence. }
  destruct HP as (_ & Hfc & _). specialize (Hfc Hw).
  destruct (Hseq x s) as (M & Hread & HF & HB & HC);
    [by eapply list_elem_of_lookup_2|done|].
  destruct (convert_matrix_ok l (frame_count s) M) as (D & HD & Hshape & HDi);
    [lia|done|lia|].
  exists n, a, M, D. split_and!; [done..|].
  rewrite Hfc. unfold imported_fcurves, sequence_matrix. by rewrite Hread.
Qed.

(** X5.  When keyframes are written, every f-curve of the action of a
    requested sequence is the f-curve of a channel of a mapped bone, and
    its keyframe points are, in frame order, some of the pairs of a frame
    below the frame count and the local-space value of the channel at that
    frame, beginning with frame 0: the reducer drops keyframes, it never
    moves one or changes its value. *)
Theorem keyframes_follow_the_frames
    (psa_reader : PsaReader) (armature_object : ArmatureObject)
    (options : PsaImportOptions) (w : World) :
  should_write_keyframes options = true →
  import_ready psa_reader armature_object options →
  reader_keyed psa_reader →
  ∃ import_bones actions w',
    prepare_import_bones psa_reader armature_object = Ok import_bones
    ∧ import_psa psa_reader armature_object options w = (Ok actions, w')
    ∧ ∀ i x s, sequence_names options !! i = Some x →
        sequences psa_reader !! x = Some s →
        ∃ n a M D,
          actions !! i = Some n
          ∧ bpy_data_actions w' !! n = Some a
          ∧ read_sequence_data_matrix psa_reader (sequence_name s) = Ok M
          ∧ convert_matrix import_bones (frame_count s) M = Ok D
          ∧ ∀ fc, fc ∈ action_fcurves a →
              ∃ b import_bone c,
                import_bones !! b = Some (Some import_bone) ∧ c < 7
                ∧ data_path fc = path_from_id (pose_bone import_bone) (channel_property c)
                ∧ array_index fc = channel_index c
                ∧ keyframe_points fc
                  `sublist_of` map (λ f, (f, item D f b c)) (seq 0 (frame_count s))
                ∧ (0 < frame_count s →
                   head (keyframe_points fc) = Some (0, item D 0 b c)).
Proof.
  intros Hw Hready Hkey.
  destruct (import_psa_sequence_action psa_reader armature_object options w Hw Hready Hkey)
    as (l & acts & w' & Hl & Hrun & Hiff & Hall).
  exists l, acts, w'. split; [done|]. split; [done|].
  intros i x s Hi Hs.
  destruct (Hall i x s Hi Hs) as (n & a & M & D & Hn & Ha & Hread & HF & HD & Hshape & HDi & Hfc).
  exists n, a, M, D. split_and!; [done..|].
  intros fc Hin. rewrite Hfc in Hin.
  apply elem_of_sequence_fcurves in Hin as (b & ib & c & _ & Hb & Hc & ->).
  exists b, ib, c. split_and!; [done..| |].
  - cbn [channel_fcurve keyframe_points].
    erewrite map_ext; [apply channel_keyframes_sublist|].
    intros f. cbn. by rewrite HDi.
  - intros Hpos. cbn [channel_fcurve keyframe_points].
    rewrite channel_keyframes_head by done. by rewrite HDi.
Qed.

(** ** Bones that the armature lacks *)


(** A pass over data that stay within the threshold of the last written
    datum marks nothing. *)
Lemma marks_from_still t fi last data :
  0 < fi → (∀ d, d ∈ data → (Qabs (d - last) < t)%Q) →
  marks_from t fi last data = map (λ _, false) data.
Proof.
  intros Hfi. revert fi Hfi. induction data as [|d data IH]; intros fi Hfi Hall; [done|].
  cbn [marks_from map].
  assert (Qltb (Qabs (d - last)) t = true) as ->.
  { apply Qltb_lt. apply Hall. by left. }
  apply Nat.ltb_lt in Hfi as Hfi'. rewrite Hfi'. cbn [andb]. f_equal.
  apply IH; [lia|]. intros d' Hd'. apply Hall. by right.
Qed.

Lemma flat_map_nil {A B} (g : A → list B) (xs : list A) :
  (∀ x, x ∈ xs → g x = []) → flat_map g xs = [].
Proof.
  induction xs as [|x xs IH]; intros Hall; [done|]. cbn [flat_map].
  rewrite (Hall x) by (by left). apply IH. intros y Hy. apply Hall. by right.
Qed.

Lemma channel_keyframes_still import_bones t frame_count M i c :
  nframes M = frame_count → 0 < frame_count →
  (∀ f, f < frame_count →
     (Qabs (converted_item import_bones frame_count M f i c
            - converted_item import_bones frame_count M 0 i c) < t)%Q) →
  channel_keyframes import_bones true t frame_count M i c
  = [(0, converted_item import_bones frame_count M 0 i c)].
Proof.
  intros HF Hpos Hstill. unfold channel_keyframes.
  destruct frame_count as [|n]; [lia|]. cbn [seq flat_map].
  rewrite channel_mark_frame_zero. cbn [app]. f_equal.
  apply flat_map_nil. intros f Hf. apply elem_of_seq in Hf.
  unfold channel_mark, channel_values. rewrite HF. cbn [seq map].
  rewrite marks_from_frame_zero, marks_from_still; [|lia|].
  - destruct f as [|f]; [lia|]. cbn [lookup list_lookup].
    assert (∀ (A B : Type) (g : A → B) (l : list A) k,
              map g l !! k = g <$> l !! k) as Hmap.
    { intros. apply list_lookup_fmap. }
    rewrite !Hmap, lookup_seq_lt by lia. done.
  - intros d Hd. apply list_elem_of_fmap in Hd as (f' & -> & Hf').
    apply elem_of_seq in Hf'. apply Hstill. lia.
Qed.

(** X6.  With keyframe cleaning, a channel whose local-space values all
    stay within the threshold 0.001 of its value at frame 0 gets the
    keyframe of frame 0 and no other. *)
Theorem still_channel_keeps_one_keyframe
    (psa_reader : PsaReader) (armature_object : ArmatureObject)
    (options : PsaImportOptions) (w : World) :
  should_clean_keys options = true →
  should_write_keyframes options = true →
  import_ready psa_reader armature_object options →
  reader_keyed psa_reader →
  ∃ import_bones actions w',
    prepare_import_bones psa_reader armature_object = Ok import_bones
    ∧ import_psa psa_reader armature_object options w = (Ok actions, w')
    ∧ ∀ i x s, sequence_names options !! i = Some x →
        sequences psa_reader !! x = Some s →
        ∃ n a M D,
          actions !! i = Some n
          ∧ bpy_data_actions w' !! n = Some a
          ∧ read_sequence_data_matrix psa_reader (sequence_name s) = Ok M
          ∧ convert_matrix import_bones (frame_count s) M = Ok D
          ∧ ∀ b import_bone c,
              import_bones !! b = Some (Some import_bone) → c < 7 →
              0 < frame_count s →
              (∀ f, f < frame_count s →
                 (Qabs (item D f b c - item D 0 b c) < threshold_default)%Q) →
              ∃ fc, fc ∈ action_fcurves a
                ∧ data_path fc = path_from_id (pose_bone import_bone) (channel_property c)
                ∧ array_index fc = channel_index c
                ∧ keyframe_points fc = [(0, item D 0 b c)].
Proof.
  intros Hclean Hw Hready Hkey.
  destruct (import_psa_sequence_action psa_reader armature_object options w Hw Hready Hkey)
    as (l & acts & w' & Hl & Hrun & Hiff & Hall).
  exists l, acts, w'. split; [done|]. split; [done|].
  intros i x s Hi Hs.
  destruct (Hall i x s Hi Hs) as (n & a & M & D & Hn & Ha & Hread & HF & HD & Hshape & HDi & Hfc).
  exists n, a, M, D. split_and!; [done..|].
  intros b ib c Hb Hc Hpos Hstill.
  exists (channel_fcurve (pose_bone ib)
            (channel_keyframes l true threshold_default (frame_count s) M b) c).
  split_and!; [|done|done|].
  - rewrite Hfc, Hclean. apply elem_of_sequence_fcurves. exists b, ib, c.
    split_and!; [|done..]. apply Hiff. by exists ib.
  - cbn [channel_fcurve keyframe_points].
    rewrite channel_keyframes_still; [by rewrite HDi|done|done|].
    intros f Hf. rewrite <- !HDi. by apply Hstill.
Qed.

Lemma elem_of_channel_keyframes import_bones clean t frame_count M i c k v :
  (k, v) ∈ channel_keyframes import_bones clean t frame_count M i c
  ↔ k < frame_count
    ∧ channel_mark import_bones clean t frame_count M i c k = true
    ∧ v = converted_item import_bones frame_count M k i c.
Proof.
  unfold channel_keyframes. rewrite list_elem_of_In, in_flat_map. split.
  - intros (f & Hf & Hin). apply in_seq in Hf.
    destruct (channel_mark import_bones clean t frame_count M i c f) eqn:Hmark;
      [|by destruct Hin].
    destruct Hin as [[= <- <-]|[]]. split_and!; [lia|done|done].
  - intros (Hk & Hmark & ->). exists k. split; [apply in_seq; lia|].
    rewrite Hmark. by left.
Qed.

Lemma channel_mark_lookup import_bones t frame_count M i c f :
  nframes M = frame_count → f < frame_count →
  marks_from t 0 0%Q (channel_values import_bones frame_count M i c) !! f
  = Some (channel_mark import_bones true t frame_count M i c f)
  ∧ channel_values import_bones frame_count M i c !! f
    = Some (converted_item import_bones frame_count M f i c).
Proof.
  intros HF Hf.
  assert (channel_values import_bones frame_count M i c !! f
          = Some (converted_item import_bones frame_count M f i c)) as Hval.
  { unfold channel_values. change (map ?g ?l) with (g <$> l).
    rewrite list_lookup_fmap, lookup_seq_lt by lia. done. }
  split; [|done]. unfold channel_mark.
  destruct (marks_from t 0 0%Q (channel_values import_bones frame_count M i c) !! f)
    as [m|] eqn:Hm; [done|].
  apply lookup_ge_None in Hm. rewrite length_marks_from in Hm.
  apply lookup_lt_Some in Hval. lia.
Qed.

Lemma channel_keyframes_near import_bones t frame_count M i c f :
  nframes M = frame_count → f < frame_count →
  let v := λ k, converted_item import_bones frame_count M k i c in
  ∃ j, j ≤ f
    ∧ (j, v j) ∈ channel_keyframes import_bones true t frame_count M i c
    ∧ (∀ k u, j < k ≤ f →
         (k, u) ∉ channel_keyframes import_bones true t frame_count M i c)
    ∧ (j = f ∨ (Qabs (v f - v j) < t)%Q).
Proof.
  intros HF Hf v.
  destruct (channel_mark_lookup import_bones t frame_count M i c f HF Hf) as [Hm Hv].
  destruct (channel_mark import_bones true t frame_count M i c f) eqn:Hmark.
  { exists f. split_and!; [lia| |intros k u ?; lia|by left].
    apply elem_of_channel_keyframes. by split_and!. }
  destruct (marks_from_last_written t _ 0 0%Q f false Hm) as (dk & Hdk & Hcase).
  rewrite Hv in Hdk. injection Hdk as <-.
  destruct Hcase as [(j & dj & Hj & Hdj & Hmj & Hbetween & Hiff)|[Hnone Hiff]].
  - destruct (channel_mark_lookup import_bones t frame_count M i c j HF ltac:(lia))
      as [Hm' Hv'].
    rewrite Hv' in Hdj. injection Hdj as <-. rewrite Hmj in Hm'. injection Hm' as Hm'.
    exists j. split_and!; [lia| | |right; by apply Hiff].
    + apply elem_of_channel_keyframes. by split_and!; [lia|..].
    + intros k u Hk Hin. apply elem_of_channel_keyframes in Hin as (_ & Hin & _).
      destruct (decide (k = f)) as [->|Hne]; [congruence|].
      destruct (channel_mark_lookup import_bones t frame_count M i c k HF ltac:(lia))
        as [Hmk _].
      rewrite (Hbetween k ltac:(lia)) in Hmk. congruence.
  - destruct f as [|f].
    + apply proj1 in Hiff. destruct (Hiff eq_refl) as [? _]. lia.
    + specialize (Hnone 0 ltac:(lia)). rewrite marks_from_frame_zero in Hnone.
      destruct (channel_values import_bones frame_count M i c); done.
Qed.

(** X7.  With keyframe cleaning, every frame of a channel of a mapped
    bone is covered by a keyframe: the f-curve has a keyframe at the frame
    or at an earlier one, with no keyframe between, whose value differs
    from the local-space value of the frame by less than the threshold
    0.001. *)
Theorem dropped_frames_stay_near_the_last_keyframe
    (psa_reader : PsaReader) (armature_object : ArmatureObject)
    (options : PsaImportOptions) (w : World) :
  should_clean_keys options = true →
  should_write_keyframes options = true →
  import_ready psa_reader armature_object options →
  reader_keyed psa_reader →
  ∃ import_bones actions w',
    prepare_import_bones psa_reader armature_object = Ok import_bones
    ∧ import_psa psa_reader armature_object options w = (Ok actions, w')
    ∧ ∀ i x s, sequence_names options !! i = Some x →
        sequences psa_reader !! x = Some s →
        ∃ n a M D,
          actions !! i = Some n
          ∧ bpy_data_actions w' !! n = Some a
          ∧ read_sequence_data_matrix psa_reader (sequence_name s) = Ok M
          ∧ convert_matrix import_bones (frame_count s) M = Ok D
          ∧ ∀ b import_bone c,
              import_bones !! b = Some (Some import_bone) → c < 7 →
              ∃ fc, fc ∈ action_fcurves a
                ∧ data_path fc = path_from_id (pose_bone import_bone) (channel_property c)
                ∧ array_index fc = channel_index c
                ∧ ∀ f, f < frame_count s →
                    ∃ j, j ≤ f
                      ∧ (j, item D j b c) ∈ keyframe_points fc
                      ∧ (∀ k u, j < k ≤ f → (k, u) ∉ keyframe_points fc)
                      ∧ (j = f
                         ∨ (Qabs (item D f b c - item D j b c) < threshold_default)%Q).
Proof.
  intros Hclean Hw Hready Hkey.
  destruct (import_psa_sequence_action psa_reader armature_object options w Hw Hready Hkey)
    as (l & acts & w' & Hl & Hrun & Hiff & Hall).
  exists l, acts, w'. split; [done|]. split; [done|].
  intros i x s Hi Hs.
  destruct (Hall i x s Hi Hs) as (n & a & M & D & Hn & Ha & Hread & HF & HD & Hshape & HDi & Hfc).
  exists n, a, M, D. split_and!; [done..|].
  intros b ib c Hb Hc.
  exists (channel_fcurve (pose_bone ib)
            (channel_keyframes l true threshold_default (frame_count s) M b) c).
  split_and!; [|done|done|].
  - rewrite Hfc, Hclean. apply elem_of_sequence_fcurves. exists b, ib, c.
    split_and!; [|done..]. apply Hiff. by exists ib.
  - intros f Hf. cbn [channel_fcurve keyframe_points].
    destruct (channel_keyframes_near l threshold_default (frame_count s) M b c f HF Hf)
      as (j & Hj & Hin & Hbetween & Hnear).
    exists j. rewrite !HDi. by split_and!.
Qed.

(** ** The layout of the f-curves *)

Lemma sequence_fcurves_keys entries import_bones clean t frame_count M :
  map fcurve_key (sequence_fcurves entries import_bones clean t frame_count M)
  = flat_map bone_keys (entry_pose_bones import_bones entries).
Proof.
  unfold sequence_fcurves, entry_pose_bones. generalize (entries.*1). intros positions.
  induction positions as [|i positions IH]; [done|].
  cbn [flat_map]. rewrite map_app, IH.
  change (omap ?g (i :: positions))
    with (from_option (λ y, y :: omap g positions) (omap g positions) (g i)).
  cbn beta. destruct (mjoin (import_bones !! i)) as [b|]; cbn [fmap option_fmap option_map from_option flat_map app]; [|done].
  by f_equal.
Qed.

Lemma NoDup_bone_keys (names : list string) :
  NoDup names → NoDup (flat_map bone_keys names).
Proof.
  induction names as [|name names IH]; intros Hnd; [constructor|].
  apply NoDup_cons in Hnd as [Hout Hnd]. cbn [flat_map]. apply NoDup_app. split_and!.
  - unfold bone_keys. cbn. repeat (constructor; [set_solver|]). constructor.
  - intros key Hkey Hin. apply list_elem_of_In, in_flat_map in Hin as (name' & Hname' & Hin).
    apply list_elem_of_In in Hname', Hin. unfold bone_keys in Hkey, Hin.
    apply list_elem_of_fmap in Hkey as (c & -> & _).
    apply list_elem_of_fmap in Hin as (c' & Heq & _). injection Heq as -> _ _. done.
  - by apply IH.
Qed.

Lemma length_build_bone_indices (names : list string) (psa_bones : list PsaBone) :
  length (build_bone_indices names psa_bones)
  = length (filter (λ pb, psa_bone_name pb ∈ names) psa_bones).
Proof.
  unfold build_bone_indices, enumerate. generalize 0.
  induction psa_bones as [|pb psa_bones IH]; intros k; [done|].
  cbn [length seq zip zip_with].
  change (omap ?g ((k, pb) :: ?l))
    with (from_option (λ y, y :: omap g l) (omap g l) (g (k, pb))).
  cbn beta iota. rewrite filter_cons.
  destruct (index_of (psa_bone_name pb) names) as [j|] eqn:Hj;
    cbn [fmap option_fmap option_map from_option].
  - rewrite decide_True by (apply index_of_is_Some; by eexists).
    cbn [length]. by rewrite IH.
  - rewrite decide_False; [apply IH|].
    intros Hin. apply index_of_is_Some in Hin as [? ?]. congruence.
Qed.

(** X8.  When keyframes are written, the number of f-curves of every
    action of the import is seven times the number of PSA bones that the
    armature has; no two of them have the same data path and array index;
    each is in the group named after its bone, with an array index below 4
    for a rotation and below 3 for a location. *)
Theorem imported_action_has_seven_curves_per_bone
    (psa_reader : PsaReader) (armature_object : ArmatureObject)
    (options : PsaImportOptions) (w : World) :
  should_write_keyframes options = true →
  import_ready psa_reader armature_object options →
  let armature_bone_names := map bone_name (armature_bones armature_object) in
  ∃ actions w',
    import_psa psa_reader armature_object options w = (Ok actions, w')
    ∧ ∀ n, n ∈ actions →
        ∃ a, bpy_data_actions w' !! n = Some a
          ∧ length (action_fcurves a)
            = 7 * length (filter (λ pb, psa_bone_name pb ∈ armature_bone_names)
                            (bones psa_reader))
          ∧ NoDup (map (λ fc, (data_path fc, array_index fc)) (action_fcurves a))
          ∧ ∀ fc, fc ∈ action_fcurves a →
              group fc = (data_path fc).1
              ∧ array_index fc
                < match (data_path fc).2 with
                  | rotation_quaternion => 4
                  | location => 3
                  end.
Proof.
  intros Hw (Hwf & Hnames & Hready) arm_names.
  destruct (import_psa_ok psa_reader armature_object options w Hwf Hnames Hready)
    as (l & Hl & Hrun).
  cbn zeta in Hrun. set (entries := build_bone_indices _ _) in *.
  set (ss := requested_sequences psa_reader (sequence_names options)) in *.
  destruct (Hready Hw) as [Hnd Hseq].
  pose proof (prepared_entries_ok psa_reader armature_object l Hwf Hnd Hl)
    as (Hnd' & Hiff & Hposes). fold entries in Hnd', Hiff, Hposes.
  eexists _, _. split; [exact Hrun|]. cbn [bpy_data_actions]. intros n Hn.
  destruct (steps_all psa_reader options entries l
              (λ a, ∃ clean t frame_count M,
                 action_fcurves a = sequence_fcurves entries l clean t frame_count M) ss)
    with (m := bpy_data_actions w) (n := n) as (a & Ha & HP); [|done|].
  { intros s base _. unfold filled_action. rewrite Hw. cbn [action_fcurves].
    unfold imported_fcurves. by eexists _, _, _, _. }
  destruct HP as (clean & t & fcount & M & Hfc).
  exists a. split_and!; [done| | |].
  - rewrite Hfc. unfold sequence_fcurves. rewrite length_flat_map_seven.
    + rewrite length_map. unfold entries. by rewrite length_build_bone_indices.
    + intros i Hi. apply Hiff in Hi as [b Hb]. rewrite Hb. cbn [mjoin].
      apply length_bone_fcurves.
  - rewrite Hfc. change (map (λ fc, (data_path fc, array_index fc)) ?l)
      with (map fcurve_key l).
    rewrite sequence_fcurves_keys. by apply NoDup_bone_keys.
  - intros fc Hin. rewrite Hfc in Hin.
    apply elem_of_sequence_fcurves in Hin as (i & b & c & _ & _ & Hc & ->).
    split; [done|]. cbn. unfold channel_property, channel_index.
    destruct (Nat.ltb_spec c 4); lia.
Qed.

(** ** The conversion of the matrix *)

(** X9.  The conversion in place (lines 157-165).  On a matrix of seven
    channels that has the frames and the bone slots, [convert_matrix] does
    not raise and keeps the shape; the row of a mapped bone at a frame
    below the frame count becomes what [calculate_fcurve_data] makes of the
    row that the reader gave for that bone and frame, and every other
    entry stays as it was. *)
Theorem convert_matrix_converts_each_row_once
    (import_bones : list (option ImportBone)) (frame_count : nat) (M : ndarray Q) :
  length import_bones ≤ nbones M → nchannels M = 7 → frame_count ≤ nframes M →
  ∃ D,
    convert_matrix import_bones frame_count M = Ok D
    ∧ same_shape D M
    ∧ (∀ f b import_bone, f < frame_count →
         import_bones !! b = Some (Some import_bone) →
         ∃ key_data local,
           nd_row M f b = Ok key_data
           ∧ calculate_fcurve_data import_bone key_data = Ok local
           ∧ nd_row D f b = Ok local)
    ∧ (∀ f b c, frame_count ≤ f ∨ mjoin (import_bones !! b) = None →
         item D f b c = item M f b c).
Proof.
  intros Hlen Hch Hfr.
  destruct (convert_matrix_ok import_bones frame_count M Hlen Hch Hfr)
    as (D & HD & (HF & HB & HC) & HDi).
  exists D. split_and!; [done|done| |].
  - intros f b ib Hf Hb.
    assert (b < nbones M) as Hbb by (apply lookup_lt_Some in Hb; lia).
    destruct (calculate_fcurve_data_row ib M f b Hch) as (row & Hrow & Hlrow).
    exists (map (item M f b) (seq 0 (nchannels M))), row. split_and!.
    + apply nd_row_ok; lia.
    + done.
    + rewrite nd_row_ok by lia. f_equal. rewrite HC, Hch, <- Hlrow.
      rewrite <- (map_lookup_default 0%Q row) at 2. apply map_ext_in.
      intros c Hc. apply in_seq in Hc. rewrite HDi. unfold converted_item, local_row.
      rewrite Hb, Hrow. apply Nat.ltb_lt in Hf as ->.
      destruct (row !! c) eqn:Hrc; [done|].
      apply lookup_ge_None in Hrc. lia.
  - intros f b c Hout. rewrite HDi. unfold converted_item.
    destruct Hout as [Hf|Hb].
    + destruct (import_bones !! b) as [[ib|]|]; [|done..].
      by apply Nat.ltb_ge in Hf as ->.
    + by destruct (import_bones !! b) as [[ib|]|].
Qed.

(** ** The report of the missing bones *)

Lemma string_le_total : Total string_le.
Proof. intros a b. apply String.leb_total. Qed.

(** X10.  The report of lines 73-78.  An import that runs to its end
    prints nothing when the armature has every bone of the PSA; else it
    prints exactly two lines, the header that names the armature object and
    the list of the missing names, which is sorted and holds each name
    once. *)
Theorem missing_bones_report
    (psa_reader : PsaReader) (armature_object : ArmatureObject)
    (options : PsaImportOptions) (w : World) :
  import_ready psa_reader armature_object options →
  let psa_bone_names := map psa_bone_name (bones psa_reader) in
  let armature_bone_names := map bone_name (armature_bones armature_object) in
  let missing := missing_bone_names psa_bone_names armature_bone_names in
  ∃ actions w',
    import_psa psa_reader armature_object options w = (Ok actions, w')
    ∧ stdout w'
      = stdout w ++
        (if decide (missing = []) then []
         else [MissingBonesHeader (armature_object_name armature_object);
               MissingBonesList missing])
    ∧ NoDup missing
    ∧ Sorted string_le missing
    ∧ (missing = [] ↔ ∀ n, n ∈ psa_bone_names → n ∈ armature_bone_names).
Proof.
  intros (Hwf & Hnames & Hready) psa_names arm_names missing.
  destruct (import_psa_ok psa_reader armature_object options w Hwf Hnames Hready)
    as (l & Hl & Hrun).
  cbn zeta in Hrun. eexists _, _. split; [exact Hrun|]. cbn [stdout].
  split_and!.
  - unfold reported. fold psa_names arm_names missing.
    by destruct missing.
  - unfold missing, missing_bone_names. rewrite merge_sort_Permutation.
    apply NoDup_filter, NoDup_remove_dups.
  - apply (@Sorted_merge_sort _ string_le _ string_le_total).
  - split.
    + intros Hnil n Hn. destruct (decide (n ∈ arm_names)) as [|Hout]; [done|].
      assert (n ∈ missing) as Hin by (by apply elem_of_missing_bone_names).
      rewrite Hnil in Hin. by apply elem_of_nil in Hin.
    + intros Hall. destruct missing as [|n rest] eqn:E; [done|].
      assert (n ∈ missing) as Hin by (rewrite E; by left).
      apply elem_of_missing_bone_names in Hin as [Hin Hout]. destruct Hout. by apply Hall.
Qed.

(** ** Rest-pose properties that are incomplete *)

Lemma map_result_raise {X Y} (f : X → result Y) (xs : list X) (P : exn → Prop) :
  (∀ x e, x ∈ xs → f x = Raise e → P e) →
  (∃ x e, x ∈ xs ∧ f x = Raise e) →
  ∃ e, map_result f xs = Raise e ∧ P e.
Proof.
  induction xs as [|x xs IH]; intros HP (y & e & Hy & He).
  - by apply elem_of_nil in Hy.
  - cbn [map_result]. destruct (f x) as [v|e'] eqn:Hx; cbn [rbind].
    + destruct IH as (e'' & -> & HP'').
      * intros x' e' Hx'. apply HP. by right.
      * apply elem_of_cons in Hy as [->|Hy]; [congruence|]. by exists y, e.
      * by exists e''.
    + exists e'. split; [done|]. apply (HP x); [by left|done].
Qed.

(** Lines 85-95 never raise: a PSA bone that has an index has its
    armature bone. *)
Lemma make_import_bones_ok (psa_reader : PsaReader) (armature_object : ArmatureObject) :
  let names := map bone_name (armature_bones armature_object) in
  ∃ l0,
    map_result
      (make_import_bone armature_object (build_bone_indices names (bones psa_reader)))
      (enumerate (bones psa_reader)) = Ok l0
    ∧ length l0 = length (bones psa_reader)
    ∧ ∀ i pb, bones psa_reader !! i = Some pb →
        (psa_bone_name pb ∉ names → l0 !! i = Some None)
        ∧ (psa_bone_name pb ∈ names →
           ∃ ab, find_bone (psa_bone_name pb) (armature_bones armature_object) = Some ab
             ∧ l0 !! i = Some (Some (mkImportBone pb None ab (psa_bone_name pb)
                                       vec_zero quat_identity quat_identity []))).
Proof.
  intros names.
  set (indices := build_bone_indices names (bones psa_reader)).
  destruct (map_result_ok (make_import_bone armature_object indices)
              (enumerate (bones psa_reader))) as (l0 & Hl0e & Hlen0 & Hl0).
  { intros i [i' pb]. rewrite lookup_enumerate.
    destruct (bones psa_reader !! i) as [pb'|] eqn:Hpb; [|done]. intros [= <- <-].
    unfold make_import_bone. case_bool_decide as Hin; [|by eexists].
    apply elem_of_build_bone_indices in Hin as (b' & Hb' & Hn). simplify_eq.
    destruct (find_bone_is_Some _ _ Hn) as [ab ->]. by eexists. }
  rewrite length_enumerate in Hlen0. exists l0. split_and!; [done..|].
  intros i pb Hpb. destruct (Hl0 i (i, pb)) as (y & Hy & Hmk).
  { by rewrite lookup_enumerate, Hpb. }
  unfold make_import_bone in Hmk. split; intros Hn.
  - case_bool_decide as Hin; [|by simplify_eq].
    apply elem_of_build_bone_indices in Hin as (b' & Hb' & Hn'). by simplify_eq.
  - case_bool_decide as Hin.
    + destruct (find_bone_is_Some _ _ Hn) as [ab Hab]. rewrite Hab in Hmk.
      exists ab. by simplify_eq.
    + exfalso. apply Hin. apply elem_of_build_bone_indices. by exists pb.
Qed.

Lemma calculate_orig_raise (import_bone : ImportBone) e :
  (is_Some (parent import_bone) → is_Some (bone_parent (armature_bone import_bone))) →
  calculate_orig import_bone = Raise e → aux_key_error e.
Proof.
  intros Hpar. unfold calculate_orig, aux_key_error. cbn zeta.
  destruct (prop_orig_quat (armature_bone import_bone)) as [q|].
  - destruct (prop_orig_loc (armature_bone import_bone)),
      (prop_post_quat (armature_bone import_bone)); intros [=]; auto.
  - destruct (parent import_bone) as [i|]; [|done].
    destruct Hpar as [p ->]; [by eexists|]. done.
Qed.

Lemma calculate_orig_incomplete (import_bone : ImportBone) :
  is_Some (prop_orig_quat (armature_bone import_bone)) →
  prop_orig_loc (armature_bone import_bone) = None
  ∨ prop_post_quat (armature_bone import_bone) = None →
  ∃ e, calculate_orig import_bone = Raise e.
Proof.
  intros [q Hq] Hmiss. unfold calculate_orig. cbn zeta. rewrite Hq.
  destruct (prop_orig_loc (armature_bone import_bone)),
    (prop_post_quat (armature_bone import_bone)); try by eexists.
  by destruct Hmiss.
Qed.

(** X11.  Lines 102-107.  When an armature bone that a PSA bone maps to
    has the custom property [orig_quat] but lacks [orig_loc] or
    [post_quat], the import raises the KeyError of a lacking property
    before it reaches the sequences: no action and no animation data are
    touched. *)
Theorem incomplete_rest_properties_stop_the_import
    (psa_reader : PsaReader) (armature_object : ArmatureObject)
    (options : PsaImportOptions) (w : World) (pb : PsaBone) (ab : Bone) :
  (∀ b p, b ∈ armature_bones armature_object → bone_parent b = Some p →
     bone_name p ∈ map bone_name (armature_bones armature_object)) →
  pb ∈ bones psa_reader →
  find_bone (psa_bone_name pb) (armature_bones armature_object) = Some ab →
  is_Some (prop_orig_quat ab) →
  prop_orig_loc ab = None ∨ prop_post_quat ab = None →
  ∃ key w',
    import_psa psa_reader armature_object options w = (Raise (KeyError key), w')
    ∧ (key = "orig_loc" ∨ key = "post_quat")
    ∧ bpy_data_actions w' = bpy_data_actions w
    ∧ animation_data w' = animation_data w.
Proof.
  intros Hpar Hpb Hab Hquat Hmiss.
  set (names := map bone_name (armature_bones armature_object)).
  set (psa_names := map psa_bone_name (bones psa_reader)).
  destruct (make_import_bones_ok psa_reader armature_object) as (l0 & Hl0 & Hlen0 & Hfirst).
  fold names in Hl0, Hfirst.
  assert (∀ b0, Some b0 ∈ l0 →
    ∃ i pb' ab', bones psa_reader !! i = Some pb'
      ∧ find_bone (psa_bone_name pb') (armature_bones armature_object) = Some ab'
      ∧ b0 = mkImportBone pb' None ab' (psa_bone_name pb')
               vec_zero quat_identity quat_identity []) as Hshape.
  { intros b0 Hin. apply list_elem_of_lookup in Hin as [i Hi].
    assert (i < length (bones psa_reader)) as Hlt.
    { rewrite <- Hlen0. by eapply lookup_lt_Some. }
    apply lookup_lt_is_Some in Hlt as [pb' Hpb'].
    destruct (Hfirst i pb' Hpb') as [Hno Hyes].
    destruct (decide (psa_bone_name pb' ∈ names)) as [Hn|Hn].
    - destruct (Hyes Hn) as (ab' & Hab' & Hi'). exists i, pb', ab'. by simplify_eq.
    - specialize (Hno Hn). by simplify_eq. }
  assert (∀ b0, Some b0 ∈ l0 →
    ∃ p, (is_Some p → is_Some (bone_parent (armature_bone b0)))
      ∧ link_import_bone psa_names (make_import_bones_dict l0) b0
        = calculate_orig (set_parent b0 p)) as Hlink.
  { intros b0 Hin. destruct (Hshape b0 Hin) as (i & pb' & ab' & Hpb' & Hab' & ->).
    apply find_bone_Some in Hab' as [Hab' _].
    unfold link_import_bone. cbn [armature_bone].
    destruct (bone_parent ab') as [ap|] eqn:Hap.
    - case_bool_decide as Hpsa.
      + assert (is_Some (make_import_bones_dict l0 !! bone_name ap)) as [j Hj].
        { unfold psa_names in Hpsa.
          apply list_elem_of_fmap in Hpsa as (pb'' & Hname & Hpb'').
          apply list_elem_of_lookup in Hpb'' as [k Hk].
          destruct (Hfirst k pb'' Hk) as [_ Hyes].
          destruct Hyes as (ab'' & _ & Hk'). { rewrite <- Hname. by apply (Hpar ab'). }
          rewrite Hname. by apply (import_bones_dict_is_Some l0 k _ Hk'). }
        rewrite Hj. cbn [rbind]. exists (Some j). split; [by eexists|done].
      + cbn [rbind]. exists None. split; [by intros [? ?]|done].
    - cbn [rbind]. exists None. split; [by intros [? ?]|done]. }
  assert (∃ e, prepare_import_bones psa_reader armature_object = Raise e
               ∧ aux_key_error e) as (e & Hprep & He).
  { unfold prepare_import_bones. fold names psa_names. rewrite Hl0. cbn [rbind].
    unfold link_import_bones. apply map_result_raise.
    - intros [b0|] e Hin; [|done].
      destruct (Hlink b0 Hin) as (p & Hp & ->).
      destruct (calculate_orig (set_parent b0 p)) as [b|e'] eqn:Hcalc; [done|].
      cbn [rbind]. intros [= <-]. by apply (calculate_orig_raise (set_parent b0 p) e' Hp).
    - apply list_elem_of_lookup in Hpb as [i Hi].
      destruct (Hfirst i pb Hi) as [_ Hyes].
      destruct Hyes as (ab' & Hab' & Hi').
      { apply find_bone_Some in Hab as [Hin <-]. by apply list_elem_of_fmap_2. }
      rewrite Hab in Hab'. injection Hab' as <-.
      eexists (Some _). 
      destruct (Hlink _ (list_elem_of_lookup_2 _ _ _ Hi')) as (p & Hp & Hlk).
      destruct (calculate_orig_incomplete
                  (set_parent (mkImportBone pb None ab (psa_bone_name pb)
                                 vec_zero quat_identity quat_identity []) p))
        as [e He]; [done|done|].
      exists e. split; [by eapply list_elem_of_lookup_2|].
      by rewrite Hlk, He. }
  unfold import_psa. unfold st_bind at 1. rewrite report_missing_bones_ok.
  unfold st_bind at 1, st_lift at 1. rewrite Hprep.
  destruct He as [-> | ->]; eexists _, _; (split; [done|]); cbn; auto.
Qed.

(** ** A sequence whose data cannot be read *)


End MoreImportFacts.

(** * Facts about the panel *)

Section PanelFacts.
Context {R : Rotate} {matching : Matching} {host : Host}.

(** ** The filter *)

Lemma for_loop_ext {X S} (xs : list X) (body body' : S → X → result S) :
  (∀ x s, x ∈ xs → body s x = body' s x) →
  ∀ s, for_loop xs body s = for_loop xs body' s.
Proof.
  induction xs as [|x xs IH]; intros Hext s; [done|]. cbn [for_loop].
  rewrite (Hext x s) by (by left). destruct (body' s x) as [s'|e]; [|done].
  cbn [rbind]. apply IH. intros y s0 Hy. apply Hext. by right.
Qed.

Lemma for_loop_raise {X S} (xs : list X) (body : S → X → result S) (x : X) :
  x ∈ xs → (∀ s, ∃ e, body s x = Raise e) → ∀ s, ∃ e, for_loop xs body s = Raise e.
Proof.
  induction xs as [|y xs IH]; intros Hin Hraise s; [by apply elem_of_nil in Hin|].
  cbn [for_loop]. apply elem_of_cons in Hin as [<-|Hin].
  - destruct (Hraise s) as [e ->]. by exists e.
  - destruct (body s y) as [s'|e]; [|by exists e]. cbn [rbind]. by apply IH.
Qed.

Lemma forallb_false_elem {A} (f : A → bool) (l : list A) :
  forallb f l = false → ∃ x, x ∈ l ∧ f x = false.
Proof.
  induction l as [|x l IH]; cbn [forallb]; [done|].
  destruct (f x) eqn:Hx.
  - cbn [andb]. intros (y & Hy & Hfy)%IH. exists y. split; [by right|done].
  - intros _. exists x. split; [by left|done].
Qed.

Lemma forallb_true_elem {A} (f : A → bool) (l : list A) (x : A) :
  forallb f l = true → x ∈ l → f x = true.
Proof.
  intros Hall Hx. rewrite forallb_forall in Hall. apply Hall. by apply list_elem_of_In.
Qed.

Lemma elem_of_enumerate {A} (l : list A) (i : nat) (x : A) :
  (i, x) ∈ enumerate l ↔ l !! i = Some x.
Proof.
  rewrite list_elem_of_lookup. split.
  - intros [k Hk]. rewrite lookup_enumerate in Hk.
    destruct (l !! k) as [y|] eqn:Hy; [|done]. by injection Hk as <- <-.
  - intros Hi. exists i. by rewrite lookup_enumerate, Hi.
Qed.

Lemma update_flags_loop (c : PsaImportActionListItem → bool) (f : Z → Z)
    (sequences : list PsaImportActionListItem) :
  ∀ (k : nat) (before flt_flags : list Z),
    length before = k → length flt_flags = length sequences →
    for_loop (zip (seq k (length sequences)) sequences)
      (λ flt_flags '(i, sequence),
         if c sequence then update_flag f i flt_flags else Ok flt_flags)
      (before ++ flt_flags)
    = Ok (before ++ zip_with (λ sequence flag, if c sequence then f flag else flag)
                    sequences flt_flags).
Proof.
  induction sequences as [|s sequences IH]; intros k pre flags Hk Hlen.
  - by destruct flags.
  - destruct flags as [|flag flags]; [done|].
    cbn [length seq zip zip_with for_loop].
    assert ((if c s then update_flag f k (pre ++ flag :: flags)
             else Ok (pre ++ flag :: flags))
            = Ok ((pre ++ [if c s then f flag else flag]) ++ flags)) as ->.
    { rewrite <- app_assoc. cbn [app]. destruct (c s); [|done].
      unfold update_flag.
      rewrite lookup_app_r, Hk, Nat.sub_diag by lia. cbn [lookup list_lookup].
      f_equal. rewrite insert_app_r_alt, Hk, Nat.sub_diag by lia. done. }
    cbn [rbind]. rewrite (IH (S k)).
    + by rewrite <- app_assoc.
    + rewrite length_app. cbn. lia.
    + cbn in Hlen. lia.
Qed.

Lemma update_flags_loop_0 (c : PsaImportActionListItem → bool) (f : Z → Z)
    (sequences : list PsaImportActionListItem) (flt_flags : list Z) :
  length flt_flags = length sequences →
  for_loop (enumerate sequences)
    (λ flt_flags '(i, sequence),
       if c sequence then update_flag f i flt_flags else Ok flt_flags)
    flt_flags
  = Ok (zip_with (λ sequence flag, if c sequence then f flag else flag)
          sequences flt_flags).
Proof. intros Hlen. by apply (update_flags_loop c f sequences 0 []). Qed.

Lemma zip_with_map_l {A B C} (g : A → B → C) (h : A → B) (xs : list A) :
  zip_with g xs (map h xs) = map (λ x, g x (h x)) xs.
Proof. induction xs as [|x xs IH]; [done|]. cbn. by rewrite IH. Qed.

Lemma replicate_map {A B} (b : B) (xs : list A) :
  replicate (length xs) b = map (λ _, b) xs.
Proof. induction xs as [|x xs IH]; [done|]. cbn. by rewrite IH. Qed.

(** The flags, where the name filter runs to its end. *)
Lemma filter_sequences_flags (pg : PsaImportPropertyGroup)
    (sequences : list PsaImportActionListItem) :
  name_filter_runs pg sequences = true →
  filter_sequences pg sequences = Ok (map (filter_flag pg) sequences).
Proof.
  intros Hruns. unfold filter_sequences. rewrite replicate_map.
  set (body c f := λ (flt_flags : list Z) '((i, sequence) : nat * PsaImportActionListItem),
         if c sequence : bool then update_flag f i flt_flags else Ok flt_flags).
  (* the name filter *)
  assert (∃ name_ok : PsaImportActionListItem → bool,
    (∀ s, name_ok s = name_passes pg s)
    ∧ (if sequence_use_filter_regex pg then
         match re_compile (sequence_filter_name pg) with
         | Compiled regex =>
           for_loop (enumerate sequences)
             (body (λ s, negb (re_match regex (action_name s))) clear_filter_item)
             (map (λ _, bitflag_filter_item) sequences)
         | ReError => Ok (map (λ _, bitflag_filter_item) sequences)
         | RaisesOther e => Raise e
         end
       else
         for_loop (enumerate sequences)
           (λ flt_flags '(i, sequence),
              matched <- fnmatch (action_name sequence)
                           ("*" +:+ sequence_filter_name pg +:+ "*") ;;
              if negb matched
              then update_flag clear_filter_item i flt_flags
              else Ok flt_flags)
           (map (λ _, bitflag_filter_item) sequences))
      = Ok (map (λ s, if name_ok s then bitflag_filter_item else 0%Z) sequences))
    as (name_ok & Hname & Hfirst).
  { exists (name_passes pg). split; [done|].
    unfold name_filter_runs in Hruns. unfold name_passes, body.
    destruct (sequence_use_filter_regex pg).
    - destruct (re_compile (sequence_filter_name pg)) as [regex| |e]; [| |done].
      + rewrite update_flags_loop_0 by (by rewrite !length_map).
        rewrite zip_with_map_l. f_equal. apply map_ext. intros s.
        by destruct (re_match regex (action_name s)).
      + f_equal.
    - rewrite (for_loop_ext _ _
                 (body (λ s, negb match fnmatch (action_name s)
                                          ("*" +:+ sequence_filter_name pg +:+ "*") with
                                  | Ok matched => matched
                                  | Raise _ => true
                                  end)
                    clear_filter_item)).
      + unfold body. rewrite update_flags_loop_0 by (by rewrite !length_map).
        rewrite zip_with_map_l. f_equal. apply map_ext. intros s.
        by destruct (fnmatch _ _) as [[]|].
      + intros [i s] flags Hin. apply elem_of_enumerate in Hin.
        apply list_elem_of_lookup_2 in Hin.
        pose proof (forallb_true_elem _ _ s Hruns Hin) as Hs. cbn beta in Hs.
        unfold body. by destruct (fnmatch _ _). }
  unfold body in Hfirst. rewrite Hfirst. cbn [rbind].
  (* the selection filter *)
  assert ((if sequence_filter_is_selected pg then
             for_loop (enumerate sequences)
               (body (λ s, negb (is_selected s)) clear_filter_item)
               (map (λ s, if name_ok s then bitflag_filter_item else 0%Z) sequences)
           else Ok (map (λ s, if name_ok s then bitflag_filter_item else 0%Z) sequences))
          = Ok (map (λ s, if name_ok s
                               && (negb (sequence_filter_is_selected pg) || is_selected s)
                          then bitflag_filter_item else 0%Z) sequences)) as Hsecond.
  { unfold body. destruct (sequence_filter_is_selected pg).
    - rewrite update_flags_loop_0 by (by rewrite !length_map).
      rewrite zip_with_map_l. f_equal. apply map_ext. intros s.
      by destruct (name_ok s), (is_selected s).
    - f_equal. apply map_ext. intros s. by rewrite andb_true_r. }
  unfold body in Hsecond. rewrite Hsecond. cbn [rbind].
  (* the inversion *)
  unfold filter_flag, passes_filter. cbn zeta.
  destruct (sequence_use_filter_invert pg).
  - pose proof (update_flags_loop_0 (λ _, true) toggle_filter_item sequences) as Hthird.
    cbn beta iota in Hthird. rewrite Hthird by (by rewrite !length_map).
    cbn [rbind]. rewrite zip_with_map_l. f_equal. apply map_ext. intros s.
    rewrite Hname. by destruct (name_passes pg s && _).
  - cbn [rbind]. f_equal. apply map_ext. intros s. by rewrite Hname.
Qed.

(** Where the name filter does not run to its end, its exception leaves
    [filter_sequences]. *)
Lemma filter_sequences_raises (pg : PsaImportPropertyGroup)
    (sequences : list PsaImportActionListItem) :
  name_filter_runs pg sequences = false →
  ∃ e, filter_sequences pg sequences = Raise e
       ∧ (sequence_use_filter_regex pg = true →
          re_compile (sequence_filter_name pg) = RaisesOther e).
Proof.
  intros Hruns. unfold filter_sequences, name_filter_runs in *.
  destruct (sequence_use_filter_regex pg).
  - destruct (re_compile (sequence_filter_name pg)) as [regex| |e]; [done..|].
    by exists e.
  - apply forallb_false_elem in Hruns as (s & Hs & Hfail).
    apply list_elem_of_lookup in Hs as [i Hi].
    destruct (for_loop_raise (enumerate sequences)
                (λ flt_flags '((i, sequence) : nat * PsaImportActionListItem),
                   matched <- fnmatch (action_name sequence)
                                ("*" +:+ sequence_filter_name pg +:+ "*") ;;
                   if negb matched
                   then update_flag clear_filter_item i flt_flags
                   else Ok flt_flags)
                (i, s))
      with (s := replicate (length sequences) bitflag_filter_item) as [e He].
    + by apply elem_of_enumerate.
    + intros flags. destruct (fnmatch _ _) as [matched|e]; [done|]. by exists e.
    + exists e. rewrite He. done.
Qed.

Lemma filter_flag_test (pg : PsaImportPropertyGroup) (sequence : PsaImportActionListItem) :
  negb (Z.land (filter_flag pg sequence) bitflag_filter_item =? 0)%Z
  = passes_filter pg sequence.
Proof. unfold filter_flag. by destruct (passes_filter pg sequence). Qed.

Lemma visible_loop (pg : PsaImportPropertyGroup) (rest : list PsaImportActionListItem) :
  ∀ (before : list PsaImportActionListItem) (visible_sequences : list nat),
    for_loop (zip (seq (length before) (length rest)) (map (filter_flag pg) rest))
      (λ visible_sequences '(i, flag),
         if negb (Z.land flag bitflag_filter_item =? 0)%Z then
           match (before ++ rest) !! i with
           | Some _ => Ok (visible_sequences ++ [i])
           | None => Raise IndexError
           end
         else Ok visible_sequences)
      visible_sequences
    = Ok (visible_sequences
          ++ (filter (λ entry, passes_filter pg entry.2 = true)
                (zip (seq (length before) (length rest)) rest)).*1).
Proof.
  induction rest as [|s rest IH]; intros pre acc.
  - cbn. by rewrite app_nil_r.
  - cbn [length seq map zip zip_with for_loop].
    rewrite filter_flag_test, filter_cons. cbn [snd].
    specialize (IH (pre ++ [s])). rewrite length_app, <- app_assoc in IH.
    cbn [length app] in IH. rewrite Nat.add_1_r in IH.
    destruct (passes_filter pg s) eqn:Hs.
    + rewrite lookup_app_r, Nat.sub_diag by lia. cbn [lookup list_lookup rbind].
      rewrite IH. rewrite decide_True by done. cbn [fmap list_fmap fst].
      by rewrite <- app_assoc.
    + cbn [rbind]. rewrite IH. by rewrite decide_False by done.
Qed.

Lemma get_visible_sequences_positions (pg : PsaImportPropertyGroup)
    (sequences : list PsaImportActionListItem) :
  name_filter_runs pg sequences = true →
  get_visible_sequences pg sequences = Ok (visible_positions pg sequences).
Proof.
  intros Hruns.
  unfold get_visible_sequences. rewrite filter_sequences_flags by done. cbn [rbind].
  unfold enumerate at 1. rewrite length_map.
  apply (visible_loop pg sequences [] []).
Qed.

Lemma get_visible_sequences_raises (pg : PsaImportPropertyGroup)
    (sequences : list PsaImportActionListItem) :
  name_filter_runs pg sequences = false →
  ∃ e, get_visible_sequences pg sequences = Raise e
       ∧ (sequence_use_filter_regex pg = true →
          re_compile (sequence_filter_name pg) = RaisesOther e).
Proof.
  intros Hruns. destruct (filter_sequences_raises pg sequences Hruns) as (e & He & Hre).
  exists e. split; [|done]. unfold get_visible_sequences. by rewrite He.
Qed.

Lemma elem_of_visible_positions (pg : PsaImportPropertyGroup)
    (sequences : list PsaImportActionListItem) (i : nat) :
  i ∈ visible_positions pg sequences
  ↔ ∃ s, sequences !! i = Some s ∧ passes_filter pg s = true.
Proof.
  unfold visible_positions. rewrite list_elem_of_fmap. split.
  - intros ([i' s] & -> & Hin). apply list_elem_of_filter in Hin as [Hpass Hin].
    apply list_elem_of_lookup in Hin as [k Hk]. rewrite lookup_enumerate in Hk.
    destruct (sequences !! k) as [s'|] eqn:Hs; [|done]. injection Hk as <- <-.
    by exists s'.
  - intros (s & Hs & Hpass). exists (i, s). split; [done|].
    apply list_elem_of_filter. split; [done|].
    apply list_elem_of_lookup. exists i. by rewrite lookup_enumerate, Hs.
Qed.

Lemma visible_positions_sorted (pg : PsaImportPropertyGroup)
    (sequences : list PsaImportActionListItem) :
  StronglySorted lt (visible_positions pg sequences).
Proof.
  unfold visible_positions, enumerate. generalize 0.
  induction sequences as [|s sequences IH]; intros k; [constructor|].
  cbn [length seq zip zip_with]. rewrite filter_cons. cbn [snd].
  destruct (decide (passes_filter pg s = true)); [|apply IH].
  cbn [fmap list_fmap fst]. constructor; [apply IH|].
  apply Forall_forall. intros j Hj.
  apply list_elem_of_fmap in Hj as ([j' s'] & -> & Hin).
  apply list_elem_of_filter in Hin as [_ Hin].
  apply elem_of_zip_l in Hin. apply elem_of_seq in Hin. cbn. lia.
Qed.

(** X13.  [filter_sequences] runs to its end exactly when the name filter
    does: with regular expressions, when [re.compile] returns or raises
    [re.error]; without, when [fnmatch] returns for every name.  Then it
    returns one flag per sequence; the flag is [1 << 30] when the sequence
    is shown and 0 when it is not.  A sequence is shown when it passes the
    name filter (a regular expression that [re.error] rejects filters
    nothing) and, with the filter on the selection, is selected; with the
    inversion it is shown exactly when it would not be.  Otherwise the
    exception leaves [filter_sequences]: what [re.compile] raised other
    than [re.error], or what [fnmatch] raised. *)
Theorem filter_flags_mark_what_is_shown (pg : PsaImportPropertyGroup)
    (sequences : list PsaImportActionListItem) :
  if name_filter_runs pg sequences then
    ∃ flt_flags,
      filter_sequences pg sequences = Ok flt_flags
      ∧ length flt_flags = length sequences
      ∧ ∀ i sequence, sequences !! i = Some sequence →
          flt_flags !! i
          = Some (if passes_filter pg sequence then Z.shiftl 1 30 else 0%Z)
  else
    ∃ e, filter_sequences pg sequences = Raise e
         ∧ (sequence_use_filter_regex pg = true →
            re_compile (sequence_filter_name pg) = RaisesOther e).
Proof.
  destruct (name_filter_runs pg sequences) eqn:Hruns.
  - exists (map (filter_flag pg) sequences). split_and!.
    + by apply filter_sequences_flags.
    + by rewrite length_map.
    + intros i sequence Hi.
      change (map ?g ?l) with (g <$> l). by rewrite list_lookup_fmap, Hi.
  - by apply filter_sequences_raises.
Qed.

(** X14.  Where the name filter runs to its end, [get_visible_sequences]
    returns the sequences that the filter shows, each once, in the order
    of the list; otherwise the exception of the name filter leaves it. *)
Theorem visible_sequences_are_those_that_pass (pg : PsaImportPropertyGroup)
    (sequences : list PsaImportActionListItem) :
  if name_filter_runs pg sequences then
    ∃ visible_sequences,
      get_visible_sequences pg sequences = Ok visible_sequences
      ∧ StronglySorted lt visible_sequences
      ∧ ∀ i, i ∈ visible_sequences
             ↔ ∃ sequence, sequences !! i = Some sequence
                           ∧ passes_filter pg sequence = true
  else
    ∃ e, get_visible_sequences pg sequences = Raise e
         ∧ (sequence_use_filter_regex pg = true →
            re_compile (sequence_filter_name pg) = RaisesOther e).
Proof.
  destruct (name_filter_runs pg sequences) eqn:Hruns.
  - exists (visible_positions pg sequences). split_and!.
    + by apply get_visible_sequences_positions.
    + apply visible_positions_sorted.
    + apply elem_of_visible_positions.
  - by apply get_visible_sequences_raises.
Qed.

(** X15.  Where the name filter runs to its end, switching
    [sequence_use_filter_invert] shows exactly the sequences that were
    hidden; where it does not, [get_visible_sequences] raises with either
    setting. *)
Theorem inverting_the_filter_shows_the_rest (pg : PsaImportPropertyGroup)
    (sequences : list PsaImportActionListItem) :
  let pg' :=
    set_sequence_use_filter_invert pg (negb (sequence_use_filter_invert pg)) in
  if name_filter_runs pg sequences then
    ∃ shown hidden,
      get_visible_sequences pg sequences = Ok shown
      ∧ get_visible_sequences pg' sequences = Ok hidden
      ∧ ∀ i, i < length sequences → (i ∈ shown ↔ i ∉ hidden)
  else
    (∃ e, get_visible_sequences pg sequences = Raise e)
    ∧ (∃ e, get_visible_sequences pg' sequences = Raise e).
Proof.
  intros pg'.
  assert (name_filter_runs pg' sequences = name_filter_runs pg sequences) as Hsame
    by done.
  destruct (name_filter_runs pg sequences) eqn:Hruns.
  - exists (visible_positions pg sequences), (visible_positions pg' sequences).
    split_and!; [by apply get_visible_sequences_positions..|].
    intros i Hi. apply lookup_lt_is_Some in Hi as [sequence Hs].
    rewrite !elem_of_visible_positions.
    assert (passes_filter pg' sequence = negb (passes_filter pg sequence)) as Hneg.
    { unfold passes_filter, pg'. cbn.
      change (name_passes (set_sequence_use_filter_invert pg _) sequence)
        with (name_passes pg sequence).
      destruct (sequence_use_filter_invert pg); cbn; by rewrite ?negb_involutive. }
    split.
    + intros (s & Hs' & Hpass) (s' & Hs'' & Hpass'). simplify_eq.
      rewrite Hneg, Hpass in Hpass'. done.
    + intros Hnot. exists sequence. split; [done|].
      destruct (passes_filter pg sequence) eqn:Hpass; [done|].
      destruct Hnot. exists sequence. split; [done|]. by rewrite Hneg.
  - split.
    + destruct (get_visible_sequences_raises pg sequences Hruns) as (e & He & _).
      by exists e.
    + destruct (get_visible_sequences_raises pg' sequences Hsame) as (e & He & _).
      by exists e.
Qed.

(** ** Selecting and deselecting what is shown *)

Lemma lookup_foldl_alter {A} (f : A → A) (refs : list nat) :
  (∀ x, f (f x) = f x) →
  ∀ (l : list A) i,
    foldl (λ l ref, alter f ref l) l refs !! i
    = (if decide (i ∈ refs) then f else id) <$> l !! i.
Proof.
  intros Hf. induction refs as [|ref refs IH]; intros l i; cbn [foldl].
  - rewrite decide_False by (by intros ?%elem_of_nil). by destruct (l !! i).
  - rewrite IH. destruct (decide (i = ref)) as [->|Hne].
    + rewrite list_lookup_alter_eq. rewrite (decide_True (P := ref ∈ ref :: refs)) by (by left).
      destruct (l !! ref) as [x|]; [|by destruct (decide _)]. cbn.
      destruct (decide (ref ∈ refs)); cbn; by rewrite ?Hf.
    + rewrite list_lookup_alter_ne by done.
      destruct (decide (i ∈ refs)) as [Hin|Hout].
      * by rewrite decide_True by (by right).
      * rewrite decide_False; [done|]. by intros [?|?]%elem_of_cons.
Qed.

Lemma set_selected_loop (value : bool) (refs : list nat) :
  ∀ ctx,
    st_for refs (λ _ sequence, set_is_selected sequence value) tt ctx
    = (Ok tt,
       set_psa_import ctx
         (set_sequence_list (scene_psa_import ctx)
            (foldl (λ l ref, alter (select_item value) ref l)
               (sequence_list (scene_psa_import ctx)) refs))).
Proof.
  induction refs as [|ref refs IH]; intros ctx; cbn [st_for foldl].
  - by destruct ctx as [[] ? ? ?].
  - unfold st_bind, set_is_selected at 1. by rewrite IH.
Qed.

Lemma select_visible (value : bool) (pg : PsaImportPropertyGroup) :
  foldl (λ l ref, alter (select_item value) ref l) (sequence_list pg)
    (visible_positions pg (sequence_list pg))
  = select_shown value pg.
Proof.
  apply list_eq. intros i. rewrite lookup_foldl_alter by done.
  unfold select_shown. rewrite list_lookup_fmap.
  destruct (sequence_list pg !! i) as [item|] eqn:Hi; [|by destruct (decide _)].
  cbn. f_equal. destruct (passes_filter pg item) eqn:Hpass.
  - rewrite decide_True; [done|]. apply elem_of_visible_positions. by exists item.
  - rewrite decide_False; [done|].
    intros (item' & Hi' & Hpass')%elem_of_visible_positions. congruence.
Qed.

Lemma select_shown_none_left (value : bool) (p : PsaImportActionListItem → bool)
    (pg : PsaImportPropertyGroup) :
  (∀ item, p (select_item value item) = false) →
  let pg' := set_sequence_list pg (select_shown value pg) in
  any_visible p pg' (visible_positions pg' (sequence_list pg')) = false.
Proof.
  intros Hp pg'. unfold any_visible. apply existsb_false. intros ref Href.
  apply elem_of_visible_positions in Href as (item' & Hitem' & Hpass').
  rewrite Hitem'. cbn [from_option].
  unfold pg' in Hitem'. cbn [sequence_list set_sequence_list] in Hitem'.
  unfold select_shown in Hitem'. rewrite list_lookup_fmap in Hitem'.
  destruct (sequence_list pg !! ref) as [item|]; [|done]. injection Hitem' as <-.
  change (passes_filter pg' ?x) with (passes_filter pg x) in Hpass'.
  destruct (passes_filter pg item) eqn:Hpass; [done|congruence].
Qed.

(** Selecting does not change the names, so the name filter runs on the
    list afterwards as it did before. *)
Lemma name_filter_runs_select (value : bool) (pg : PsaImportPropertyGroup) :
  let pg' := set_sequence_list pg (select_shown value pg) in
  name_filter_runs pg' (sequence_list pg') = name_filter_runs pg (sequence_list pg).
Proof.
  intros pg'. unfold name_filter_runs, pg'.
  cbn [set_sequence_list sequence_use_filter_regex sequence_filter_name sequence_list].
  destruct (sequence_use_filter_regex pg); [done|].
  unfold select_shown. generalize (sequence_list pg). intros l.
  induction l as [|item l IH]; [done|]. cbn [map forallb]. rewrite IH. f_equal.
  by destruct (passes_filter pg item).
Qed.

(** X16.  Where the name filter runs to its end,
    [PsaImportSequencesSelectAll.execute] finishes; it selects the
    sequences that the filter shows and changes nothing else; afterwards
    its [poll] is false, and executing it again changes nothing.  Where
    the name filter raises, [poll] and [execute] raise its exception and
    nothing is selected. *)
Theorem select_all_selects_what_is_shown (ctx : BlenderContext) :
  let pg := scene_psa_import ctx in
  let ctx' := set_psa_import ctx (set_sequence_list pg (select_shown true pg)) in
  if name_filter_runs pg (sequence_list pg) then
    PsaImportSequencesSelectAll_execute ctx = (Ok FINISHED, ctx')
    ∧ PsaImportSequencesSelectAll_poll ctx' = Ok false
    ∧ PsaImportSequencesSelectAll_execute ctx' = (Ok FINISHED, ctx')
  else
    ∃ e, PsaImportSequencesSelectAll_execute ctx = (Raise e, ctx)
         ∧ PsaImportSequencesSelectAll_poll ctx = Raise e.
Proof.
  intros pg ctx'.
  destruct (name_filter_runs pg (sequence_list pg)) eqn:Hruns.
  - assert (∀ c, name_filter_runs (scene_psa_import c)
                   (sequence_list (scene_psa_import c)) = true →
                 PsaImportSequencesSelectAll_execute c
                 = (Ok FINISHED,
                    set_psa_import c
                      (set_sequence_list (scene_psa_import c)
                         (select_shown true (scene_psa_import c))))) as Hexec.
    { intros c Hc. unfold PsaImportSequencesSelectAll_execute.
      unfold st_bind at 1, get_psa_import at 1.
      rewrite get_visible_sequences_positions by done.
      unfold st_bind at 1, st_lift at 1.
      unfold st_bind at 1. rewrite set_selected_loop. by rewrite select_visible. }
    assert (name_filter_runs (scene_psa_import ctx')
              (sequence_list (scene_psa_import ctx')) = true) as Hruns'.
    { unfold ctx'. cbn [scene_psa_import set_psa_import].
      by rewrite (name_filter_runs_select true pg). }
    split_and!.
    + by apply Hexec.
    + unfold PsaImportSequencesSelectAll_poll. cbn zeta.
      rewrite get_visible_sequences_positions by done. cbn [rbind].
      change (scene_psa_import ctx') with (set_sequence_list pg (select_shown true pg)).
      rewrite (select_shown_none_left true) by done. by rewrite andb_false_r.
    + rewrite Hexec by done. f_equal. unfold ctx', set_psa_import. cbn. f_equal.
      unfold set_sequence_list. cbn. f_equal.
      unfold select_shown at 1. cbn [sequence_list].
      change (passes_filter (mkPsaImportPropertyGroup _ _ _ _ _ _ _ _ _ _ _ _ _ _ _ _ _ _) ?x)
        with (passes_filter pg x).
      unfold select_shown. rewrite map_map. apply map_ext. intros item.
      destruct (passes_filter pg item) eqn:Hpass; [|by rewrite Hpass].
      by destruct (passes_filter pg (select_item true item)).
  - destruct (get_visible_sequences_raises pg (sequence_list pg) Hruns) as (e & He & _).
    exists e. split.
    + unfold PsaImportSequencesSelectAll_execute.
      unfold st_bind at 1, get_psa_import at 1. fold pg.
      unfold st_bind at 1, st_lift at 1. by rewrite He.
    + unfold PsaImportSequencesSelectAll_poll. cbn zeta. fold pg. by rewrite He.
Qed.

(** X17.  Where the name filter runs to its end,
    [PsaImportSequencesDeselectAll.execute] finishes; it deselects the
    sequences that the filter shows and changes nothing else; afterwards
    its [poll] is false, and executing it again changes nothing.  Where
    the name filter raises, [poll] and [execute] raise its exception and
    nothing is deselected. *)
Theorem deselect_all_deselects_what_is_shown (ctx : BlenderContext) :
  let pg := scene_psa_import ctx in
  let ctx' := set_psa_import ctx (set_sequence_list pg (select_shown false pg)) in
  if name_filter_runs pg (sequence_list pg) then
    PsaImportSequencesDeselectAll_execute ctx = (Ok FINISHED, ctx')
    ∧ PsaImportSequencesDeselectAll_poll ctx' = Ok false
    ∧ PsaImportSequencesDeselectAll_execute ctx' = (Ok FINISHED, ctx')
  else
    ∃ e, PsaImportSequencesDeselectAll_execute ctx = (Raise e, ctx)
         ∧ PsaImportSequencesDeselectAll_poll ctx = Raise e.
Proof.
  intros pg ctx'.
  destruct (name_filter_runs pg (sequence_list pg)) eqn:Hruns.
  - assert (∀ c, name_filter_runs (scene_psa_import c)
                   (sequence_list (scene_psa_import c)) = true →
                 PsaImportSequencesDeselectAll_execute c
                 = (Ok FINISHED,
                    set_psa_import c
                      (set_sequence_list (scene_psa_import c)
                         (select_shown false (scene_psa_import c))))) as Hexec.
    { intros c Hc. unfold PsaImportSequencesDeselectAll_execute.
      unfold st_bind at 1, get_psa_import at 1.
      rewrite get_visible_sequences_positions by done.
      unfold st_bind at 1, st_lift at 1.
      unfold st_bind at 1. rewrite set_selected_loop. by rewrite select_visible. }
    assert (name_filter_runs (scene_psa_import ctx')
              (sequence_list (scene_psa_import ctx')) = true) as Hruns'.
    { unfold ctx'. cbn [scene_psa_import set_psa_import].
      by rewrite (name_filter_runs_select false pg). }
    split_and!.
    + by apply Hexec.
    + unfold PsaImportSequencesDeselectAll_poll. cbn zeta.
      rewrite get_visible_sequences_positions by done. cbn [rbind].
      change (scene_psa_import ctx') with (set_sequence_list pg (select_shown false pg)).
      rewrite (select_shown_none_left false) by done. by rewrite andb_false_r.
    + rewrite Hexec by done. f_equal. unfold ctx', set_psa_import. cbn. f_equal.
      unfold set_sequence_list. cbn. f_equal.
      unfold select_shown at 1. cbn [sequence_list].
      change (passes_filter (mkPsaImportPropertyGroup _ _ _ _ _ _ _ _ _ _ _ _ _ _ _ _ _ _) ?x)
        with (passes_filter pg x).
      unfold select_shown. rewrite map_map. apply map_ext. intros item.
      destruct (passes_filter pg item) eqn:Hpass; [|by rewrite Hpass].
      by destruct (passes_filter pg (select_item false item)).
  - destruct (get_visible_sequences_raises pg (sequence_list pg) Hruns) as (e & He & _).
    exists e. split.
    + unfold PsaImportSequencesDeselectAll_execute.
      unfold st_bind at 1, get_psa_import at 1. fold pg.
      unfold st_bind at 1, st_lift at 1. by rewrite He.
    + unfold PsaImportSequencesDeselectAll_poll. cbn zeta. fold pg. by rewrite He.
Qed.

(** ** Selecting by a text list *)

Lemma from_text_line_loop (line : string) (rest : list PsaImportActionListItem) :
  ∀ (before : list PsaImportActionListItem) (ctx : BlenderContext) (count : nat),
    sequence_list (scene_psa_import ctx) = before ++ rest →
    st_for (seq (length before) (length rest))
      (λ count sequence,
         item <~ sequence_item sequence ;;
         if String.eqb (action_name item) line then
           _ <~ set_is_selected sequence true ;;
           st_ret (count + 1)
         else st_ret count)
      count ctx
    = (Ok (count + count_named line rest),
       set_psa_import ctx
         (set_sequence_list (scene_psa_import ctx)
            (before ++ map (select_named [line]) rest))).
Proof.
  induction rest as [|s rest IH]; intros pre ctx count Hlist.
  - cbn. rewrite Nat.add_0_r, app_nil_r. rewrite app_nil_r in Hlist.
    rewrite <- Hlist. by destruct ctx as [[] ? ? ?].
  - cbn [length seq st_for]. unfold st_bind at 1, st_bind at 1, sequence_item at 1.
    rewrite Hlist, lookup_app_r, Nat.sub_diag by lia. cbn [lookup list_lookup].
    unfold count_named. rewrite filter_cons. cbn [map]. unfold select_named at 1.
    destruct (String.eqb_spec (action_name s) line) as [Heq|Hne].
    + unfold st_bind at 1, set_is_selected at 1. unfold st_ret at 1.
      rewrite Hlist, decide_True by done.
      rewrite bool_decide_eq_true_2 by (by apply list_elem_of_singleton).
      specialize (IH (pre ++ [select_item true s])).
      rewrite length_app in IH. cbn [length] in IH. rewrite Nat.add_1_r in IH.
      rewrite IH.
      * cbn [length]. f_equal; [f_equal; unfold count_named; lia|].
        unfold set_psa_import, set_sequence_list. cbn. by rewrite <- app_assoc.
      * cbn. rewrite <- app_assoc. cbn [app].
        rewrite alter_app_r_alt, Nat.sub_diag by lia. done.
    + unfold st_ret at 1. rewrite decide_False by done.
      rewrite bool_decide_eq_false_2
        by (by intros ?%list_elem_of_singleton).
      specialize (IH (pre ++ [s])).
      rewrite length_app in IH. cbn [length] in IH. rewrite Nat.add_1_r in IH.
      rewrite IH.
      * by rewrite <- app_assoc.
      * by rewrite <- app_assoc.
Qed.

Lemma count_named_select (line : string) (lines : list string)
    (l : list PsaImportActionListItem) :
  count_named line (map (select_named lines) l) = count_named line l.
Proof.
  unfold count_named. induction l as [|item l IH]; [done|].
  cbn [map]. rewrite !filter_cons.
  assert (action_name (select_named lines item) = action_name item) as ->.
  { unfold select_named. by destruct (bool_decide _). }
  destruct (decide (action_name item = line)); cbn [length]; by rewrite IH.
Qed.

Lemma select_named_cons (line : string) (lines : list string)
    (item : PsaImportActionListItem) :
  select_named lines (select_named [line] item) = select_named (line :: lines) item.
Proof.
  unfold select_named.
  destruct (decide (action_name item = line)) as [Heq|Hne].
  - rewrite (bool_decide_eq_true_2 (action_name item ∈ [line]))
      by (by apply list_elem_of_singleton).
    rewrite (bool_decide_eq_true_2 (action_name item ∈ line :: lines))
      by (rewrite Heq; by left).
    cbn [select_item action_name]. by destruct (bool_decide _).
  - rewrite (bool_decide_eq_false_2 (action_name item ∈ [line]))
      by (by intros ?%list_elem_of_singleton).
    destruct (decide (action_name item ∈ lines)) as [Hin|Hout].
    + rewrite !bool_decide_eq_true_2; [done|by right|done].
    + rewrite !bool_decide_eq_false_2; [done| |done].
      by intros [?|?]%elem_of_cons.
Qed.

Lemma from_text_loop (n : nat) (lines : list string) :
  ∀ (ctx : BlenderContext) (count : nat),
    length (sequence_list (scene_psa_import ctx)) = n →
    st_for lines
      (λ count line,
         st_for (seq 0 n)
           (λ count sequence,
              item <~ sequence_item sequence ;;
              if String.eqb (action_name item) line then
                _ <~ set_is_selected sequence true ;;
                st_ret (count + 1)
              else st_ret count)
           count)
      count ctx
    = (Ok (count
           + sum_list (map (λ line, count_named line
                                      (sequence_list (scene_psa_import ctx))) lines)),
       set_psa_import ctx
         (set_sequence_list (scene_psa_import ctx)
            (map (select_named lines) (sequence_list (scene_psa_import ctx))))).
Proof.
  induction lines as [|line lines IH]; intros ctx count Hn.
  - cbn. rewrite Nat.add_0_r. destruct ctx as [[] ? ? ?]. cbn.
    unfold set_psa_import, set_sequence_list. cbn. do 3 f_equal.
    rewrite <- (map_id sequence_list0) at 1. by apply map_ext.
  - cbn [st_for]. unfold st_bind at 1.
    pose proof (from_text_line_loop line (sequence_list (scene_psa_import ctx))
                  [] ctx count eq_refl) as Hline.
    cbn [length app] in Hline. rewrite Hn in Hline. rewrite Hline.
    rewrite IH by (cbn; by rewrite length_map).
    cbn [scene_psa_import set_psa_import sequence_list set_sequence_list map sum_list].
    f_equal.
    + f_equal. rewrite <- Nat.add_assoc. f_equal. f_equal. f_equal.
      apply map_ext. intros line'. apply count_named_select.
    + unfold set_psa_import, set_sequence_list. cbn. do 2 f_equal.
      rewrite map_map. apply map_ext. intros item. apply select_named_cons.
Qed.

(** X18.  [PsaImportSequencesFromText.execute].  Without a text block it
    reports an error, changes nothing and is cancelled.  With one, it
    selects the sequences whose names are lines of the text, deselects
    none and leaves the names alone; the count it reports is the number of
    pairs of a line and a sequence of that name, so a repeated line and a
    sequence that was selected before count as well. *)
Theorem select_from_text_selects_the_listed_names (ctx : BlenderContext) :
  let pg := scene_psa_import ctx in
  PsaImportSequencesFromText_execute ctx
  = match select_text pg with
    | None =>
      (Ok CANCELLED,
       mkBlenderContext pg (view_layer_objects_active ctx) (blend_data ctx)
         (reports ctx ++ [(ERROR_INVALID_CONTEXT, "No text block selected")]))
    | Some contents =>
      let lines := split_lines contents in
      let count :=
        sum_list (map (λ line, count_named line (sequence_list pg)) lines) in
      (Ok FINISHED,
       mkBlenderContext
         (set_sequence_list pg (map (select_named lines) (sequence_list pg)))
         (view_layer_objects_active ctx) (blend_data ctx)
         (reports ctx ++ [(INFO, "Selected " +:+ pretty count +:+ " sequence(s)")]))
    end.
Proof.
  intros pg. unfold PsaImportSequencesFromText_execute.
  unfold st_bind at 1, get_psa_import at 1. fold pg.
  destruct (select_text pg) as [contents|]; [|done].
  unfold st_bind at 1. rewrite from_text_loop by done. done.
Qed.

(** ** Loading a file *)

Lemma add_sequences_loop {X} (g : X → PsaImportActionListItem) (xs : list X) :
  ∀ ctx,
    st_for xs
      (λ _ x, modify_psa_import
                (λ pg, set_sequence_list pg (sequence_list pg ++ [g x])))
      tt ctx
    = (Ok tt,
       set_psa_import ctx
         (set_sequence_list (scene_psa_import ctx)
            (sequence_list (scene_psa_import ctx) ++ map g xs))).
Proof.
  induction xs as [|x xs IH]; intros ctx; cbn [st_for map].
  - rewrite app_nil_r. by destruct ctx as [[] ? ? ?].
  - unfold st_bind, modify_psa_import at 1. rewrite IH. cbn.
    unfold set_psa_import, set_sequence_list. cbn. by rewrite <- app_assoc.
Qed.

Lemma add_bones_loop {X} (g : X → PsaBonePropertyGroup) (xs : list X) :
  ∀ ctx,
    st_for xs
      (λ _ x, modify_psa_import
                (λ pg, set_psa_bones pg (psa_bones (psa pg) ++ [g x])))
      tt ctx
    = (Ok tt,
       set_psa_import ctx
         (set_psa_bones (scene_psa_import ctx)
            (psa_bones (psa (scene_psa_import ctx)) ++ map g xs))).
Proof.
  induction xs as [|x xs IH]; intros ctx; cbn [st_for map].
  - rewrite app_nil_r. by destruct ctx as [[? ? [] ? ? ? ? ? ? ? ? ? ? ? ? ? ? ?] ? ? ?].
  - unfold st_bind, modify_psa_import at 1. rewrite IH. cbn.
    unfold set_psa_import, set_psa_bones. cbn. by rewrite <- app_assoc.
Qed.

Lemma load_psa_file_result (ctx : BlenderContext) :
  let pg := scene_psa_import ctx in
  load_psa_file ctx
  = (Ok tt,
     set_psa_import ctx
       match PsaReader_new (os_path_abspath (psa_file_path pg)) with
       | Ok psa_reader =>
         set_psa_bones
           (set_sequence_list (cleared pg)
              (map (λ sequence,
                      mkPsaImportActionListItem (sequence_name sequence) false)
                 (map_to_list (sequences psa_reader)).*2))
           (map (λ psa_bone, mkPsaBonePropertyGroup (psa_bone_name psa_bone))
              (bones psa_reader))
       | Raise e => set_psa_error (cleared pg) (exn_str e)
       end).
Proof.
  intros pg. unfold load_psa_file.
  unfold st_bind at 1, modify_psa_import at 1.
  unfold st_bind at 1, modify_psa_import at 1.
  unfold st_bind at 1, modify_psa_import at 1.
  unfold st_try. unfold st_bind at 1, get_psa_import at 1.
  cbn [scene_psa_import set_psa_import psa_file_path set_psa_error set_psa_bones
       set_sequence_list].
  fold pg. unfold st_bind at 1, st_lift at 1.
  destruct (PsaReader_new (os_path_abspath (psa_file_path pg))) as [psa_reader|e].
  - unfold st_bind at 1. rewrite add_sequences_loop, add_bones_loop. done.
  - done.
Qed.

(** X19.  [load_psa_file] never raises and writes the two lists and the
    error message only.  Afterwards no sequence is selected.  When the
    reader raises, both lists are empty and the error message is the text
    of the exception.  When the error message is empty afterwards (the
    text of no exception being empty), the reader has opened the file,
    the list has one item per sequence of the reader, under its name, and
    the bone list has the names of the PSA bones in the order of the
    file. *)
Theorem load_psa_file_lists_the_file (ctx : BlenderContext) :
  let pg := scene_psa_import ctx in
  ∃ pg',
    load_psa_file ctx
    = (Ok tt, mkBlenderContext pg' (view_layer_objects_active ctx) (blend_data ctx)
                (reports ctx))
    ∧ cleared pg' = cleared pg
    ∧ (∀ item, item ∈ sequence_list pg' → is_selected item = false)
    ∧ (∀ e, PsaReader_new (os_path_abspath (psa_file_path pg)) = Raise e →
         psa_error pg' = exn_str e
         ∧ sequence_list pg' = []
         ∧ psa_bones (psa pg') = [])
    ∧ ((∀ e, exn_str e ≠ "") → psa_error pg' = "" →
         ∃ psa_reader,
           PsaReader_new (os_path_abspath (psa_file_path pg)) = Ok psa_reader
           ∧ map action_name (sequence_list pg')
             ≡ₚ map sequence_name (map_to_list (sequences psa_reader)).*2
           ∧ map item_bone_name (psa_bones (psa pg'))
             = map psa_bone_name (bones psa_reader)).
Proof.
  intros pg. eexists. split; [apply load_psa_file_result|]. fold pg.
  destruct (PsaReader_new (os_path_abspath (psa_file_path pg))) as [psa_reader|e].
  - split_and!; [done| |done|].
    + intros item Hin. cbn in Hin. by apply list_elem_of_fmap in Hin as (? & -> & _).
    + intros _ _. exists psa_reader. split_and!; [done|cbn; by rewrite map_map..].
  - split_and!; [done| | |].
    + by intros item ?%elem_of_nil.
    + by intros e' [= <-].
    + intros Hstr Herr. cbn in Herr. by destruct (Hstr e).
Qed.

(** ** The import operator *)

Lemma existsb_filter_length {A} (p : A → bool) (l : list A) :
  existsb p l = true → 0 < length (filter (λ x, p x = true) l).
Proof.
  induction l as [|x l IH]; cbn [existsb]; [done|]. rewrite filter_cons.
  destruct (p x) eqn:Hx.
  - intros _. rewrite decide_True by done. cbn. lia.
  - cbn [orb]. intros Hl. rewrite decide_False by congruence. by apply IH.
Qed.

(** X20.  [PsaImportOperator.execute], where [poll] holds, the reader
    opens the file and the import runs to its end: the operator finishes,
    the host data are those the import of the selected sequences leaves
    (their names in the order of the list, the prefix only when the panel
    asks for one), the panel is unchanged, and the number reported is the
    number of actions of the import, which is the number of selected
    sequences and is not zero. *)
Theorem import_operator_imports_the_selection
    (ctx : BlenderContext) (psa_reader : PsaReader) (armature_object : ArmatureObject) :
  let pg := scene_psa_import ctx in
  PsaImportOperator_poll ctx = true →
  view_layer_objects_active ctx = Some (ArmatureObj armature_object) →
  PsaReader_new (psa_file_path pg) = Ok psa_reader →
  import_ready psa_reader armature_object (import_options pg) →
  ∃ actions w',
    import_psa psa_reader armature_object (import_options pg) (blend_data ctx)
    = (Ok actions, w')
    ∧ PsaImportOperator_execute ctx
      = (Ok FINISHED,
         mkBlenderContext pg (view_layer_objects_active ctx) w'
           (reports ctx
            ++ [(INFO, "Imported " +:+ pretty (length actions) +:+ " action(s)")]))
    ∧ length actions
      = length (filter (λ x, is_selected x = true) (sequence_list pg))
    ∧ 0 < length actions.
Proof.
  intros pg Hpoll Hactive Hreader (Hwf & Hnames & Hready).
  destruct (import_psa_ok psa_reader armature_object (import_options pg)
              (blend_data ctx) Hwf Hnames Hready) as (l & Hl & Hrun).
  cbn zeta in Hrun. eexists _, _. split; [exact Hrun|].
  assert (length (import_names psa_reader (import_options pg)
                    (build_bone_indices (map bone_name (armature_bones armature_object))
                       (bones psa_reader))
                    l (bpy_data_actions (blend_data ctx))
                    (requested_sequences psa_reader (sequence_names (import_options pg))))
          = length (filter (λ x, is_selected x = true) (sequence_list pg))) as Hlen.
  { rewrite length_import_names, length_requested_sequences by done.
    cbn [import_options sequence_names]. by rewrite length_map. }
  split_and!.
  - rewrite Hlen, <- (length_map action_name). unfold PsaImportOperator_execute.
    unfold st_bind at 1, get_psa_import at 1. fold pg.
    unfold st_bind at 1, st_lift at 1. rewrite Hreader.
    unfold st_bind at 1. rewrite Hactive. unfold on_blend_data.
    change (mkPsaImportOptions _ _ _ _ _ _ _ _) with (import_options pg).
    rewrite Hrun. unfold st_bind, report, st_ret.
    cbn [scene_psa_import view_layer_objects_active blend_data reports].
    by rewrite Hactive.
  - done.
  - rewrite Hlen. apply existsb_filter_length.
    unfold PsaImportOperator_poll in Hpoll. by rewrite Hactive in Hpoll.
Qed.

End PanelFacts.

(** * Concrete runs *)

(** The filter on the names "Walk", "Run" and "Walk_Back": the text "al"
    and the regular expression "Walk" show the first and the third; a
    regular expression that does not compile shows all three; one whose
    compilation overflows makes the filter, and the [poll] of the
    operator that selects all, raise. *)
Lemma filter_runs_on_three_names :
  let shown := Z.shiftl 1 30 in
  let sequences := sequence_list (filter_panel "" false) in
  filter_sequences (matching := literal_matching) (filter_panel "al" false) sequences
  = Ok [shown; 0%Z; shown]
  ∧ filter_sequences (matching := literal_matching) (filter_panel "Walk" true) sequences
    = Ok [shown; 0%Z; shown]
  ∧ filter_sequences (matching := literal_matching) (filter_panel "(" true) sequences
    = Ok [shown; shown; shown]
  ∧ filter_sequences (matching := literal_matching) (filter_panel "a{4294967296}" true)
      sequences
    = Raise OverflowError
  ∧ PsaImportSequencesSelectAll_poll (matching := literal_matching)
      (mkBlenderContext (filter_panel "a{4294967296}" true) None empty_world [])
    = Raise OverflowError.
Proof. by vm_compute. Qed.

(** Loading "walk.psa" lists its sequence and its two bones and leaves no
    error message; loading a file that the host does not have leaves the
    lists empty and the text of the exception. *)
Lemma load_lists_the_walk_file :
  let pg := scene_psa_import (load_psa_file (host := walk_host) walk_context).2 in
  let stale :=
    mkPsaImportPropertyGroup "none.psa" "" (mkPsaDataPropertyGroup [] 0)
      [mkPsaImportActionListItem "Walk" true] 0
      true false false false "" false true true "" false false false None in
  let pg' :=
    scene_psa_import
      (load_psa_file (host := walk_host) (mkBlenderContext stale None empty_world [])).2 in
  map action_name (sequence_list pg) = ["Walk"]
  ∧ map is_selected (sequence_list pg) = [false]
  ∧ map item_bone_name (psa_bones (psa pg)) = ["pelvis"; "spine"]
  ∧ psa_error pg = ""
  ∧ sequence_list pg' = []
  ∧ psa_error pg' = "cannot read the file".
Proof. by vm_compute. Qed.



Lemma stash_adds_one_track_per_action_witness :
  import_ready walk_reader two_bone_armature
    (mkPsaImportOptions true false true ["Walk"] false true true "")
  ∧ ∃ actions w',
      import_psa (R := hamilton) walk_reader two_bone_armature
        (mkPsaImportOptions true false true ["Walk"] false true true "") empty_world
      = (Ok actions, w')
      ∧ actions = ["Walk"]
      ∧ animation_data w' = Some [mkNlaTrack "Walk" true [mkNlaStrip "Walk" 0 "Walk"]].
Proof.
  pose proof (walk_ready two_bone_armature
                (mkPsaImportOptions true false true ["Walk"] false true true "")
                wf_two_bone_armature eq_refl) as Hready.
  split; [exact Hready|].
  destruct (stash_adds_one_track_per_action (R := hamilton) walk_reader two_bone_armature
              (mkPsaImportOptions true false true ["Walk"] false true true "")
              empty_world Hready)
    as (acts & w' & Hrun & Hlen & _ & Hstash).
  exists acts, w'. split; [exact Hrun|].
  assert (acts = ["Walk"]) as ->.
  { pose proof Hrun as Hacts. vm_compute in Hacts. by injection Hacts. }
  split; [reflexivity|].
  destruct (Hstash eq_refl) as (tracks & Hdata & Hlen' & Htracks).
  rewrite Hdata.
  destruct (Htracks 0 "Walk" eq_refl) as (strip & Htrack & Hstart & Haction & _ & Hname).
  destruct tracks as [|track [|? ?]]; [discriminate| |discriminate].
  injection Htrack as ->. destruct strip as [name start action].
  cbn in Hstart, Haction, Hname. rewrite Hstart, Haction, Hname; [reflexivity|].
  apply not_elem_of_nil.
Defined.

(** A strip "Walk" that is there already: the new strip is "Walk.001". *)
Lemma stash_renames_a_taken_strip :
  let old_track := mkNlaTrack "Old" false [mkNlaStrip "Walk" 10 "Other"] in
  animation_data
    (import_psa (R := hamilton) walk_reader two_bone_armature
       (mkPsaImportOptions true false true ["Walk"] false true true "")
       (mkWorld ∅ (Some [old_track]) [])).2
  = Some [old_track; mkNlaTrack "Walk" true [mkNlaStrip "Walk.001" 0 "Walk"]].
Proof. by vm_compute. Qed.

Lemma import_leaves_other_actions_witness :
  import_ready walk_reader two_bone_armature
    (mkPsaImportOptions true false false ["Walk"] true true true "New")
  ∧ ∃ actions w',
      import_psa (R := hamilton) walk_reader two_bone_armature
        (mkPsaImportOptions true false false ["Walk"] true true true "New") walk_world
      = (Ok actions, w')
      ∧ bpy_data_actions w' !! "Walk" = Some old_walk.
Proof.
  pose proof (walk_ready two_bone_armature
                (mkPsaImportOptions true false false ["Walk"] true true true "New")
                wf_two_bone_armature eq_refl) as Hready.
  split; [exact Hready|].
  destruct (import_leaves_other_actions (R := hamilton) walk_reader two_bone_armature
              (mkPsaImportOptions true false false ["Walk"] true true true "New")
              walk_world Hready)
    as (acts & w' & Hrun & Hkeep).
  exists acts, w'. split; [exact Hrun|].
  apply Hkeep; [reflexivity|].
  intros x s _ Hs. apply walk_reader_sequences in Hs as [_ ->]. discriminate.
Defined.

Lemma reimport_with_overwrite_changes_nothing_witness :
  import_ready walk_reader two_bone_armature (walk_options true true true ["Walk"])
  ∧ reader_keyed walk_reader
  ∧ kept_name "Walk"
  ∧ ∃ actions w1 w2,
      import_psa (R := hamilton) walk_reader two_bone_armature
        (walk_options true true true ["Walk"]) walk_world = (Ok actions, w1)
      ∧ import_psa (R := hamilton) walk_reader two_bone_armature
          (walk_options true true true ["Walk"]) w1 = (Ok actions, w2)
      ∧ bpy_data_actions w2 = bpy_data_actions w1.
Proof.
  pose proof (walk_ready two_bone_armature (walk_options true true true ["Walk"])
                wf_two_bone_armature eq_refl) as Hready.
  split; [exact Hready|]. split; [exact walk_reader_keyed|].
  assert (kept_name "Walk") as Hkept by (unfold kept_name; cbn; lia).
  split; [exact Hkept|].
  apply (reimport_with_overwrite_changes_nothing (R := hamilton) walk_reader
           two_bone_armature (walk_options true true true ["Walk"]) walk_world
           eq_refl Hready walk_reader_keyed).
  intros x s _ Hs. apply walk_reader_sequences in Hs as [_ ->]. exact Hkept.
Defined.

Lemma keyframes_follow_the_frames_witness :
  import_ready walk_reader two_bone_armature (walk_options true false true ["Walk"])
  ∧ reader_keyed walk_reader
  ∧ ∃ actions w',
      import_psa (R := hamilton) walk_reader two_bone_armature
        (walk_options true false true ["Walk"]) empty_world = (Ok actions, w')
      ∧ ∃ n a, actions !! 0 = Some n
          ∧ bpy_data_actions w' !! n = Some a
          ∧ ∀ fc, fc ∈ action_fcurves a →
              length (keyframe_points fc) ≤ 3
              ∧ fst <$> head (keyframe_points fc) = Some 0.
Proof.
  pose proof (walk_ready two_bone_armature (walk_options true false true ["Walk"])
                wf_two_bone_armature eq_refl) as Hready.
  split; [exact Hready|]. split; [exact walk_reader_keyed|].
  destruct (keyframes_follow_the_frames (R := hamilton) walk_reader two_bone_armature
              (walk_options true false true ["Walk"]) empty_world
              eq_refl Hready walk_reader_keyed)
    as (l & acts & w' & _ & Hrun & Hall).
  exists acts, w'. split; [exact Hrun|].
  destruct (Hall 0 "Walk" walk_sequence eq_refl eq_refl)
    as (n & a & M & D & Hn & Ha & _ & _ & Hcurves).
  exists n, a. split; [exact Hn|]. split; [exact Ha|].
  intros fc Hfc. destruct (Hcurves fc Hfc) as (b & ib & c & _ & _ & _ & _ & Hsub & Hhead).
  split.
  - apply sublist_length in Hsub. rewrite length_map, length_seq in Hsub. exact Hsub.
  - rewrite (Hhead ltac:(cbn; lia)). reflexivity.
Defined.

Lemma still_channel_keeps_one_keyframe_witness :
  import_ready walk_reader two_bone_armature (walk_options true false true ["Walk"])
  ∧ reader_keyed walk_reader
  ∧ ∃ actions w',
      import_psa (R := hamilton) walk_reader two_bone_armature
        (walk_options true false true ["Walk"]) empty_world = (Ok actions, w')
      ∧ ∃ n a fc, actions !! 0 = Some n
          ∧ bpy_data_actions w' !! n = Some a
          ∧ fc ∈ action_fcurves a
          ∧ data_path fc = ("pelvis", rotation_quaternion)
          ∧ array_index fc = 0
          ∧ map fst (keyframe_points fc) = [0].
Proof.
  pose proof (walk_ready two_bone_armature (walk_options true false true ["Walk"])
                wf_two_bone_armature eq_refl) as Hready.
  split; [exact Hready|]. split; [exact walk_reader_keyed|].
  destruct (still_channel_keeps_one_keyframe (R := hamilton) walk_reader two_bone_armature
              (walk_options true false true ["Walk"]) empty_world
              eq_refl eq_refl Hready walk_reader_keyed)
    as (l & acts & w' & Hl & Hrun & Hall).
  exists acts, w'. split; [exact Hrun|].
  destruct (Hall 0 "Walk" walk_sequence eq_refl eq_refl)
    as (n & a & M & D & Hn & Ha & HM & HD & Hcurves).
  vm_compute in Hl. injection Hl as <-.
  vm_compute in HM. injection HM as <-.
  destruct (Hcurves 0 _ 0 eq_refl ltac:(lia) ltac:(cbn; lia)) as (fc & Hfc & Hpath & Hidx & Hpoints).
  { vm_compute in HD. injection HD as <-.
    intros [|[|[|f]]] Hf; [vm_compute; reflexivity..|cbn in Hf; lia]. }
  exists n, a, fc. split_and!; [exact Hn|exact Ha|exact Hfc|exact Hpath|exact Hidx|].
  rewrite Hpoints. reflexivity.
Defined.

Lemma imported_action_has_seven_curves_per_bone_witness :
  import_ready walk_reader two_bone_armature (walk_options true false true ["Walk"])
  ∧ ∃ actions w',
      import_psa (R := hamilton) walk_reader two_bone_armature
        (walk_options true false true ["Walk"]) empty_world = (Ok actions, w')
      ∧ ∀ n, n ∈ actions →
          ∃ a, bpy_data_actions w' !! n = Some a ∧ length (action_fcurves a) = 14.
Proof.
  pose proof (walk_ready two_bone_armature (walk_options true false true ["Walk"])
                wf_two_bone_armature eq_refl) as Hready.
  split; [exact Hready|].
  destruct (imported_action_has_seven_curves_per_bone (R := hamilton) walk_reader
              two_bone_armature (walk_options true false true ["Walk"]) empty_world
              eq_refl Hready)
    as (acts & w' & Hrun & Hall).
  exists acts, w'. split; [exact Hrun|].
  intros n Hn. destruct (Hall n Hn) as (a & Ha & Hlen & _).
  exists a. split; [exact Ha|]. rewrite Hlen. reflexivity.
Defined.

Lemma import_keeps_other_custom_properties_witness :
  import_ready walk_reader two_bone_armature (walk_options true true true ["Walk"])
  ∧ ∃ actions w',
      import_psa (R := hamilton) walk_reader two_bone_armature
        (walk_options true true true ["Walk"]) noted_world = (Ok actions, w')
      ∧ ∃ a', bpy_data_actions w' !! "Walk" = Some a'
          ∧ id_properties a' !! "note" = Some (PString "keep").
Proof.
  pose proof (walk_ready two_bone_armature (walk_options true true true ["Walk"])
                wf_two_bone_armature eq_refl) as Hready.
  split; [exact Hready|].
  destruct (import_keeps_other_custom_properties (R := hamilton) walk_reader
              two_bone_armature (walk_options true true true ["Walk"]) noted_world Hready)
    as (acts & w' & Hrun & Hkeep).
  exists acts, w'. split; [exact Hrun|].
  destruct (Hkeep "Walk" noted_walk "note" eq_refl ltac:(discriminate) ltac:(discriminate))
    as (a' & Ha' & Hnote & _).
  exists a'. split; [exact Ha'|]. rewrite Hnote. reflexivity.
Defined.

Lemma missing_bones_report_witness :
  import_ready walk_reader pelvis_only_armature (walk_options true false true ["Walk"])
  ∧ ∃ actions w',
      import_psa (R := hamilton) walk_reader pelvis_only_armature
        (walk_options true false true ["Walk"]) empty_world = (Ok actions, w')
      ∧ stdout w' = [MissingBonesHeader "Armature"; MissingBonesList ["spine"]].
Proof.
  pose proof (walk_ready pelvis_only_armature (walk_options true false true ["Walk"])
                wf_pelvis_only_armature eq_refl) as Hready.
  split; [exact Hready|].
  destruct (missing_bones_report (R := hamilton) walk_reader pelvis_only_armature
              (walk_options true false true ["Walk"]) empty_world Hready)
    as (acts & w' & Hrun & Hout & _).
  exists acts, w'. split; [exact Hrun|]. rewrite Hout. reflexivity.
Defined.

Lemma incomplete_rest_properties_stop_the_import_witness :
  find_bone "pelvis" (armature_bones half_aux_armature) = Some half_aux_pelvis
  ∧ is_Some (prop_orig_quat half_aux_pelvis)
  ∧ prop_orig_loc half_aux_pelvis = None
  ∧ ∃ key w',
      import_psa (R := hamilton) walk_reader half_aux_armature
        (walk_options true false true ["Walk"]) walk_world
      = (Raise (KeyError key), w')
      ∧ bpy_data_actions w' = bpy_data_actions walk_world.
Proof.
  split; [reflexivity|]. split; [by eexists|]. split; [reflexivity|].
  destruct (incomplete_rest_properties_stop_the_import (R := hamilton) walk_reader
              half_aux_armature (walk_options true false true ["Walk"]) walk_world
              (mkPsaBone "pelvis") half_aux_pelvis)
    as (key & w' & Hrun & _ & Hactions & _).
  - intros b p Hb Hp. apply list_elem_of_singleton in Hb as ->. discriminate.
  - left.
  - reflexivity.
  - by eexists.
  - by left.
  - exists key, w'. split; [exact Hrun|exact Hactions].
Defined.


Lemma import_operator_imports_the_selection_witness :
  PsaImportOperator_poll walk_context = true
  ∧ import_ready walk_reader two_bone_armature (import_options walk_panel)
  ∧ ∃ ctx',
      PsaImportOperator_execute (R := hamilton) (host := walk_host) walk_context
      = (Ok FINISHED, ctx')
      ∧ reports ctx' = [(INFO, "Imported 1 action(s)")].
Proof.
  pose proof (walk_ready two_bone_armature (import_options walk_panel)
                wf_two_bone_armature eq_refl) as Hready.
  split; [reflexivity|]. split; [exact Hready|].
  destruct (import_operator_imports_the_selection (R := hamilton) (host := walk_host)
              walk_context walk_reader two_bone_armature
              eq_refl eq_refl eq_refl Hready)
    as (acts & w' & _ & Hexec & Hlen & _).
  eexists. split; [exact Hexec|]. cbn [reports]. rewrite Hlen. reflexivity.
Defined.

Lemma dropped_frames_stay_near_the_last_keyframe_witness :
  import_ready walk_reader two_bone_armature (walk_options true false true ["Walk"])
  ∧ reader_keyed walk_reader
  ∧ ∃ actions w',
      import_psa (R := hamilton) walk_reader two_bone_armature
        (walk_options true false true ["Walk"]) empty_world = (Ok actions, w')
      ∧ ∃ n a fc, actions !! 0 = Some n
          ∧ bpy_data_actions w' !! n = Some a
          ∧ fc ∈ action_fcurves a
          ∧ data_path fc = ("pelvis", location)
          ∧ array_index fc = 0
          ∧ ∃ j v, j ≤ 1 ∧ (j, v) ∈ keyframe_points fc.
Proof.
  pose proof (walk_ready two_bone_armature (walk_options true false true ["Walk"])
                wf_two_bone_armature eq_refl) as Hready.
  split; [exact Hready|]. split; [exact walk_reader_keyed|].
  destruct (dropped_frames_stay_near_the_last_keyframe (R := hamilton) walk_reader
              two_bone_armature (walk_options true false true ["Walk"]) empty_world
              eq_refl eq_refl Hready walk_reader_keyed)
    as (l & acts & w' & Hl & Hrun & Hall).
  exists acts, w'. split; [exact Hrun|].
  destruct (Hall 0 "Walk" walk_sequence eq_refl eq_refl)
    as (n & a & M & D & Hn & Ha & _ & _ & Hcurves).
  vm_compute in Hl. injection Hl as <-.
  destruct (Hcurves 0 _ 4 eq_refl ltac:(lia)) as (fc & Hfc & Hpath & Hidx & Hnear).
  exists n, a, fc. split_and!; [exact Hn|exact Ha|exact Hfc|exact Hpath|exact Hidx|].
  destruct (Hnear 1 ltac:(cbn; lia)) as (j & Hj & Hin & _).
  exists j, (item D j 0 4). split; [exact Hj|exact Hin].
Defined.

Lemma convert_matrix_converts_each_row_once_witness :
  ∃ D, convert_matrix (R := hamilton) [Some sample_import_bone] 3 sample_matrix = Ok D
       ∧ same_shape D sample_matrix
       ∧ nd_row D 2 0 = Ok [1; 0; 0; 0; 1; 2; 3]%Q.
Proof.
  destruct (convert_matrix_converts_each_row_once (R := hamilton)
              [Some sample_import_bone] 3 sample_matrix)
    as (D & HD & Hshape & Hrows & _).
  - cbn. lia.
  - reflexivity.
  - cbn. lia.
  - exists D. split; [exact HD|]. split; [exact Hshape|].
    destruct (Hrows 2 0 sample_import_bone ltac:(lia) eq_refl)
      as (key_data & local & Hkey & Hlocal & Hrow).
    rewrite Hrow. vm_compute in Hkey. injection Hkey as <-.
    vm_compute in Hlocal. injection Hlocal as <-. reflexivity.
Defined.
